(** * Call2Code backend: the task-alignment engine, the model router,
      the response sanitizer, the JSON extraction and the game score handler

    A shallow embedding of
      - [src/services/taskAlignment.ts]   ([isValidUUID], [alignTasksWithPlan]),
      - [src/utils/ai.ts]                 ([cleanAIResponse], [callOptimalAI],
                                           [parseTimeString], [isOutdoorTask]),
      - [src/controllers/aiController.ts] (the JSON extraction and its repair,
                                           the clean-up of extracted voice
                                           tasks, the time context of the
                                           Kanban prompts),
      - [src/controllers/gameController.ts] ([saveGameHighScore],
                                           [getGameHighScore],
                                           [getUserHighScore]),
    followed by the properties of these functions.

    Conventions of the embedding.
      - A JavaScript string is a [string]: one [ascii] per UTF-16 code unit,
        for text whose code units are below 256.  The only character outside
        that range that the code itself writes is the bullet U+2022 (one code
        unit); it is represented by the single unit [bullet].
      - A JavaScript number is an integer [Z]: the numbers that reach these
        functions are read from JSON (minutes, scores), and no function
        below produces a fraction or NaN from integers.
      - Loosely typed values ([any]) are [Js.value]s.
      - Code that can throw is written in a monad that threads the mutable
        state and carries the exception, so that [try]/[catch] keeps the
        mutations made before the throw, as in JavaScript. *)

From Stdlib Require Import ZArith QArith List String Ascii Bool Arith Lia DecimalString.
Import ListNotations.
Local Close Scope Q_scope.
Local Open Scope string_scope.

(* ===================================================================== *)
(** * Part I: the embedding                                               *)
(* ===================================================================== *)

(** ** JavaScript values and the string primitives the code uses *)

Module Js.

Inductive value : Type :=
| Undefined
| Null
| Bool (b : bool)
| Num (n : Z)
| Str (s : string)
| Obj (shown : string).
(** [Obj shown] is an object or array; the code below can observe of it
    only that it is truthy, that its [typeof] is neither ['string'] nor
    ['number'], and its conversion to text, [shown]. *)

(** [!!v] *)
Definition truthy (v : value) : bool :=
  match v with
  | Undefined | Null => false
  | Bool b => b
  | Num n => negb (n =? 0)%Z
  | Str s => negb (s =? "")
  | Obj _ => true
  end.

(** [typeof v === 'string'], [typeof v === 'number'] *)
Definition isString (v : value) : bool :=
  match v with Str _ => true | _ => false end.
Definition isNumber (v : value) : bool :=
  match v with Num _ => true | _ => false end.

(** [a || b] *)
Definition or (a b : value) : value := if truthy a then a else b.

(** [v === 'literal'] *)
Definition isStr (v : value) (lit : string) : bool :=
  match v with Str s => s =? lit | _ => false end.

(** [a === b]; two objects are never the same reference here. *)
Definition strictEq (a b : value) : bool :=
  match a, b with
  | Undefined, Undefined | Null, Null => true
  | Bool x, Bool y => Bool.eqb x y
  | Num x, Num y => (x =? y)%Z
  | Str x, Str y => x =? y
  | _, _ => false
  end.

(** Decimal text of an integer, as [String(n)] prints it. *)
Definition decimal (n : Z) : string := NilZero.string_of_int (Z.to_int n).

(** [String(v)], also what a template literal interpolates. *)
Definition toString (v : value) : string :=
  match v with
  | Undefined => "undefined"
  | Null => "null"
  | Bool true => "true"
  | Bool false => "false"
  | Num n => decimal n
  | Str s => s
  | Obj shown => shown
  end.

Definition code (c : ascii) : nat := nat_of_ascii c.

Definition between (lo hi : nat) (c : ascii) : bool :=
  ((lo <=? code c) && (code c <=? hi))%nat.

Definition isUpper : ascii -> bool := between 65 90.
Definition isLower : ascii -> bool := between 97 122.
Definition isDigit : ascii -> bool := between 48 57.

(** The letters of the range with two cases: A-Z and, above 127, the
    capitals from 192 to 222 without the multiplication sign (215), with
    their small letters 32 further. *)
Definition isCapital (c : ascii) : bool :=
  isUpper c || (between 192 222 c && negb (code c =? 215)%nat).
Definition isSmall (c : ascii) : bool :=
  isLower c || (between 224 254 c && negb (code c =? 247)%nat).

Definition lowerChar (c : ascii) : ascii :=
  if isCapital c then ascii_of_nat (code c + 32)%nat else c.
Definition upperChar (c : ascii) : ascii :=
  if isSmall c then ascii_of_nat (code c - 32)%nat else c.

(** [s.toLowerCase()] *)
Fixpoint toLowerCase (s : string) : string :=
  match s with
  | EmptyString => EmptyString
  | String c r => String (lowerChar c) (toLowerCase r)
  end.

(** White space and line terminators, the set of [\s] and of [trim]:
    TAB, LF, VT, FF, CR, space and the no-break space. *)
Definition isWhite (c : ascii) : bool :=
  between 9 13 c || (code c =? 32)%nat || (code c =? 160)%nat.

(** Line terminators, what [.] does not match and what [^] and [$] look
    at under the [m] flag. *)
Definition isLineEnd (c : ascii) : bool :=
  (code c =? 10)%nat || (code c =? 13)%nat.

Fixpoint dropWhite (l : list ascii) : list ascii :=
  match l with
  | c :: r => if isWhite c then dropWhite r else l
  | [] => []
  end.

Definition trimChars (l : list ascii) : list ascii :=
  rev (dropWhite (rev (dropWhite l))).

(** [s.trim()] *)
Definition trim (s : string) : string :=
  string_of_list_ascii (trimChars (list_ascii_of_string s)).

(** [s.includes(sub)] *)
Definition includes (s sub : string) : bool :=
  match index 0 sub s with Some _ => true | None => false end.

(** [s.substring(0, n)] *)
Definition substring0 (n : nat) (s : string) : string := substring 0 n s.

(** The bullet U+2022: one code unit. *)
Definition bullet : ascii := ascii_of_nat 149.

(** The double quote, as a one-character string. *)
Definition dquote : string := String (ascii_of_nat 34) EmptyString.

(** An element of an array read from JSON, for code that reads properties
    of it: reading a property of [null] or [undefined] throws, and every
    other element that is not an object reads as an object without
    properties. *)
Inductive element (A : Type) : Type :=
| Nullish
| Object (o : A).
Arguments Nullish {A}.
Arguments Object {A} o.

(** What is thrown: a [TypeError] of the language, the error of a failed
    query (the [n]-th of its connection), or [new Error(message)]. *)
Inductive exn : Type :=
| TypeError
| QueryError (n : nat)
| Error (message : string).

Inductive outcome (A : Type) : Type :=
| Returned (a : A)
| Thrown (e : exn).
Arguments Returned {A} a.
Arguments Thrown {A} e.

End Js.

(** ** The storage client

    The relational store is reached through [sql.query].  Which queries
    fail (a lost connection, a value that a column refuses), and the
    identity the [tasks] table gives to a new row, are not decided by this
    code: [fails n] tells whether the [n]-th query of the connection throws,
    and [newId n] is the [id] that an [INSERT] issued as [n]-th query
    returns.  The store compares an [id] with a parameter as texts. *)

Module Db.

Record Client : Type := mkClient {
  fails : nat -> bool;
  newId : nat -> string
}.

(** A table and the number of queries issued so far on the connection. *)
Record Store (R : Type) : Type := mkStore {
  rows : list R;
  issued : nat
}.
Arguments mkStore {R} rows issued.
Arguments rows {R} s.
Arguments issued {R} s.

(** [await sql.query(...)] on a table: the query is counted; it throws when
    the client says so and leaves the table as it was (a statement is
    atomic), and otherwise runs [stmt] on the table. *)
Definition query {R A} (sql : Client) (stmt : nat -> list R -> A * list R)
           (s : Store R) : Js.outcome A * Store R :=
  let n := issued s in
  if fails sql n
  then (Js.Thrown (Js.QueryError n), mkStore (rows s) (S n))
  else let (a, rows') := stmt n (rows s) in
       (Js.Returned a, mkStore rows' (S n)).

End Db.

(** ** Regular expressions

    The regular expression literals of the source are written as terms of
    [re] and run by a backtracking matcher with the priorities of the
    ECMAScript one: alternatives left to right, greedy repetition longest
    first, lazy repetition shortest first, an iteration of a repetition that
    consumes nothing is rejected. *)

Module Regex.

Local Open Scope list_scope.

Inductive re : Type :=
| Eps
| Chr (p : ascii -> bool)
| Seq (a b : re)
| Alt (a b : re)
| Star (greedy : bool) (r : re)
| Bol
| Eol
| Group (i : nat) (r : re).

(** A position in the subject: what has been consumed (last first), what
    is left, and the text of the capture groups closed so far. *)
Record pos : Type := mkPos {
  seen : list ascii;
  rest : list ascii;
  caps : list (nat * list ascii)
}.

Definition advanced (before after : pos) : bool :=
  (List.length (rest after) <? List.length (rest before))%nat.

Definition orElse (a : option pos) (b : unit -> option pos) : option pos :=
  match a with Some x => Some x | None => b tt end.

Section Matcher.
(** The [m] flag. *)
Variable multiline : bool.

Definition atBol (s : pos) : bool :=
  match seen s with
  | [] => true
  | c :: _ => multiline && Js.isLineEnd c
  end.

Definition atEol (s : pos) : bool :=
  match rest s with
  | [] => true
  | c :: _ => multiline && Js.isLineEnd c
  end.

(** The iterations of a repetition whose body is run by [body]: a greedy
    one tries one more iteration before the continuation [k], a lazy one
    tries [k] first.  Every iteration consumes something, so that [fuel]
    above the length of what is left never runs out. *)
Fixpoint starLoop (greedy : bool)
         (body : (pos -> option pos) -> pos -> option pos)
         (k : pos -> option pos) (fuel : nat) (s : pos) {struct fuel}
  : option pos :=
  match fuel with
  | O => k s
  | S fuel' =>
      let again (_ : unit) :=
        body (fun s' => if advanced s s'
                        then starLoop greedy body k fuel' s'
                        else None) s in
      if greedy then orElse (again tt) (fun _ => k s)
      else orElse (k s) again
  end.

Fixpoint run (r : re) (k : pos -> option pos) (s : pos) {struct r}
  : option pos :=
  match r with
  | Eps => k s
  | Chr p =>
      match rest s with
      | c :: tl => if p c then k (mkPos (c :: seen s) tl (caps s)) else None
      | [] => None
      end
  | Seq a b => run a (run b k) s
  | Alt a b => orElse (run a k s) (fun _ => run b k s)
  | Star greedy r' => starLoop greedy (run r') k (S (List.length (rest s))) s
  | Bol => if atBol s then k s else None
  | Eol => if atEol s then k s else None
  | Group i r' =>
      run r' (fun s' =>
                let n := (List.length (seen s') - List.length (seen s))%nat in
                k (mkPos (seen s') (rest s')
                         ((i, rev (firstn n (seen s'))) :: caps s'))) s
  end.

(** One attempt at the current position. *)
Definition matchHere (r : re) (s : pos) : option pos :=
  run r (fun s' => Some s') (mkPos (seen s) (rest s) []).

(** Leftmost match at or after the current position: the position where
    it starts and the position where it ends. *)
Fixpoint search (r : re) (sn : list ascii) (rs : list ascii) {struct rs}
  : option (pos * pos) :=
  match matchHere r (mkPos sn rs []) with
  | Some e => Some (mkPos sn rs [], e)
  | None =>
      match rs with
      | [] => None
      | c :: tl => search r (c :: sn) tl
      end
  end.

(** [String.prototype.replace] with the [g] flag.  The matches are found
    in the subject, never in the replaced text. *)
Fixpoint replaceFrom (fuel : nat) (r : re)
         (sub : pos -> list ascii) (s : pos) : list ascii :=
  match fuel with
  | O => rest s
  | S fuel' =>
      match matchHere r s with
      | Some e =>
          if advanced s e
          then sub e ++ replaceFrom fuel' r sub (mkPos (seen e) (rest e) [])
          else match rest s with
               | [] => sub e
               | c :: tl =>
                   sub e ++ c :: replaceFrom fuel' r sub (mkPos (c :: seen s) tl [])
               end
      | None =>
          match rest s with
          | [] => []
          | c :: tl => c :: replaceFrom fuel' r sub (mkPos (c :: seen s) tl [])
          end
      end
  end.

(** [String.prototype.split] with a regular expression separator, for a
    subject that is not empty.  [piece] is the piece being read, last
    character first; a match that ends where the piece began is skipped,
    and after an empty match further on the next character starts the
    new piece (the same empty match would be skipped there). *)
Fixpoint splitFrom (fuel : nat) (r : re) (piece : list ascii) (s : pos)
  : list (list ascii) :=
  match fuel with
  | O => [rev piece ++ rest s]
  | S fuel' =>
      match rest s with
      | [] => [rev piece]
      | c :: tl =>
          let next := mkPos (c :: seen s) tl [] in
          match matchHere r s with
          | Some e =>
              if advanced s e
              then rev piece :: splitFrom fuel' r [] (mkPos (seen e) (rest e) [])
              else match piece with
                   | [] => splitFrom fuel' r [c] next
                   | _ => rev piece :: splitFrom fuel' r [c] next
                   end
          | None => splitFrom fuel' r (c :: piece) next
          end
      end
  end.

End Matcher.

Definition chars (s : string) : list ascii := list_ascii_of_string s.
Definition text (l : list ascii) : string := string_of_list_ascii l.

(** The text of capture group [i], as closed last; [None] when the group
    did not take part in the match.  [group] is what ['$1'] substitutes: the
    empty text for a group that did not take part. *)
Fixpoint capture (i : nat) (cs : list (nat * list ascii)) : option (list ascii) :=
  match cs with
  | [] => None
  | (j, t) :: tl => if (i =? j)%nat then Some t else capture i tl
  end.

Definition group (i : nat) (e : pos) : list ascii :=
  match capture i (caps e) with Some t => t | None => [] end.

(** [re.test(s)] *)
Definition test (multiline : bool) (r : re) (s : string) : bool :=
  match search multiline r [] (chars s) with Some _ => true | None => false end.

(** [re.exec(s)] / [s.match(re)] without the [g] flag: the matched text and
    the end position with its captures. *)
Definition exec (multiline : bool) (r : re) (s : string) : option (string * pos) :=
  match search multiline r [] (chars s) with
  | Some (b, e) =>
      Some (text (rev (firstn (List.length (seen e) - List.length (seen b))%nat (seen e))), e)
  | None => None
  end.

(** [s.replace(re, ...)] with the [g] flag. *)
Definition replaceAll (multiline : bool) (r : re)
           (sub : pos -> list ascii) (s : string) : string :=
  text (replaceFrom multiline (S (length s)) r sub (mkPos [] (chars s) [])).

(** [s.split(re)] *)
Definition split (multiline : bool) (r : re) (s : string) : list string :=
  match chars s with
  | [] => match matchHere multiline r (mkPos [] [] []) with
          | Some _ => []
          | None => [""]
          end
  | l => map text (splitFrom multiline (S (length s)) r [] (mkPos [] l []))
  end.

(** *** Building blocks for the literals *)

Definition just (c : ascii) : re := Chr (Ascii.eqb c).
(** A letter under the [i] flag. *)
Definition justCI (c : ascii) : re :=
  Chr (fun x => Ascii.eqb (Js.upperChar x) (Js.upperChar c)).

Fixpoint seqOf (f : ascii -> re) (s : string) : re :=
  match s with
  | EmptyString => Eps
  | String c EmptyString => f c
  | String c tl => Seq (f c) (seqOf f tl)
  end.

Definition lit : string -> re := seqOf just.
Definition litCI : string -> re := seqOf justCI.

Fixpoint seqs (l : list re) : re :=
  match l with
  | [] => Eps
  | [r] => r
  | r :: tl => Seq r (seqs tl)
  end.

(** Character classes: [[a-f]] is [cls [span "a" "f"]], [[89ab]] is
    [cls [among "89ab"]]; [clsCI] is the class under the [i] flag. *)
Definition span (a b : ascii) : ascii -> bool :=
  Js.between (Js.code a) (Js.code b).
Definition among (s : string) : ascii -> bool :=
  fun x => existsb (Ascii.eqb x) (chars s).
Definition cls (ps : list (ascii -> bool)) : re :=
  Chr (fun x => existsb (fun p => p x) ps).
Definition clsCI (ps : list (ascii -> bool)) : re :=
  Chr (fun x => existsb (fun p => p (Js.lowerChar x) || p (Js.upperChar x)) ps).
Definition oneOf (s : string) : re := cls [among s].

(** [.], [\s], [\d], [[\s\S]] *)
Definition dot : re := Chr (fun c => negb (Js.isLineEnd c)).
Definition space : re := Chr Js.isWhite.
Definition digit : re := Chr Js.isDigit.
Definition any : re := Chr (fun _ => true).

(** [r?], [r+], [r{n}], [r{n,}], [r{n,m}] (greedy) *)
Definition opt (r : re) : re := Alt r Eps.
Definition plus (r : re) : re := Seq r (Star true r).
Fixpoint times (n : nat) (r : re) : re :=
  match n with
  | O => Eps
  | 1 => r
  | S n' => Seq r (times n' r)
  end.
Fixpoint upTo (n : nat) (r : re) : re :=
  match n with
  | O => Eps
  | S n' => opt (Seq r (upTo n' r))
  end.
Definition atLeast (n : nat) (r : re) : re := Seq (times n r) (Star true r).
Definition range (n m : nat) (r : re) : re := Seq (times n r) (upTo (m - n)%nat r).

End Regex.


(** ** The task-alignment engine ([src/services/taskAlignment.ts]) *)

Module Alignment.

Import Js Db.
Local Open Scope list_scope.

(** *** Data *)

(** One AI-proposed operation: the properties the engine reads.  A property
    that the object does not have reads as [Undefined]. *)
Record Operation : Type := mkOp {
  id : value;
  action : value;
  title : value;
  duration : value;
  importance : value;
  status : value;
  scheduledTime : value
}.

(** One element of [generatedTasks]. *)
Definition Proposed : Type := element Operation.

(** A row of the [tasks] table, which is also an element of
    [existingTasks] ([SELECT * FROM tasks ...]). *)
Record Task : Type := mkTask {
  task_id : string;
  user_id : string;
  task_title : value;
  duration_minutes : value;
  task_importance : value;
  task_status : value;
  scheduled_time : value
}.

(** [newTask], pushed on [insertedTasks]. *)
Record Inserted : Type := mkInserted {
  new_id : string;
  new_title : string;
  new_duration : value;
  new_importance : value;
  new_scheduledTime : value;
  new_status : string
}.

(** The entries of [modifiedTasks]: [{id, title, originalTitle}] on the
    rescue path, [{id, title}] on the direct one. *)
Record Modified : Type := mkModified {
  mod_id : value;
  mod_title : value;
  mod_originalTitle : option value
}.

(** The entries of [deletedTasks]: [{...matchingTask, action: 'delete'}]
    on the rescue path, [{id, title}] on the direct one. *)
Inductive Deleted : Type :=
| DeletedRow (matchingTask : Task)
| DeletedById (id : value) (title : value).

Definition deletedId (d : Deleted) : value :=
  match d with
  | DeletedRow m => Str (task_id m)
  | DeletedById i _ => i
  end.

(** The [{issue, suggestion}] records pushed on [conflicts], one constructor
    per pair of template literals of the source, with the values that the
    templates interpolate. *)
Inductive Conflict : Type :=
| InvalidTitle (task : Operation)
  (** Invalid task title: "<JSON of task>" / Tasks must have a valid title *)
| InvalidDuration (title : string)
  (** Invalid task duration: "<title>" / Tasks must have a valid duration in minutes *)
| SimilarExists (existingTitle : value) (title : string)
  (** Similar task already exists: "<existing title>" /
      Consider updating existing task instead of creating: "<title>" *)
| CreateFailed (title : value)
  (** Failed to create task: "<title>" / Task creation failed due to database error *)
| DeleteWithoutId (task : Operation)
  (** Cannot delete task without ID: "<title or JSON of task>" /
      Skipping deletion due to missing ID *)
| DeleteInvalidUUID (id : value)
  (** Invalid UUID format for deletion: "<id>" /
      Skipping deletion due to invalid UUID format *)
| DeleteNotFound (id : value)
  (** No task found with ID: "<id>" /
      Task may have been already deleted or does not exist *)
| DeleteFailed (id : value)
  (** Failed to delete task with ID: "<id>" / Database error during deletion *)
| ModifyWithoutId (task : Operation)
  (** Cannot modify task without ID: "<title or JSON of task>" /
      Skipping modification due to missing ID *)
| ModifyInvalidUUID (id : value)
  (** Invalid UUID format for modification: "<id>" /
      Skipping modification due to invalid UUID format *)
| ModifyNotFound (id : value)
  (** No task found with ID: "<id>" for modification /
      Task may have been deleted or does not exist *)
| ModifyFailed (id : value)
  (** Failed to modify task with ID: "<id>" / Database error during modification *).

(** The [AlignmentResult]. *)
Record Results : Type := mkResults {
  insertedTasks : list Inserted;
  modifiedTasks : list Modified;
  deletedTasks : list Deleted;
  conflicts : list Conflict
}.

Definition noResults : Results := mkResults [] [] [] [].

(** *** Exceptions and mutable state *)

Definition Store : Type := Db.Store Task.

(** What [alignTasksWithPlan] mutates: the table behind [sql] and its own
    [results] object. *)
Record State : Type := mkState {
  db : Store;
  results : Results
}.

Definition M (A : Type) : Type := State -> outcome A * State.

Definition ret {A} (a : A) : M A := fun st => (Returned a, st).

Definition bind {A B} (c : M A) (k : A -> M B) : M B :=
  fun st =>
    match c st with
    | (Returned a, st') => k a st'
    | (Thrown e, st') => (Thrown e, st')
    end.

Definition throw {A} (e : exn) : M A := fun st => (Thrown e, st).

(** [try { c } catch (e) { h e }]: the handler runs in the state that the
    body left. *)
Definition tryCatch {A} (c : M A) (h : exn -> M A) : M A :=
  fun st =>
    match c st with
    | (Returned a, st') => (Returned a, st')
    | (Thrown e, st') => h e st'
    end.

Definition lift {A} (r : outcome A) : M A := fun st => (r, st).

Declare Scope align_scope.
Delimit Scope align_scope with align.
Notation "x <- c ;; k" := (bind c (fun x => k))
  (at level 61, c at next level, right associativity) : align_scope.
Notation "c ;; k" := (bind c (fun _ => k))
  (at level 61, right associativity) : align_scope.
Local Open Scope align_scope.

Fixpoint forEach {A} (l : list A) (body : A -> M unit) : M unit :=
  match l with
  | [] => ret tt
  | x :: tl => body x ;; forEach tl body
  end.

(** [Array.prototype.filter] and [find] with a callback that can throw. *)
Fixpoint filterE {A} (p : A -> outcome bool) (l : list A) : outcome (list A) :=
  match l with
  | [] => Returned []
  | x :: tl =>
      match p x with
      | Thrown e => Thrown e
      | Returned b =>
          match filterE p tl with
          | Thrown e => Thrown e
          | Returned r => Returned (if b then x :: r else r)
          end
      end
  end.

Fixpoint findE {A} (p : A -> outcome bool) (l : list A) : outcome (option A) :=
  match l with
  | [] => Returned None
  | x :: tl =>
      match p x with
      | Thrown e => Thrown e
      | Returned true => Returned (Some x)
      | Returned false => findE p tl
      end
  end.

(** The four [results.<list>.push(...)]. *)
Definition addInserted (x : Inserted) (r : Results) : Results :=
  mkResults (insertedTasks r ++ [x]) (modifiedTasks r) (deletedTasks r) (conflicts r).
Definition addModified (x : Modified) (r : Results) : Results :=
  mkResults (insertedTasks r) (modifiedTasks r ++ [x]) (deletedTasks r) (conflicts r).
Definition addDeleted (x : Deleted) (r : Results) : Results :=
  mkResults (insertedTasks r) (modifiedTasks r) (deletedTasks r ++ [x]) (conflicts r).
Definition addConflict (x : Conflict) (r : Results) : Results :=
  mkResults (insertedTasks r) (modifiedTasks r) (deletedTasks r) (conflicts r ++ [x]).

Definition push (add : Results -> Results) : M unit :=
  fun st => (Returned tt, mkState (db st) (add (results st))).

Definition pushInserted (x : Inserted) : M unit := push (addInserted x).
Definition pushModified (x : Modified) : M unit := push (addModified x).
Definition pushDeleted (x : Deleted) : M unit := push (addDeleted x).
Definition pushConflict (x : Conflict) : M unit := push (addConflict x).

(** [await sql.query(...)] *)
Definition query {A} (sql : Client) (stmt : nat -> list Task -> A * list Task)
  : M A :=
  fun st =>
    let (r, db') := Db.query sql stmt (db st) in
    (r, mkState db' (results st)).

(** *** The statements sent to the store *)

(** [WHERE id = $1 AND user_id = $2] *)
Definition addressed (idParam : value) (userId : string) (r : Task) : bool :=
  isStr idParam (task_id r) && (user_id r =? userId).

(** [COALESCE($n, column)] *)
Definition coalesce (param column : value) : value :=
  match param with
  | Null | Undefined => column
  | _ => param
  end.

(** [INSERT INTO tasks (user_id, title, duration_minutes, importance,
    status, scheduled_time, task_date) VALUES ($1, ..., $6, CURRENT_DATE)
    RETURNING id] *)
Definition insertTask (sql : Client) (userId : string)
           (ttl dur imp st sched : value)
  : nat -> list Task -> string * list Task :=
  fun n tbl =>
    let i := newId sql n in
    (i, tbl ++ [mkTask i userId ttl dur imp st sched]).

(** [DELETE FROM tasks WHERE id = $1 AND user_id = $2 RETURNING id, title]
    (the rescue path sends it without [RETURNING] and ignores the reply). *)
Definition deleteTask (idParam : value) (userId : string)
  : nat -> list Task -> list Task * list Task :=
  fun _ tbl =>
    (filter (addressed idParam userId) tbl,
     filter (fun r => negb (addressed idParam userId r)) tbl).

(** [UPDATE tasks SET title = $1, duration_minutes = $2, importance = $3,
    status = $4, scheduled_time = $5 WHERE id = $6 AND user_id = $7] *)
Definition updateTaskSet (ttl dur imp st sched : value)
           (idParam : value) (userId : string)
  : nat -> list Task -> unit * list Task :=
  fun _ tbl =>
    (tt, map (fun r =>
                if addressed idParam userId r
                then mkTask (task_id r) (user_id r) ttl dur imp st sched
                else r) tbl).

(** [UPDATE tasks SET title = COALESCE($1, title),
    duration_minutes = COALESCE($2, duration_minutes),
    importance = COALESCE($3, importance), status = COALESCE($4, status),
    scheduled_time = $5 WHERE id = $6 AND user_id = $7 RETURNING id, title] *)
Definition updateOne (ttl dur imp st sched : value) (r : Task) : Task :=
  mkTask (task_id r) (user_id r)
         (coalesce ttl (task_title r))
         (coalesce dur (duration_minutes r))
         (coalesce imp (task_importance r))
         (coalesce st (task_status r))
         sched.

Definition updateTaskCoalesce (ttl dur imp st sched : value)
           (idParam : value) (userId : string)
  : nat -> list Task -> list Task * list Task :=
  fun _ tbl =>
    (map (updateOne ttl dur imp st sched) (filter (addressed idParam userId) tbl),
     map (fun r =>
            if addressed idParam userId r
            then updateOne ttl dur imp st sched r
            else r) tbl).

(** *** [isValidUUID] *)

(** [/^[0-9a-f]{8}-[0-9a-f]{4}-[1-5][0-9a-f]{3}-[89ab][0-9a-f]{3}-[0-9a-f]{12}$/i] *)
Definition uuidRe : Regex.re :=
  let hex := Regex.clsCI [Regex.span "0" "9"; Regex.span "a" "f"] in
  Regex.seqs
    [Regex.Bol;
     Regex.times 8 hex; Regex.just "-";
     Regex.times 4 hex; Regex.just "-";
     Regex.clsCI [Regex.span "1" "5"]; Regex.times 3 hex; Regex.just "-";
     Regex.clsCI [Regex.among "89ab"]; Regex.times 3 hex; Regex.just "-";
     Regex.times 12 hex;
     Regex.Eol].

Definition isValidUUID (i : value) : bool :=
  if negb (truthy i) then false
  else match i with
       | Str s => Regex.test false uuidRe s
       | _ => false
       end.

(** *** [alignTasksWithPlan] *)

Section Engine.

Variable sql : Client.
Variable userId : string.
Variable existingTasks : list Task.

(** [v.toLowerCase()] on a loosely typed [v]: a [TypeError] unless [v] is
    a string. *)
Definition lowerOf (v : value) : outcome string :=
  match v with
  | Str s => Returned (toLowerCase s)
  | _ => Thrown TypeError
  end.

(** The callbacks of the three filters over [generatedTasks], on an
    object. *)
Definition createShaped (task : Operation) : bool :=
  (negb (truthy (id task)) && negb (truthy (action task)))
  || isStr (action task) "add"
  || isStr (action task) "create".

Definition deleteShaped (task : Operation) : bool :=
  isStr (action task) "delete"
  || isStr (action task) "remove"
  || isStr (action task) "completed".

Definition modifyShaped (task : Operation) : bool :=
  isStr (action task) "modify"
  || isStr (action task) "update"
  || isStr (action task) "change".

(** A callback that reads properties of its argument, on an element. *)
Definition reading (callback : Operation -> bool) (p : Proposed) : outcome bool :=
  match p with
  | Nullish => Thrown TypeError
  | Object task => Returned (callback task)
  end.

Definition isAdd : Proposed -> outcome bool := reading createShaped.
Definition isDelete : Proposed -> outcome bool := reading deleteShaped.
Definition isModify : Proposed -> outcome bool := reading modifyShaped.

(** The elements that pass a filter are objects. *)
Definition operationOf (p : Proposed) : Operation :=
  match p with
  | Object task => task
  | Nullish => mkOp Undefined Undefined Undefined Undefined Undefined Undefined Undefined
  end.

(** [!task.title || typeof task.title !== 'string' || !task.title.trim()]
    is false: the title, a string. *)
Definition validTitle (v : value) : option string :=
  match v with
  | Str s =>
      if negb (truthy v) || negb (isString v) || negb (truthy (Str (trim s)))
      then None else Some s
  | _ => None
  end.

(** [!task.duration || typeof task.duration !== 'number' ||
    task.duration <= 0] is false: the duration, a number. *)
Definition validDuration (v : value) : option Z :=
  match v with
  | Num n =>
      if negb (truthy v) || negb (isNumber v) || (n <=? 0)%Z
      then None else Some n
  | _ => None
  end.

(** The callback of the similar-title [find] of the create pass. *)
Definition similarTo (ttl : string) (existing : Task) : outcome bool :=
  match lowerOf (task_title existing) with
  | Thrown e => Thrown e
  | Returned low =>
      Returned (includes low (substring0 20 (toLowerCase ttl))
                || includes (toLowerCase ttl) (substring0 20 low))
  end.

(** The callback of the rescue [find] of the delete and modify passes:
    [t.title.toLowerCase() === (task.title || '').toLowerCase()]. *)
Definition sameTitle (task : Operation) (t : Task) : outcome bool :=
  match lowerOf (task_title t) with
  | Thrown e => Thrown e
  | Returned low =>
      match lowerOf (or (title task) (Str "")) with
      | Thrown e => Thrown e
      | Returned wanted => Returned (low =? wanted)
      end
  end.

(** The body of the [try] of the create loop. *)
Definition createBody (task : Operation) : M unit :=
  match validTitle (title task) with
  | None => pushConflict (InvalidTitle task)
  | Some ttl =>
      match validDuration (duration task) with
      | None => pushConflict (InvalidDuration ttl)
      | Some _ =>
          existingTask <- lift (findE (similarTo ttl) existingTasks) ;;
          match existingTask with
          | Some existing =>
              pushConflict (SimilarExists (task_title existing) ttl)
          | None =>
              newId <- query sql
                (insertTask sql userId
                   (Str (trim ttl))
                   (or (duration task) (Num 30))
                   (or (importance task) (Str "medium"))
                   (Str "todo")
                   (or (scheduledTime task) Null)) ;;
              pushInserted
                (mkInserted newId (trim ttl)
                   (or (duration task) (Num 30))
                   (or (importance task) (Str "medium"))
                   (or (scheduledTime task) Null)
                   "todo")
          end
      end
  end.

Definition createItem (task : Operation) : M unit :=
  tryCatch (createBody task)
           (fun _ => pushConflict (CreateFailed (title task))).

(** The inner [try] of the delete loop: the rescue by title. *)
Definition deleteRescue (task : Operation) : M unit :=
  tryCatch
    (matchingTask <- lift (findE (sameTitle task) existingTasks) ;;
     match matchingTask with
     | Some m =>
         if isValidUUID (Str (task_id m))
         then query sql (deleteTask (Str (task_id m)) userId) ;;
              pushDeleted (DeletedRow m)
         else ret tt
     | None => ret tt
     end)
    (fun _ => ret tt).

(** The body of the [try] of the delete loop. *)
Definition deleteBody (task : Operation) : M unit :=
  if negb (truthy (id task))
  then pushConflict (DeleteWithoutId task)
  else if negb (isValidUUID (id task))
  then pushConflict (DeleteInvalidUUID (id task)) ;;
       deleteRescue task
  else
    deleted <- query sql (deleteTask (id task) userId) ;;
    match deleted with
    | [] => pushConflict (DeleteNotFound (id task))
    | first :: _ =>
        pushDeleted
          (DeletedById (id task)
             (or (task_title first)
                 (or (title task)
                     (Str ("Task " ++ toString (id task))%string))))
    end.

Definition deleteItem (task : Operation) : M unit :=
  tryCatch (deleteBody task)
           (fun _ => pushConflict (DeleteFailed (id task))).

(** The inner [try] of the modify loop: the rescue by title. *)
Definition modifyRescue (task : Operation) : M unit :=
  tryCatch
    (matchingTask <- lift (findE (sameTitle task) existingTasks) ;;
     match matchingTask with
     | Some m =>
         if isValidUUID (Str (task_id m))
         then query sql
                (updateTaskSet
                   (or (title task) (task_title m))
                   (or (duration task) (duration_minutes m))
                   (or (importance task) (task_importance m))
                   (or (status task) (task_status m))
                   (or (scheduledTime task) (scheduled_time m))
                   (Str (task_id m)) userId) ;;
              pushModified
                (mkModified (Str (task_id m))
                            (or (title task) (task_title m))
                            (Some (task_title m)))
         else ret tt
     | None => ret tt
     end)
    (fun _ => ret tt).

(** The body of the [try] of the modify loop. *)
Definition modifyBody (task : Operation) : M unit :=
  if negb (truthy (id task))
  then pushConflict (ModifyWithoutId task)
  else if negb (isValidUUID (id task))
  then pushConflict (ModifyInvalidUUID (id task)) ;;
       modifyRescue task
  else
    updated <- query sql
      (updateTaskCoalesce
         (or (title task) Null)
         (or (duration task) Null)
         (or (importance task) Null)
         (or (status task) Null)
         (or (scheduledTime task) Null)
         (id task) userId) ;;
    match updated with
    | [] => pushConflict (ModifyNotFound (id task))
    | first :: _ =>
        pushModified
          (mkModified (id task) (or (title task) (task_title first)) None)
    end.

Definition modifyItem (task : Operation) : M unit :=
  tryCatch (modifyBody task)
           (fun _ => pushConflict (ModifyFailed (id task))).

(** One pass: the filter, outside every inner [try], then the loop. *)
Definition pass (selects : Proposed -> outcome bool)
           (item : Operation -> M unit)
           (generatedTasks : list Proposed) : M unit :=
  selected <- lift (filterE selects generatedTasks) ;;
  forEach (map operationOf selected) item.

Definition getResults : M Results := fun st => (Returned (results st), st).

(** The body of the function, in its outer [try]; [currentPlan] is not
    read. *)
Definition alignBody (generatedTasks : list Proposed) : M Results :=
  pass isAdd createItem generatedTasks ;;
  pass isDelete deleteItem generatedTasks ;;
  pass isModify modifyItem generatedTasks ;;
  getResults.

Definition alignM (generatedTasks : list Proposed) : M Results :=
  tryCatch (alignBody generatedTasks) (fun _ => getResults).

End Engine.

(** The call: [results] starts empty; the outcome comes with the store as
    the call left it. *)
Definition alignTasksWithPlan (sql : Client) (userId : string)
           (generatedTasks : list Proposed) (existingTasks : list Task)
           (currentPlan : value) (store : Store)
  : outcome Results * Store :=
  let (r, st) :=
    alignM sql userId existingTasks generatedTasks (mkState store noResults) in
  (r, db st).

(** *** What the processing of one item can do

    The step relations of the three loops: each constructor is one way
    through the body of a loop, with the state it leaves. *)

Definition touched (st : State) (tbl : list Task) : Store :=
  Db.mkStore tbl (S (issued (db st))).

Inductive CreateEffect (sql : Client) (userId : string)
          (task : Operation) (st : State) : State -> Prop :=
| CreateRejected (c : Conflict) :
    CreateEffect sql userId task st
      (mkState (db st) (addConflict c (results st)))
| CreateFaulted :
    fails sql (issued (db st)) = true ->
    CreateEffect sql userId task st
      (mkState (touched st (rows (db st)))
               (addConflict (CreateFailed (title task)) (results st)))
| CreateDone (ttl : string) (n : Z) :
    validTitle (title task) = Some ttl ->
    validDuration (duration task) = Some n ->
    fails sql (issued (db st)) = false ->
    CreateEffect sql userId task st
      (mkState
         (touched st
            (rows (db st)
             ++ [mkTask (newId sql (issued (db st))) userId
                        (Str (trim ttl))
                        (or (duration task) (Num 30))
                        (or (importance task) (Str "medium"))
                        (Str "todo")
                        (or (scheduledTime task) Null)]))
         (addInserted
            (mkInserted (newId sql (issued (db st))) (trim ttl)
                        (or (duration task) (Num 30))
                        (or (importance task) (Str "medium"))
                        (or (scheduledTime task) Null)
                        "todo")
            (results st))).

Inductive DeleteEffect (sql : Client) (userId : string)
          (existingTasks : list Task)
          (task : Operation) (st : State) : State -> Prop :=
| DeleteRejected (c : Conflict) :
    DeleteEffect sql userId existingTasks task st
      (mkState (db st) (addConflict c (results st)))
| DeleteRescueFaulted :
    fails sql (issued (db st)) = true ->
    DeleteEffect sql userId existingTasks task st
      (mkState (touched st (rows (db st)))
               (addConflict (DeleteInvalidUUID (id task)) (results st)))
| DeleteRescued (m : Task) :
    findE (sameTitle task) existingTasks = Returned (Some m) ->
    isValidUUID (Str (task_id m)) = true ->
    fails sql (issued (db st)) = false ->
    DeleteEffect sql userId existingTasks task st
      (mkState
         (touched st
            (filter (fun r => negb (addressed (Str (task_id m)) userId r))
                    (rows (db st))))
         (addDeleted (DeletedRow m)
                     (addConflict (DeleteInvalidUUID (id task)) (results st))))
| DeleteFaulted :
    fails sql (issued (db st)) = true ->
    DeleteEffect sql userId existingTasks task st
      (mkState (touched st (rows (db st)))
               (addConflict (DeleteFailed (id task)) (results st)))
| DeleteMissed :
    isValidUUID (id task) = true ->
    fails sql (issued (db st)) = false ->
    filter (addressed (id task) userId) (rows (db st)) = [] ->
    DeleteEffect sql userId existingTasks task st
      (mkState
         (touched st
            (filter (fun r => negb (addressed (id task) userId r)) (rows (db st))))
         (addConflict (DeleteNotFound (id task)) (results st)))
| DeleteDone (first : Task) (others : list Task) :
    isValidUUID (id task) = true ->
    fails sql (issued (db st)) = false ->
    filter (addressed (id task) userId) (rows (db st)) = first :: others ->
    DeleteEffect sql userId existingTasks task st
      (mkState
         (touched st
            (filter (fun r => negb (addressed (id task) userId r)) (rows (db st))))
         (addDeleted
            (DeletedById (id task)
               (or (task_title first)
                   (or (title task) (Str ("Task " ++ toString (id task))%string))))
            (results st))).

(** The rows after the two [UPDATE]s. *)
Definition rescuedRows (userId : string) (task : Operation) (m : Task)
           (tbl : list Task) : list Task :=
  snd (updateTaskSet (or (title task) (task_title m))
                     (or (duration task) (duration_minutes m))
                     (or (importance task) (task_importance m))
                     (or (status task) (task_status m))
                     (or (scheduledTime task) (scheduled_time m))
                     (Str (task_id m)) userId 0 tbl).

Definition coalescedRows (userId : string) (task : Operation)
           (tbl : list Task) : list Task * list Task :=
  updateTaskCoalesce (or (title task) Null) (or (duration task) Null)
                     (or (importance task) Null) (or (status task) Null)
                     (or (scheduledTime task) Null)
                     (id task) userId 0 tbl.

Inductive ModifyEffect (sql : Client) (userId : string)
          (existingTasks : list Task)
          (task : Operation) (st : State) : State -> Prop :=
| ModifyRejected (c : Conflict) :
    ModifyEffect sql userId existingTasks task st
      (mkState (db st) (addConflict c (results st)))
| ModifyRescueFaulted :
    fails sql (issued (db st)) = true ->
    ModifyEffect sql userId existingTasks task st
      (mkState (touched st (rows (db st)))
               (addConflict (ModifyInvalidUUID (id task)) (results st)))
| ModifyRescued (m : Task) :
    findE (sameTitle task) existingTasks = Returned (Some m) ->
    isValidUUID (Str (task_id m)) = true ->
    fails sql (issued (db st)) = false ->
    ModifyEffect sql userId existingTasks task st
      (mkState
         (touched st (rescuedRows userId task m (rows (db st))))
         (addModified
            (mkModified (Str (task_id m)) (or (title task) (task_title m))
                        (Some (task_title m)))
            (addConflict (ModifyInvalidUUID (id task)) (results st))))
| ModifyFaulted :
    fails sql (issued (db st)) = true ->
    ModifyEffect sql userId existingTasks task st
      (mkState (touched st (rows (db st)))
               (addConflict (ModifyFailed (id task)) (results st)))
| ModifyMissed :
    isValidUUID (id task) = true ->
    fails sql (issued (db st)) = false ->
    fst (coalescedRows userId task (rows (db st))) = [] ->
    ModifyEffect sql userId existingTasks task st
      (mkState (touched st (snd (coalescedRows userId task (rows (db st)))))
               (addConflict (ModifyNotFound (id task)) (results st)))
| ModifyDone (first : Task) (others : list Task) :
    isValidUUID (id task) = true ->
    fails sql (issued (db st)) = false ->
    fst (coalescedRows userId task (rows (db st))) = first :: others ->
    ModifyEffect sql userId existingTasks task st
      (mkState (touched st (snd (coalescedRows userId task (rows (db st)))))
               (addModified
                  (mkModified (id task) (or (title task) (task_title first)) None)
                  (results st))).

(** The number of records of a result, over its four lists. *)
Definition records (r : Results) : nat :=
  (List.length (insertedTasks r) + List.length (modifiedTasks r)
   + List.length (deletedTasks r) + List.length (conflicts r))%nat.

(** [results] only grows. *)
Definition keeps (st st' : State) : Prop :=
  incl (insertedTasks (results st)) (insertedTasks (results st'))
  /\ incl (modifiedTasks (results st)) (modifiedTasks (results st'))
  /\ incl (deletedTasks (results st)) (deletedTasks (results st'))
  /\ incl (conflicts (results st)) (conflicts (results st')).

(** No row of the table is addressed by [(idParam, userId)]. *)
Definition absent (idParam : value) (userId : string) (tbl : list Task) : Prop :=
  forall r, In r tbl -> addressed idParam userId r = false.

(** The state after the three loops on a batch of objects, each loop a fold
    of its item over every operation its filter selects. *)
Definition afterLoops (sql : Client) (userId : string)
           (existingTasks : list Task) (ops : list Operation) (st : State)
  : State :=
  let run item := fun s x => snd (item x s) in
  let st1 := fold_left (run (createItem sql userId existingTasks))
                       (filter createShaped ops) st in
  let st2 := fold_left (run (deleteItem sql userId existingTasks))
                       (filter deleteShaped ops) st1 in
  fold_left (run (modifyItem sql userId existingTasks))
            (filter modifyShaped ops) st2.

(** A title that is missing or blank: not a text with a character other
    than white space.  A duration that is missing or not positive: not a
    number above zero. *)
Definition missingOrBlank (v : value) : Prop :=
  forall s, v = Str s -> trim s = "".

Definition missingOrNonPositive (v : value) : Prop :=
  forall n, v = Num n -> (n <= 0)%Z.

(** The title of an existing task is, or is not, the text [t] up to the case
    of the letters; both say that the title is a text. *)
Definition titled (t : string) (x : Task) : Prop :=
  exists xt, task_title x = Str xt /\ toLowerCase xt = toLowerCase t.

Definition otherwiseTitled (t : string) (x : Task) : Prop :=
  exists xt, task_title x = Str xt /\ toLowerCase xt <> toLowerCase t.

(** [r'] is [r] with the conflict [c] pushed, and nothing else. *)
Definition conflictAdded (c : Conflict) (r r' : Results) : Prop :=
  conflicts r' = conflicts r ++ [c]
  /\ insertedTasks r' = insertedTasks r
  /\ modifiedTasks r' = modifiedTasks r
  /\ deletedTasks r' = deletedTasks r.

(** A result accounts for an operation of each shape: it has a record that
    names the operation, in one of the three lists or in [conflicts]. *)
Definition createAccounted (task : Operation) (res : Results) : Prop :=
  In (InvalidTitle task) (conflicts res)
  \/ In (CreateFailed (title task)) (conflicts res)
  \/ exists ttl,
      title task = Str ttl
      /\ (In (InvalidDuration ttl) (conflicts res)
          \/ (exists existing, In (SimilarExists existing ttl) (conflicts res))
          \/ (exists x, In x (insertedTasks res) /\ new_title x = trim ttl)).

Definition deleteAccounted (task : Operation) (res : Results) : Prop :=
  In (DeleteWithoutId task) (conflicts res)
  \/ In (DeleteInvalidUUID (id task)) (conflicts res)
  \/ In (DeleteNotFound (id task)) (conflicts res)
  \/ In (DeleteFailed (id task)) (conflicts res)
  \/ exists d, In d (deletedTasks res) /\ deletedId d = id task.

Definition modifyAccounted (task : Operation) (res : Results) : Prop :=
  In (ModifyWithoutId task) (conflicts res)
  \/ In (ModifyInvalidUUID (id task)) (conflicts res)
  \/ In (ModifyNotFound (id task)) (conflicts res)
  \/ In (ModifyFailed (id task)) (conflicts res)
  \/ exists m, In m (modifiedTasks res) /\ mod_id m = id task.

(** The state after the create pass on a batch of objects: the first of
    the three loops of [afterLoops]. *)
Definition createPass (sql : Client) (userId : string)
           (existingTasks : list Task) (ops : list Operation) (st : State)
  : State :=
  fold_left (fun s x => snd (createItem sql userId existingTasks x s))
            (filter createShaped ops) st.

(** The create loop goes as far as its [INSERT] for an operation: the title
    and the duration are valid, and the lookup among the existing tasks
    (which the call never changes) finds no similar one. *)
Definition insertable (existingTasks : list Task) (task : Operation) : bool :=
  match validTitle (title task), validDuration (duration task) with
  | Some ttl, Some _ =>
      match findE (similarTo ttl) existingTasks with
      | Returned None => true
      | _ => false
      end
  | _, _ => false
  end.

(** The record [x] of [insertedTasks] was made from the operation [task]:
    it has the title of the operation, trimmed, and its duration, which is
    a number above zero, as the operation proposed it. *)
Definition insertedFrom (task : Operation) (x : Inserted) : Prop :=
  exists ttl n,
    title task = Str ttl /\ duration task = Num n /\ (0 < n)%Z
    /\ new_title x = trim ttl /\ new_duration x = Num n.

(** The row that the [INSERT] of the create pass writes for the record [x]
    of [insertedTasks]. *)
Definition rowOf (userId : string) (x : Inserted) : Task :=
  mkTask (new_id x) userId (Str (new_title x)) (new_duration x)
         (new_importance x) (Str "todo") (new_scheduledTime x).

End Alignment.

(** ** The AI utilities ([src/utils/ai.ts]) *)

Module Ai.

Import Js.
Local Open Scope list_scope.

(** *** Model configuration *)

Record ModelConfig : Type := mkModel {
  name : string;
  endpoint : string;
  strengths : list string;
  maxTokens : Z;
  costTier : string;
  reliability : string;
  specialization : option string
}.

Definition AI_MODELS : list (string * ModelConfig) :=
  [ ("mistral-medium-2505",
     mkModel "Mistral Medium 3" "mistral-medium-2505"
             ["complex-reasoning"; "multimodal"; "frontier-tasks"]
             128000 "high" "high" (Some "complex-planning"));
    ("magistral-medium-2506",
     mkModel "Magistral Medium" "magistral-medium-2506"
             ["reasoning"; "logic"; "problem-solving"]
             40000 "high" "high" (Some "voice-extraction"));
    ("mistral-large-2411",
     mkModel "Mistral Large 2.1" "mistral-large-2411"
             ["complex-tasks"; "high-quality"; "reliable"]
             128000 "high" "high" (Some "schedule-planning"));
    ("mistral-small-2506",
     mkModel "Mistral Small 3.2" "mistral-small-2506"
             ["general-tasks"; "cost-effective"; "fast"]
             128000 "low" "high" (Some "task-generation"));
    ("magistral-small-2506",
     mkModel "Magistral Small" "magistral-small-2506"
             ["reasoning"; "structured-output"; "reliable"]
             40000 "medium" "high" (Some "voice-extraction-fallback"));
    ("codestral-2501",
     mkModel "Codestral 2" "codestral-2501"
             ["coding"; "structured-data"; "fill-in-middle"]
             256000 "medium" "high" (Some "json-generation"));
    ("ministral-8b-2410",
     mkModel "Ministral 8B" "ministral-8b-2410"
             ["speed"; "efficiency"; "edge-computing"]
             128000 "low" "medium" (Some "quick-tasks"));
    ("ministral-3b-2410",
     mkModel "Ministral 3B" "ministral-3b-2410"
             ["ultra-fast"; "edge"; "simple-tasks"]
             128000 "low" "medium" (Some "emergency-fallback"));
    ("mistral-large-latest",
     mkModel "Mistral Large (Legacy)" "mistral-large-latest"
             ["complex-tasks"; "reliable"]
             128000 "high" "medium" (Some "legacy-fallback"));
    ("mistral-small-latest",
     mkModel "Mistral Small (Legacy)" "mistral-small-latest"
             ["general-tasks"; "cost-effective"]
             32000 "medium" "medium" (Some "legacy-fallback")) ].

Definition TASK_MODEL_PRIORITIES : list (string * list string) :=
  [ ("voice-extraction",
     ["magistral-medium-2506"; "magistral-small-2506"; "mistral-large-2411";
      "mistral-small-2506"; "ministral-8b-2410"; "mistral-large-latest"]);
    ("schedule-planning",
     ["mistral-medium-2505"; "mistral-large-2411"; "magistral-medium-2506";
      "mistral-small-2506"; "magistral-small-2506"; "mistral-small-latest"]);
    ("task-generation",
     ["mistral-small-2506"; "magistral-small-2506"; "mistral-large-2411";
      "ministral-8b-2410"; "ministral-3b-2410"; "mistral-small-latest"]);
    ("json-parsing",
     ["codestral-2501"; "magistral-small-2506"; "mistral-small-2506";
      "ministral-8b-2410"; "ministral-3b-2410"]) ].

(** [table[key]] on an object used as a table. *)
Fixpoint lookup {A} (key : string) (table : list (string * A)) : option A :=
  match table with
  | [] => None
  | (k, v) :: tl => if k =? key then Some v else lookup key tl
  end.

(** *** [cleanAIResponse] *)

Definition fallback : string :=
  "I'd be happy to help with your question! Could you provide more details so I can give you better advice?".

Definition nl : ascii := ascii_of_nat 10.

(** [/<tag>[\s\S]*?<\/tag>/gi] *)
Definition tagged (tag : string) : Regex.re :=
  Regex.seqs [Regex.litCI ("<" ++ tag ++ ">")%string;
              Regex.Star false Regex.any;
              Regex.litCI ("</" ++ tag ++ ">")%string].

(** [/^[Xx]word:[\s\S]*?\n\n/gm] *)
Definition labelled (initials : string) (word : string) : Regex.re :=
  Regex.seqs [Regex.Bol; Regex.oneOf initials; Regex.lit (word ++ ":")%string;
              Regex.Star false Regex.any;
              Regex.just nl; Regex.just nl].

(** [/mark(.*?)mark/g] *)
Definition emphasis (mark : string) : Regex.re :=
  Regex.seqs [Regex.lit mark;
              Regex.Group 1 (Regex.Star false Regex.dot);
              Regex.lit mark].

(** [/#{1,6}\s*/g] *)
Definition headerRe : Regex.re :=
  Regex.Seq (Regex.range 1 6 (Regex.just "#")) (Regex.Star true Regex.space).

(** [/^\s*[-*+]\s*/gm] *)
Definition listItemRe : Regex.re :=
  Regex.seqs [Regex.Bol; Regex.Star true Regex.space; Regex.oneOf "-*+";
              Regex.Star true Regex.space].

(** [/^\s*\d+\.\s*/gm] *)
Definition numberedRe : Regex.re :=
  Regex.seqs [Regex.Bol; Regex.Star true Regex.space; Regex.plus Regex.digit;
              Regex.just "."; Regex.Star true Regex.space].

(** [/\n{3,}/g] *)
Definition blankLinesRe : Regex.re := Regex.atLeast 3 (Regex.just nl).

(** [/^\s+|\s+$/g] *)
Definition edgesRe : Regex.re :=
  Regex.Alt (Regex.Seq Regex.Bol (Regex.plus Regex.space))
            (Regex.Seq (Regex.plus Regex.space) Regex.Eol).

(** [/[.!?]+/] *)
Definition sentenceEndRe : Regex.re := Regex.plus (Regex.oneOf ".!?").

Definition remove (multiline : bool) (r : Regex.re) : string -> string :=
  Regex.replaceAll multiline r (fun _ => []).
(** replacement ['$1'] *)
Definition keepGroup1 (r : Regex.re) : string -> string :=
  Regex.replaceAll false r (Regex.group 1).
(** replacement ['• '] *)
Definition toBullet (r : Regex.re) : string -> string :=
  Regex.replaceAll true r (fun _ => [bullet; " "%char]).

(** The replacements of [cleanAIResponse], in the order of the source. *)
Definition strip (rawResponse : string) : string :=
  let cleaned := trim rawResponse in
  let cleaned := remove false (tagged "think") cleaned in
  let cleaned := remove false (tagged "debug") cleaned in
  let cleaned := remove false (tagged "reasoning") cleaned in
  let cleaned := remove false (tagged "analysis") cleaned in
  let cleaned := remove true (labelled "Tt" "hinking") cleaned in
  let cleaned := remove true (labelled "Dd" "ebug") cleaned in
  let cleaned := remove true (labelled "Aa" "nalysis") cleaned in
  let cleaned := keepGroup1 (emphasis "**") cleaned in
  let cleaned := keepGroup1 (emphasis "*") cleaned in
  let cleaned := keepGroup1 (emphasis "__") cleaned in
  let cleaned := keepGroup1 (emphasis "`") cleaned in
  let cleaned := remove false headerRe cleaned in
  let cleaned := toBullet listItemRe cleaned in
  let cleaned := toBullet numberedRe cleaned in
  let cleaned :=
    Regex.replaceAll false blankLinesRe (fun _ => [nl; nl]) cleaned in
  remove false edgesRe cleaned.

(** The loop over the sentences: it stops at the first sentence that would
    take [result] past 800 characters. *)
Fixpoint takeSentences (sentences : list string) (result : string) : string :=
  match sentences with
  | [] => result
  | sentence :: tl =>
      if (800 <? String.length (result ++ sentence)%string)%nat
      then result
      else takeSentences tl (result ++ trim sentence ++ ". ")%string
  end.

Definition truncate (cleaned : string) : string :=
  if (1000 <? String.length cleaned)%nat
  then trim (takeSentences (Regex.split false sentenceEndRe cleaned) "")
  else cleaned.

Definition cleanAIResponse (rawResponse : value) : string :=
  match rawResponse with
  | Str raw =>
      if negb (truthy rawResponse) then fallback
      else
        let cleaned := strip raw in
        if negb (truthy (Str cleaned)) || (String.length cleaned <? 10)%nat
        then fallback
        else truncate cleaned
  | _ => fallback
  end.

(** *** [callOptimalAI] *)

Record Message : Type := mkMessage {
  role : string;
  content : string
}.

(** [options]; [temperature] and [topP] are rationals. *)
Record Options : Type := mkOptions {
  temperature : option Q;
  optMaxTokens : option Z;
  topP : option Q;
  urgency : option string
}.

(** The JSON body of the request. *)
Record Request : Type := mkRequest {
  req_model : string;
  req_messages : list Message;
  req_temperature : Q;
  req_max_tokens : Z;
  req_top_p : Q;
  req_stream : bool
}.

(** [x || d] on an optional number *)
Definition orQ (x : option Q) (d : Q) : Q :=
  match x with
  | Some q => if Qeq_bool q 0 then d else q
  | None => d
  end.
Definition orZ (x : option Z) (d : Z) : Z :=
  match x with
  | Some z => if (z =? 0)%Z then d else z
  | None => d
  end.

Section Router.

(** The payload of a successful completion ([any] in the source). *)
Variable Data : Type.

(** What one [fetch] of the completion endpoint does: it rejects with an
    error, or resolves to a response whose [text()] and [json()] each
    give a value or throw an error.  Errors are given by their
    [message]. *)
Inductive Reply : Type :=
| Rejected (message : string)
| Responded (ok : bool) (status : Z)
            (text : string + string) (json : string + Data).

(** The backend: the reply to the [n]-th request of this call. *)
Variable fetch : nat -> Request -> Reply.

Record Completion : Type := mkCompletion {
  response : Data;
  modelUsed : string;
  attemptCount : nat
}.

(** The body of the [try] for one model: the error message caught, or
    the payload. *)
Definition attempt (n : nat) (model : ModelConfig)
           (messages : list Message) (options : Options) : string + Data :=
  match fetch n (mkRequest (endpoint model) messages
                           (orQ (temperature options) (7 # 10))
                           (Z.min (orZ (optMaxTokens options) 1000)
                                  (maxTokens model))
                           (orQ (topP options) (9 # 10))
                           false) with
  | Rejected message => inl message
  | Responded ok status text json =>
      if negb ok
      then match text with
           | inl message => inl message
           | inr errorText =>
               inl ("HTTP " ++ decimal status ++ ": " ++ errorText)%string
           end
      else json
  end.

(** The test of the [catch] block; both of its branches go on with the
    next model. *)
Definition isTransient (message : string) : bool :=
  includes message "rate limit" || includes message "429"
  || includes message "503" || includes message "502".

Definition exhausted (attemptCount : nat) (lastError : option string) : string :=
  ("All AI models failed after " ++ decimal (Z.of_nat attemptCount)
   ++ " attempts. Last error: "
   ++ match lastError with
      | Some message => if message =? "" then "Unknown error" else message
      | None => "Unknown error"
      end)%string.

(** The loop over [priorityModels]: [attemptCount] and [lastError] are
    the variables of the source, [requests] counts the requests sent.
    The result is the message of the error thrown or the completion. *)
Fixpoint tryModels (priorityModels : list string)
         (messages : list Message) (options : Options)
         (attemptCount : nat) (lastError : option string) (requests : nat)
  : string + Completion :=
  match priorityModels with
  | [] => inl (exhausted attemptCount lastError)
  | modelKey :: others =>
      let attemptCount := S attemptCount in
      match lookup modelKey AI_MODELS with
      | None => tryModels others messages options attemptCount lastError requests
      | Some model =>
          match attempt requests model messages options with
          | inr data =>
              inr (mkCompletion
                     data
                     (name model ++ " (" ++ endpoint model ++ ")")%string
                     attemptCount)
          | inl message =>
              if isTransient message
              then tryModels others messages options attemptCount
                             (Some message) (S requests)
              else tryModels others messages options attemptCount
                             (Some message) (S requests)
          end
      end
  end.

(** The [j]-th model of the list is configured and its request, the
    [first + j]-th of the call, failed. *)
Definition failedAt (messages : list Message) (options : Options)
           (models : list string) (first : nat) (j : nat) : Prop :=
  exists key model message,
    nth_error models j = Some key
    /\ lookup key AI_MODELS = Some model
    /\ attempt (first + j) model messages options = inl message.

(** [TASK_MODEL_PRIORITIES[taskType] || TASK_MODEL_PRIORITIES['task-generation']] *)
Definition prioritiesOf (taskType : string) : list string :=
  match lookup taskType TASK_MODEL_PRIORITIES with
  | Some l => l
  | None =>
      match lookup "task-generation" TASK_MODEL_PRIORITIES with
      | Some l => l
      | None => []
      end
  end.

Definition callOptimalAI (messages : list Message) (taskType : string)
           (options : Options) : string + Completion :=
  tryModels (prioritiesOf taskType) messages options 0 None 0.

End Router.

Arguments Rejected {Data} message.
Arguments Responded {Data} ok status text json.
Arguments response {Data} c.
Arguments modelUsed {Data} c.
Arguments attemptCount {Data} c.

(** The backend of the example of the specification: the first two requests
    are answered with HTTP 429, the third one with a payload. *)
Definition twoRateLimits (n : nat) (request : Request) : Reply string :=
  if (n <? 2)%nat
  then Responded false 429 (inr "rate limit exceeded") (inl "no body")
  else Responded true 200 (inr "")
                 (inr ("completion by " ++ req_model request)%string).

Definition noOptions : Options := mkOptions None None None None.

Definition thirdModelCompletion : Completion string :=
  mkCompletion string "completion by mistral-large-2411"
               "Mistral Large 2.1 (mistral-large-2411)" 3.

(** *** [parseTimeString] *)

(** [parseInt(s)] on a run of decimal digits *)
Definition parseInt (s : list ascii) : Z :=
  fold_left (fun acc c => (10 * acc + Z.of_nat (code c - 48))%Z) s 0%Z.

(** [n.toString().padStart(2, '0')] *)
Definition pad2 (n : Z) : string :=
  let t := decimal n in
  match String.length t with
  | O => "00"
  | 1 => ("0" ++ t)%string
  | _ => t
  end.

(** [/^(\d{1,2})(?::(\d{2}))?\s*(am|pm)$/i] *)
Definition timeWithAmPmRe : Regex.re :=
  Regex.seqs [Regex.Bol;
              Regex.Group 1 (Regex.range 1 2 Regex.digit);
              Regex.opt (Regex.Seq (Regex.just ":")
                                   (Regex.Group 2 (Regex.times 2 Regex.digit)));
              Regex.Star true Regex.space;
              Regex.Group 3 (Regex.Alt (Regex.litCI "am") (Regex.litCI "pm"));
              Regex.Eol].

(** [/^(\d{1,2}):(\d{2})$/] *)
Definition time24Re : Regex.re :=
  Regex.seqs [Regex.Bol;
              Regex.Group 1 (Regex.range 1 2 Regex.digit);
              Regex.just ":";
              Regex.Group 2 (Regex.times 2 Regex.digit);
              Regex.Eol].

(** [/^(\d{1,2})$/] *)
Definition hourOnlyRe : Regex.re :=
  Regex.seqs [Regex.Bol; Regex.Group 1 (Regex.range 1 2 Regex.digit); Regex.Eol].

Definition nonEmpty (o : option (list ascii)) : option (list ascii) :=
  match o with
  | Some (c :: l) => Some (c :: l)
  | _ => None
  end.

Definition groupOf (i : nat) (m : option (string * Regex.pos)) : option (list ascii) :=
  match m with
  | Some (_, e) => nonEmpty (Regex.capture i (Regex.caps e))
  | None => None
  end.

Definition parseAmPm (cleaned : string) : option string :=
  let m := Regex.exec false timeWithAmPmRe cleaned in
  match groupOf 1 m, groupOf 3 m with
  | Some g1, Some g3 =>
      let hours := parseInt g1 in
      let minutes :=
        match groupOf 2 m with Some g2 => parseInt g2 | None => 0%Z end in
      let ampm := toLowerCase (Regex.text g3) in
      let hours :=
        if (ampm =? "pm") && negb (hours =? 12)%Z then (hours + 12)%Z else hours in
      let hours :=
        if (ampm =? "am") && (hours =? 12)%Z then 0%Z else hours in
      Some (pad2 hours ++ ":" ++ pad2 minutes)%string
  | _, _ => None
  end.

Definition parse24 (cleaned : string) : option string :=
  let m := Regex.exec false time24Re cleaned in
  match groupOf 1 m, groupOf 2 m with
  | Some g1, Some g2 =>
      let hours := parseInt g1 in
      let minutes := parseInt g2 in
      if (0 <=? hours)%Z && (hours <=? 23)%Z
         && (0 <=? minutes)%Z && (minutes <=? 59)%Z
      then Some (pad2 hours ++ ":" ++ pad2 minutes)%string
      else None
  | _, _ => None
  end.

Definition parseHourOnly (cleaned : string) : option string :=
  let m := Regex.exec false hourOnlyRe cleaned in
  match groupOf 1 m with
  | Some g1 =>
      let hours := parseInt g1 in
      if (0 <=? hours)%Z && (hours <=? 23)%Z
      then Some (pad2 hours ++ ":00")%string
      else None
  | None => None
  end.

(** The three attempts in the order of the source; [None] is [null]. *)
Definition parseTimeString (timeStr : string) : option string :=
  let cleaned := trim (toLowerCase timeStr) in
  match parseAmPm cleaned with
  | Some t => Some t
  | None =>
      match parse24 cleaned with
      | Some t => Some t
      | None => parseHourOnly cleaned
      end
  end.

(** *** [isOutdoorTask] *)

Definition outdoorKeywords : list string :=
  ["walk"; "run"; "jog"; "bike"; "garden"; "outdoor"; "park"; "hike";
   "beach"; "picnic"; "sports"; "exercise outside"; "yard work"; "shopping";
   "market"; "errands"; "drive"; "commute"; "meeting outside"].

Definition isOutdoorTask (taskTitle : string) : bool :=
  let title := toLowerCase taskTitle in
  existsb (fun keyword => includes title keyword) outdoorKeywords.

(** *** The request of [callOptimalAI] for one model

    The body that [attempt] hands to [fetch], as a function of the model. *)
Definition requestFor (messages : list Message) (options : Options)
           (model : ModelConfig) : Request :=
  mkRequest (endpoint model) messages
            (orQ (temperature options) (7 # 10))
            (Z.min (orZ (optMaxTokens options) 1000) (maxTokens model))
            (orQ (topP options) (9 # 10))
            false.

End Ai.

(** ** The AI controller ([src/controllers/aiController.ts]) *)

Module AiController.

Import Js.
Local Open Scope list_scope.

(** *** The primary JSON extraction

    [aiResponse.match(/\[[\s\S]*\]/)] followed by [JSON.parse(jsonMatch[0])],
    the body of the inner [try] of [extractTasksFromVoice]; the same two
    lines open [generateAITasks] and [alignTasksWithAIPlan]. *)

(** [/\[[\s\S]*\]/] *)
Definition jsonArrayRe : Regex.re :=
  Regex.seqs [Regex.just "["; Regex.Star true Regex.any; Regex.just "]"].

(** [jsonMatch[0]], or [None] when [match] gives [null]. *)
Definition jsonMatch (aiResponse : string) : option string :=
  match Regex.exec false jsonArrayRe aiResponse with
  | Some (matched, _) => Some matched
  | None => None
  end.

Section PrimaryExtraction.

(** [JSON.parse] of the platform: a value, or a thrown [SyntaxError]. *)
Variable Json : Type.
Variable JSON_parse : string -> outcome Json.

Definition extractPrimary (aiResponse : string) : outcome Json :=
  match jsonMatch aiResponse with
  | None => Thrown (Error "No valid JSON found in AI response")
  | Some matched => JSON_parse matched
  end.

End PrimaryExtraction.

(** *** Validation and clean-up of the tasks extracted from a transcript *)

(** An element of [extractedTasks]: the properties that are read. *)
Record RawTask : Type := mkRaw {
  title : value;
  duration : value;
  importance : value;
  scheduledTime : value;
  notes : value
}.

(** An element of [validTasks]. *)
Record ExtractedTask : Type := mkExtracted {
  x_title : string;
  x_duration : Z;
  x_importance : value;
  x_scheduledTime : option string;
  x_notes : option string
}.

(** The callback of the [filter]. *)
Definition isValid (e : element RawTask) : outcome bool :=
  match e with
  | Nullish => Thrown TypeError
  | Object task =>
      Returned
        (truthy (title task)
         && match title task with
            | Str s => (0 <? String.length (trim s))%nat
            | _ => false
            end
         && truthy (duration task)
         && match duration task with
            | Num n => (0 <? n)%Z
            | _ => false
            end)
  end.

(** [/^([0-1]?[0-9]|2[0-3]):([0-5][0-9])$/] *)
Definition timeRegex : Regex.re :=
  Regex.seqs
    [Regex.Bol;
     Regex.Group 1
       (Regex.Alt
          (Regex.Seq (Regex.opt (Regex.cls [Regex.span "0" "1"]))
                     (Regex.cls [Regex.span "0" "9"]))
          (Regex.Seq (Regex.just "2") (Regex.cls [Regex.span "0" "3"])));
     Regex.just ":";
     Regex.Group 2 (Regex.Seq (Regex.cls [Regex.span "0" "5"])
                              (Regex.cls [Regex.span "0" "9"]));
     Regex.Eol].

Definition cleanScheduledTime (v : value) : option string :=
  if truthy v
  then
    let timeStr := trim (toString v) in
    if Regex.test false timeRegex timeStr
    then Some timeStr
    else Ai.parseTimeString timeStr
  else None.

(** [Math.min(Math.max(d, 5), 480)] *)
Definition clampDuration (d : Z) : Z := Z.min (Z.max d 5) 480.

(** The callback of the [map], on an element that passed the filter. *)
Definition cleanTask (task : RawTask) : outcome ExtractedTask :=
  match title task, duration task with
  | Str ttl, Num d =>
      let scheduled := cleanScheduledTime (scheduledTime task) in
      let imp :=
        if existsb (strictEq (importance task)) [Str "low"; Str "medium"; Str "high"]
        then importance task
        else Str "medium" in
      if truthy (notes task)
      then match notes task with
           | Str n =>
               Returned (mkExtracted (trim ttl) (clampDuration d) imp scheduled
                                     (Some (trim n)))
           | _ => Thrown TypeError
           end
      else Returned (mkExtracted (trim ttl) (clampDuration d) imp scheduled None)
  | _, _ => Thrown TypeError
  end.

Fixpoint mapE {A B} (f : A -> outcome B) (l : list A) : outcome (list B) :=
  match l with
  | [] => Returned []
  | x :: tl =>
      match f x with
      | Thrown e => Thrown e
      | Returned y =>
          match mapE f tl with
          | Thrown e => Thrown e
          | Returned r => Returned (y :: r)
          end
      end
  end.

Definition rawOf (e : element RawTask) : RawTask :=
  match e with
  | Object task => task
  | Nullish => mkRaw Undefined Undefined Undefined Undefined Undefined
  end.

(** [extractedTasks.filter(...).map(...)] *)
Definition validTasks (extractedTasks : list (element RawTask))
  : outcome (list ExtractedTask) :=
  match Alignment.filterE isValid extractedTasks with
  | Thrown e => Thrown e
  | Returned kept => mapE cleanTask (map rawOf kept)
  end.

(** *** The extraction as the specification words it

    This definition follows the words of the specification, not the source:
    the first balanced top-level array substring of the reply, found by
    matching brackets from the first opening bracket that has a matching
    closing one. *)

(** The rest of a bracketed span, read at nesting [depth], through its
    closing bracket. *)
Fixpoint balancedRest (depth : nat) (l : list ascii) : option (list ascii) :=
  match l with
  | [] => None
  | c :: tl =>
      if Ascii.eqb c "["
      then option_map (cons c) (balancedRest (S depth) tl)
      else if Ascii.eqb c "]"
           then match depth with
                | O => Some [c]
                | S d => option_map (cons c) (balancedRest d tl)
                end
           else option_map (cons c) (balancedRest depth tl)
  end.

Fixpoint firstBalanced (l : list ascii) : option (list ascii) :=
  match l with
  | [] => None
  | c :: tl =>
      if Ascii.eqb c "["
      then match balancedRest 0 tl with
           | Some body => Some (c :: body)
           | None => firstBalanced tl
           end
      else firstBalanced tl
  end.

Definition firstBalancedArray (reply : string) : option string :=
  option_map Regex.text (firstBalanced (Regex.chars reply)).

(** The text has no occurrence of the character. *)
Definition lacks (c : ascii) (s : string) : Prop := ~ In c (Regex.chars s).

(** The two halves of the matcher of [jsonArrayRe], as functions of their
    own: the longest-first search of the greedy [[\s\S]*] followed by [k],
    and the continuation after the star, the closing bracket and then the
    end of the match. *)
Fixpoint greedyAny (k : Regex.pos -> option Regex.pos) (sn rs : list ascii)
         (cs : list (nat * list ascii)) : option Regex.pos :=
  match rs with
  | [] => k (Regex.mkPos sn [] cs)
  | c :: tl =>
      Regex.orElse (greedyAny k (c :: sn) tl cs)
                   (fun _ => k (Regex.mkPos sn rs cs))
  end.

Definition closing (s : Regex.pos) : option Regex.pos :=
  Regex.run false (Regex.just "]") (fun s' => Some s') s.

(** *** The extraction of [extractTasksFromVoice] with its repair

    The [try]/[catch] that gives [extractedTasks]: the primary extraction
    and, when it throws, one call of the router for a repaired text, which
    is parsed in the same way. *)

Section Repair.

Variable Json : Type.
Variable JSON_parse : string -> outcome Json.

(** The payload of a completion and the reading
    [repairData.choices?.[0]?.message?.content] of it, which throws on a
    payload that is [null]. *)
Variable Data : Type.
Variable content : Data -> outcome value.
Variable fetch : nat -> Ai.Request -> Ai.Reply Data.

(** The body of the outer [try], on an [aiResponse] that is truthy:
    [aiResponse.match] is a function only when [aiResponse] is a text. *)
Definition parseResponse (aiResponse : value) : outcome Json :=
  match aiResponse with
  | Str s => extractPrimary Json JSON_parse s
  | _ => Thrown TypeError
  end.

Definition repairMessages (aiResponse : value) : list Ai.Message :=
  [Ai.mkMessage "system"
     "You are a JSON repair specialist. Fix the malformed JSON and return only valid JSON array.";
   Ai.mkMessage "user"
     ("Fix this malformed JSON and return only the valid array: "
      ++ toString aiResponse)%string].

Definition repairOptions : Ai.Options :=
  Ai.mkOptions (Some (1 # 10)%Q) (Some 1000%Z) None None.

(** The body of the inner [try]. *)
Definition repair (aiResponse : value) : outcome Json :=
  match Ai.callOptimalAI Data fetch (repairMessages aiResponse)
                         "json-parsing" repairOptions with
  | inl message => Thrown (Error message)
  | inr completion =>
      match content (Ai.response completion) with
      | Thrown e => Thrown e
      | Returned repairedResponse =>
          match repairedResponse with
          | Undefined | Null => Thrown (Error "JSON repair failed")
          | Str s =>
              match jsonMatch s with
              | Some matched => JSON_parse matched
              | None => Thrown (Error "JSON repair failed")
              end
          | _ => Thrown TypeError
          end
      end
  end.

Definition parseOrRepair (aiResponse : value) : outcome Json :=
  match parseResponse aiResponse with
  | Returned extractedTasks => Returned extractedTasks
  | Thrown _ =>
      match repair aiResponse with
      | Returned extractedTasks => Returned extractedTasks
      | Thrown _ =>
          Thrown (Error "Failed to parse and repair AI task extraction")
      end
  end.

End Repair.

(** *** The time context of the Kanban handlers

    [dictateKanbanTasks] and [askKanbanAI] compute it from [new Date()],
    which they evaluate anew at each use: [currentHour] is one reading of
    [getHours()], from 0 to 23; [isWeekend] and [isBusinessDay] each read
    [getDay()], from 0 (Sunday) to 6, twice.  [day1] to [day4] are these
    four readings in the order of the source; nothing in the code makes
    them agree. *)

Definition timeOfDay (currentHour : Z) : string :=
  if (currentHour <? 6)%Z then "late night"
  else if (currentHour <? 12)%Z then "morning"
  else if (currentHour <? 17)%Z then "afternoon"
  else if (currentHour <? 21)%Z then "evening"
  else "night".

(** [new Date().getDay() === 0 || new Date().getDay() === 6] *)
Definition isWeekend (day1 day2 : Z) : bool := (day1 =? 0)%Z || (day2 =? 6)%Z.

Definition isWorkingHours (currentHour : Z) : bool :=
  (9 <=? currentHour)%Z && (currentHour <? 17)%Z.

(** [new Date().getDay() >= 1 && new Date().getDay() <= 5] *)
Definition isBusinessDay (day3 day4 : Z) : bool :=
  (1 <=? day3)%Z && (day4 <=? 5)%Z.

(** What the handler reads from the clock. *)
Record Clock : Type := mkClock {
  currentHour : Z;
  day1 : Z;
  day2 : Z;
  day3 : Z;
  day4 : Z
}.

(** The [Context:] line of the two prompts. *)
Definition contextLine (c : Clock) : string :=
  if isWeekend (day1 c) (day2 c) then "Weekend"
  else if isWorkingHours (currentHour c) then "Working Hours"
  else if isBusinessDay (day3 c) (day4 c) then "After Work Hours"
  else "Business Day".

(** The second of the time-aware guidelines of the dictation prompt. *)
Definition guideline (c : Clock) : string :=
  if isWorkingHours (currentHour c)
  then "Suggest focusing on professional tasks during working hours"
  else if isBusinessDay (day3 c) (day4 c)
  then "Good time for personal tasks and planning for tomorrow"
  else if isWeekend (day1 c) (day2 c)
  then "Weekend - perfect for personal projects and preparation"
  else "Business day context".

(** The clock of a handler that runs within one day of the week. *)
Definition sameDay (day : Z) (c : Clock) : Prop :=
  day1 c = day /\ day2 c = day /\ day3 c = day /\ day4 c = day.

End AiController.

(** ** The game controller ([src/controllers/gameController.ts]) *)

Module GameController.

Import Js Db.
Local Open Scope list_scope.

(** A row of [game_scores]. *)
Record ScoreRow : Type := mkScore {
  user_id : string;
  score : Z
}.

(** What the handler sends: [res.status(200).json({success, message, score})],
    [res.status(400).json({error})], or
    [res.status(500).json({error: "Failed to save game score: " + err.message})],
    kept as the error that was caught. *)
Inductive Response : Type :=
| Status200 (success : bool) (message : string) (score : Z)
| Status400 (error : string)
| Status500 (cause : exn).

(** [SELECT score FROM game_scores WHERE user_id = $1] *)
Definition selectScores (userId : string)
  : nat -> list ScoreRow -> list ScoreRow * list ScoreRow :=
  fun _ tbl => (filter (fun r => user_id r =? userId) tbl, tbl).

(** [UPDATE game_scores SET score = $1, updated_at = NOW() WHERE user_id = $2] *)
Definition updateScore (newScore : Z) (userId : string)
  : nat -> list ScoreRow -> unit * list ScoreRow :=
  fun _ tbl =>
    (tt, map (fun r => if user_id r =? userId then mkScore (user_id r) newScore else r)
             tbl).

(** [INSERT INTO game_scores (user_id, score) VALUES ($1, $2)] *)
Definition insertScore (userId : string) (newScore : Z)
  : nat -> list ScoreRow -> unit * list ScoreRow :=
  fun _ tbl => (tt, tbl ++ [mkScore userId newScore]).

Definition saved (submitted : Z) : Response :=
  Status200 true "High score saved successfully" submitted.

(** [saveGameHighScore]: [submitted] is [req.body.score], [connection] is
    what [getDbConnection()] gives. *)
Definition saveGameHighScore (connection : outcome Client) (userId : string)
           (submitted : value) (store : Store ScoreRow)
  : Response * Store ScoreRow :=
  match submitted with
  | Num n =>
      if (n <? 0)%Z
      then (Status400 "Score must be a valid positive number", store)
      else
        match connection with
        | Thrown e => (Status500 e, store)
        | Returned sql =>
            match query sql (selectScores userId) store with
            | (Thrown e, s1) => (Status500 e, s1)
            | (Returned [], s1) =>
                match query sql (insertScore userId n) s1 with
                | (Thrown e, s2) => (Status500 e, s2)
                | (Returned _, s2) => (saved n, s2)
                end
            | (Returned (first :: _), s1) =>
                if (score first <? n)%Z
                then match query sql (updateScore n userId) s1 with
                     | (Thrown e, s2) => (Status500 e, s2)
                     | (Returned _, s2) => (saved n, s2)
                     end
                else (saved n, s1)
            end
        end
  | _ => (Status400 "Score must be a valid positive number", store)
  end.

(** The score that [getGameHighScore] reads back: [rows[0].score] of the
    user's rows, when there is one. *)
Definition storedScore (userId : string) (tbl : list ScoreRow) : option Z :=
  match filter (fun r => user_id r =? userId) tbl with
  | first :: _ => Some (score first)
  | [] => None
  end.

(** *** [getGameHighScore] and [getUserHighScore] *)

(** What the two reading handlers send: [res.status(200).json({highScore})],
    [res.status(200).json({highScore, hasScore, allTimeHigh})], where an
    [allTimeHigh] that is [null] is [None], or
    [res.status(500).json({error: "Failed to get ...: " + err.message})],
    kept as the error that was caught. *)
Inductive Reading : Type :=
| HighScore200 (highScore : Z)
| UserHighScore200 (highScore : Z) (hasScore : bool) (allTimeHigh : option Z)
| Reading500 (cause : exn).

(** [rows.length > 0 ? rows[0].score : 0] *)
Definition firstScoreOr0 (rows : list ScoreRow) : Z :=
  match rows with
  | first :: _ => score first
  | [] => 0
  end.

Definition getGameHighScore (connection : outcome Client) (userId : string)
           (store : Store ScoreRow) : Reading * Store ScoreRow :=
  match connection with
  | Thrown e => (Reading500 e, store)
  | Returned sql =>
      match query sql (selectScores userId) store with
      | (Thrown e, s1) => (Reading500 e, s1)
      | (Returned rows, s1) => (HighScore200 (firstScoreOr0 rows), s1)
      end
  end.

(** [MAX(score)] over the rows: [NULL] for no row. *)
Definition maxOf (tbl : list ScoreRow) : option Z :=
  fold_left (fun best r =>
               match best with
               | None => Some (score r)
               | Some b => Some (Z.max b (score r))
               end) tbl None.

(** [SELECT MAX(score) as all_time_high FROM game_scores]: an aggregate
    without [GROUP BY] gives one row, whatever the table holds. *)
Definition selectMaxScore
  : nat -> list ScoreRow -> list (option Z) * list ScoreRow :=
  fun _ tbl => ([maxOf tbl], tbl).

Definition getUserHighScore (connection : outcome Client) (userId : string)
           (store : Store ScoreRow) : Reading * Store ScoreRow :=
  match connection with
  | Thrown e => (Reading500 e, store)
  | Returned sql =>
      match query sql (selectScores userId) store with
      | (Thrown e, s1) => (Reading500 e, s1)
      | (Returned userScores, s1) =>
          match query sql selectMaxScore s1 with
          | (Thrown e, s2) => (Reading500 e, s2)
          | (Returned allTimeHighScore, s2) =>
              let highScore := firstScoreOr0 userScores in
              let allTimeHigh :=
                match allTimeHighScore with
                | first :: _ => first
                | [] => Some 0%Z
                end in
              (UserHighScore200 highScore
                                (0 <? List.length userScores)%nat
                                allTimeHigh,
               s2)
          end
      end
  end.

End GameController.

(** ** Sample data

    The concrete clients, tables and operations on which the properties
    below are exercised. *)

Module Samples.

Import Js Db Alignment.
Local Open Scope list_scope.

(** A client whose queries all succeed and that numbers the new rows. *)
Definition steadyClient : Client :=
  mkClient (fun _ => false)
           (fun n => ("00000000-0000-4000-8000-00000000000" ++ decimal (Z.of_nat n))%string).

Definition workout : Task :=
  mkTask "123e4567-e89b-12d3-a456-426614174000" "user_1"
         (Str "Workout") (Num 45) (Str "medium") (Str "todo") Null.

(** [{action: "delete", id: "not-a-uuid", title: "Workout"}] *)
Definition deleteWorkoutByTitle : Operation :=
  mkOp (Str "not-a-uuid") (Str "delete") (Str "Workout")
       Undefined Undefined Undefined Undefined.

(** [{title: "   ", duration: 30}] and [{action: "delete", title: "Workout"}] *)
Definition blankTitled : Operation :=
  mkOp Undefined Undefined (Str "   ") (Num 30) Undefined Undefined Undefined.
Definition deleteWithoutId : Operation :=
  mkOp Undefined (Str "delete") (Str "Workout")
       Undefined Undefined Undefined Undefined.

(** [{id: "123e4567-...", title: "Workout"}]: an id and no action. *)
Definition idWithoutAction : Operation :=
  mkOp (Str "123e4567-e89b-12d3-a456-426614174000") Undefined (Str "Workout")
       Undefined Undefined Undefined Undefined.

(** [{action: "archive", title: "Workout"}]: an action that is none of the
    recognised ones. *)
Definition archiveWorkout : Operation :=
  mkOp Undefined (Str "archive") (Str "Workout")
       Undefined Undefined Undefined Undefined.

Definition draftReport : Task :=
  mkTask "123e4567-e89b-12d3-a456-426614174000" "user_1"
         (Str "Draft report") (Num 60) (Str "high") (Str "todo") (Str "09:00").

(** [{id: "123e4567-...", action: "modify", status: "done"}] *)
Definition markDraftDone : Operation :=
  mkOp (Str "123e4567-e89b-12d3-a456-426614174000") (Str "modify") Undefined
       Undefined Undefined (Str "done") Undefined.

(** [{title: "Deep work session", duration: 1000}] and
    [{title: "Stretch", duration: 2}] *)
Definition longSession : Operation :=
  mkOp Undefined Undefined (Str "Deep work session") (Num 1000)
       Undefined Undefined Undefined.
Definition shortStretch : Operation :=
  mkOp Undefined Undefined (Str "Stretch") (Num 2)
       Undefined Undefined Undefined.

(** 1001 times the letter a: a text without a sentence end. *)
Definition unbrokenRun : string :=
  string_of_list_ascii (repeat "a"%char 1001).

(** The table of scores: user_1 holds 42. *)
Definition scoreTable : Db.Store GameController.ScoreRow :=
  Db.mkStore [GameController.mkScore "user_2" 7; GameController.mkScore "user_1" 42] 0.

(** The reply of the specification's example and the array in it:
    [{"title":"A","duration":10}] between two pieces of prose. *)
Definition exampleArray : string :=
  ("[{" ++ dquote ++ "title" ++ dquote ++ ":" ++ dquote ++ "A" ++ dquote ++ ","
   ++ dquote ++ "duration" ++ dquote ++ ":10}]")%string.

Definition exampleInside : string :=
  ("{" ++ dquote ++ "title" ++ dquote ++ ":" ++ dquote ++ "A" ++ dquote ++ ","
   ++ dquote ++ "duration" ++ dquote ++ ":10}")%string.

Definition examplePrefix : string := "Sure! Here are your tasks: ".
Definition exampleSuffix : string := " Hope that helps!".

Definition exampleReply : string :=
  (examplePrefix ++ exampleArray ++ exampleSuffix)%string.

(** The same array, followed by prose that has a bracketed remark. *)
Definition replyWithRemark : string :=
  (examplePrefix ++ exampleArray ++ " Hope that helps! [2 tasks]")%string.

(** The operations of the scenarios of the specification. *)
Definition callMom : Operation :=
  mkOp Undefined Undefined (Str "Call mom") (Num 15) (Str "medium")
       Undefined Undefined.

Definition deleteUnknownId : Operation :=
  mkOp (Str "00000000-0000-1000-8000-000000000000") (Str "delete") Undefined
       Undefined Undefined Undefined Undefined.

Definition deleteWorkoutById : Operation :=
  mkOp (Str "123e4567-e89b-12d3-a456-426614174000") (Str "delete") Undefined
       Undefined Undefined Undefined Undefined.

Definition workoutAgain : Operation :=
  mkOp Undefined (Str "add") (Str "WORKOUT at the gym") (Num 30) Undefined
       Undefined Undefined.

(** The task of the field-merge example, which has no scheduled time. *)
Definition draftReportUnscheduled : Task :=
  mkTask "123e4567-e89b-12d3-a456-426614174000" "user_1"
         (Str "Draft report") (Num 60) (Str "high") (Str "todo") Null.

(** A client whose first query fails and whose other queries succeed. *)
Definition firstQueryFails : Client :=
  mkClient (fun n => Nat.eqb n 0) (newId steadyClient).

(** A backend that answers like [twoRateLimits] to the requests that
    [callOptimalAI] can send, and rejects every streaming request and every
    request after the sixth. *)
Definition twoRateLimitsThenClosed (n : nat) (request : Ai.Request)
  : Ai.Reply string :=
  if Ai.req_stream request || (6 <=? n)%nat
  then Ai.Rejected "closed"
  else Ai.twoRateLimits n request.

(** An operation proposed a second time, with other letter cases and white
    space around its title, and the row that its first insertion left. *)
Definition callMomAgain : Operation :=
  mkOp Undefined Undefined (Str "  Call Mom ") (Num 15) (Str "medium")
       Undefined Undefined.

Definition storedCallMom : Task :=
  mkTask "00000000-0000-4000-8000-000000000000" "user_1"
         (Str "Call mom") (Num 15) (Str "medium") (Str "todo") Null.

(** A second task with the title of [workout], under an id that is no
    UUID, and an operation that names the title in capitals. *)
Definition workoutUnderBadId : Task :=
  mkTask "42" "user_1" (Str "Workout") (Num 20) (Str "low") (Str "todo") Null.

Definition deleteWorkoutInCapitals : Operation :=
  mkOp (Str "not-a-uuid") (Str "delete") (Str "WORKOUT")
       Undefined Undefined Undefined Undefined.

(** A client whose queries all fail. *)
Definition brokenClient : Client :=
  mkClient (fun _ => true) (newId steadyClient).

(** A backend that answers every request with HTTP 429. *)
Definition alwaysRateLimited (n : nat) (request : Ai.Request) : Ai.Reply string :=
  Ai.Responded false 429 (inr "slow down") (inl "no body").

End Samples.

(* ===================================================================== *)
(** * Part II: properties                                                 *)
(* ===================================================================== *)

(** ** The task-alignment engine *)

Section AlignmentFacts.

Import Js Db Alignment.
Local Open Scope list_scope.

Variable sql : Client.
Variable userId : string.
Variable existingTasks : list Task.

Local Abbreviation createItem := (Alignment.createItem sql userId existingTasks).
Local Abbreviation deleteItem := (Alignment.deleteItem sql userId existingTasks).
Local Abbreviation modifyItem := (Alignment.modifyItem sql userId existingTasks).

(** *** The step relations describe the three loop bodies *)

(** One way through a loop body: the state is computed, and [tac] names
    the constructor of the step relation. *)
Ltac way_through tac := simpl; eexists; split; [reflexivity | tac].

Lemma createItem_effect task st :
  exists st', createItem task st = (Returned tt, st')
              /\ CreateEffect sql userId task st st'.
Proof.
  unfold Alignment.createItem, tryCatch, createBody.
  destruct (validTitle (title task)) as [ttl|] eqn:Et;
    [|way_through constructor].
  destruct (validDuration (duration task)) as [n|] eqn:Ed;
    [|way_through constructor].
  unfold bind, lift.
  destruct (findE (similarTo ttl) existingTasks) as [[ex|]|e];
    try (way_through constructor).
  unfold query, Db.query, pushConflict, pushInserted, push.
  destruct (fails sql (issued (db st))) eqn:Ef; simpl.
  - way_through ltac:(now apply CreateFaulted).
  - way_through ltac:(now apply CreateDone with (n := n)).
Qed.

Lemma deleteItem_effect task st :
  exists st', deleteItem task st = (Returned tt, st')
              /\ DeleteEffect sql userId existingTasks task st st'.
Proof.
  unfold Alignment.deleteItem, tryCatch, deleteBody.
  destruct (truthy (id task)); simpl;
    [|way_through constructor].
  destruct (isValidUUID (id task)) eqn:Ev; simpl.
  - unfold bind, query, Db.query, pushConflict, pushDeleted, pushModified, push.
    destruct (fails sql (issued (db st))) eqn:Ef; simpl.
    + way_through ltac:(now apply DeleteFaulted).
    + destruct (filter (addressed (id task) userId) (rows (db st))) as [|first others] eqn:Ea.
      * way_through ltac:(now apply DeleteMissed).
      * way_through ltac:(now apply DeleteDone with (others := others)).
  - unfold bind, pushConflict, push, deleteRescue, tryCatch, bind, lift; simpl.
    destruct (findE (sameTitle task) existingTasks) as [[m|]|e] eqn:Efind;
      try (way_through constructor).
    destruct (isValidUUID (Str (task_id m))) eqn:Em;
      [|way_through constructor].
    unfold query, Db.query, pushDeleted, pushModified, push; simpl.
    destruct (fails sql (issued (db st))) eqn:Ef; simpl.
    + way_through ltac:(now apply DeleteRescueFaulted).
    + way_through ltac:(now apply DeleteRescued).
Qed.

Lemma modifyItem_effect task st :
  exists st', modifyItem task st = (Returned tt, st')
              /\ ModifyEffect sql userId existingTasks task st st'.
Proof.
  unfold Alignment.modifyItem, tryCatch, modifyBody.
  destruct (truthy (id task)); simpl;
    [|way_through constructor].
  destruct (isValidUUID (id task)) eqn:Ev; simpl.
  - unfold bind, query, Db.query, pushConflict, pushDeleted, pushModified, push.
    destruct (fails sql (issued (db st))) eqn:Ef; simpl.
    + way_through ltac:(now apply ModifyFaulted).
    + destruct (fst (coalescedRows userId task (rows (db st)))) as [|first others] eqn:Ea;
        unfold coalescedRows in Ea; simpl in Ea; rewrite Ea.
      * way_through ltac:(apply ModifyMissed; auto).
      * way_through ltac:(eapply ModifyDone; eauto).
  - unfold bind, pushConflict, push, modifyRescue, tryCatch, bind, lift; simpl.
    destruct (findE (sameTitle task) existingTasks) as [[m|]|e] eqn:Efind;
      try (way_through constructor).
    destruct (isValidUUID (Str (task_id m))) eqn:Em;
      [|way_through constructor].
    unfold query, Db.query, pushDeleted, pushModified, push; simpl.
    destruct (fails sql (issued (db st))) eqn:Ef; simpl.
    + way_through ltac:(now apply ModifyRescueFaulted).
    + way_through ltac:(now apply ModifyRescued).
Qed.

Lemma createItem_step task st :
  createItem task st = (Returned tt, snd (createItem task st)).
Proof. destruct (createItem_effect task st) as (st' & E & _). now rewrite E. Qed.

Lemma deleteItem_step task st :
  deleteItem task st = (Returned tt, snd (deleteItem task st)).
Proof. destruct (deleteItem_effect task st) as (st' & E & _). now rewrite E. Qed.

Lemma modifyItem_step task st :
  modifyItem task st = (Returned tt, snd (modifyItem task st)).
Proof. destruct (modifyItem_effect task st) as (st' & E & _). now rewrite E. Qed.

Lemma createItem_snd_effect task st :
  CreateEffect sql userId task st (snd (createItem task st)).
Proof. destruct (createItem_effect task st) as (st' & E & H). now rewrite E. Qed.

Lemma deleteItem_snd_effect task st :
  DeleteEffect sql userId existingTasks task st (snd (deleteItem task st)).
Proof. destruct (deleteItem_effect task st) as (st' & E & H). now rewrite E. Qed.

Lemma modifyItem_snd_effect task st :
  ModifyEffect sql userId existingTasks task st (snd (modifyItem task st)).
Proof. destruct (modifyItem_effect task st) as (st' & E & H). now rewrite E. Qed.

(** *** Loops and filters *)

(** A loop whose body lets nothing out is the fold of its body. *)
Lemma forEach_fold {A} (body : A -> M unit) :
  (forall x st, body x st = (Returned tt, snd (body x st))) ->
  forall l st,
    forEach l body st = (Returned tt, fold_left (fun s x => snd (body x s)) l st).
Proof.
  intros total l; induction l as [|x l IH]; intros st; simpl.
  - reflexivity.
  - unfold bind. rewrite (total x st). apply IH.
Qed.

(** The filters on a batch of objects. *)
Lemma filterE_objects callback ops :
  filterE (reading callback) (map Object ops)
  = Returned (map Object (filter callback ops)).
Proof.
  induction ops as [|o ops IH]; simpl; [reflexivity|].
  rewrite IH. destruct (callback o); reflexivity.
Qed.

Lemma operationOf_objects ops : map operationOf (map Object ops) = ops.
Proof. induction ops; simpl; congruence. Qed.

Lemma pass_objects callback item ops st :
  pass (reading callback) item (map Object ops) st
  = forEach (filter callback ops) item st.
Proof.
  unfold pass, bind, lift. rewrite filterE_objects, operationOf_objects.
  reflexivity.
Qed.

(** A filter throws on a [null] element. *)
Lemma filterE_nullish callback (l : list Proposed) :
  In Nullish l -> filterE (reading callback) l = Thrown TypeError.
Proof.
  induction l as [|p l IH]; simpl; [tauto|].
  intros [->|H]; [reflexivity|].
  destruct p; simpl; [reflexivity|]. rewrite (IH H). reflexivity.
Qed.

Lemma objects_or_nullish (l : list Proposed) :
  In Nullish l \/ exists ops, l = map Object ops.
Proof.
  induction l as [|[|o] l [H|[ops ->]]]; simpl; auto.
  - right; now exists [].
  - right; now exists (o :: ops).
Qed.

(** The whole call on a batch of objects: the three loops run to their end. *)
Lemma align_objects ops currentPlan store :
  alignTasksWithPlan sql userId (map Object ops) existingTasks currentPlan store
  = (Returned (results (afterLoops sql userId existingTasks ops (mkState store noResults))),
     db (afterLoops sql userId existingTasks ops (mkState store noResults))).
Proof.
  unfold alignTasksWithPlan, alignM, alignBody, tryCatch, bind, isAdd, isDelete, isModify.
  rewrite pass_objects, (forEach_fold _ createItem_step).
  rewrite pass_objects, (forEach_fold _ deleteItem_step).
  rewrite pass_objects, (forEach_fold _ modifyItem_step).
  reflexivity.
Qed.

(** The whole call on a batch with a [null] element: the first filter throws
    in the outer [try], and the empty [results] is returned. *)
Lemma align_nullish batch currentPlan store :
  In Nullish batch ->
  alignTasksWithPlan sql userId batch existingTasks currentPlan store
  = (Returned noResults, store).
Proof.
  intros H.
  unfold alignTasksWithPlan, alignM, alignBody, tryCatch, bind, pass, lift, isAdd.
  rewrite (filterE_nullish _ _ H). reflexivity.
Qed.

(** *** Invariants of the loops *)

Create HintDb align.
#[local] Hint Resolve incl_refl incl_appl : align.

Lemma keeps_refl st : keeps st st.
Proof. repeat split; apply incl_refl. Qed.

Lemma keeps_trans a b c : keeps a b -> keeps b c -> keeps a c.
Proof.
  intros (?&?&?&?) (?&?&?&?); repeat split; eapply incl_tran; eauto.
Qed.

Lemma fold_invariant {A} (f : State -> A -> State) (R : State -> State -> Prop) :
  (forall s, R s s) ->
  (forall a b c, R a b -> R b c -> R a c) ->
  (forall s x, R s (f s x)) ->
  forall l s, R s (fold_left f l s).
Proof.
  intros Rrefl Rtrans step l; induction l as [|x l IH]; intros s; simpl; eauto.
Qed.

Lemma create_keeps task st st' : CreateEffect sql userId task st st' -> keeps st st'.
Proof. destruct 1; repeat split; simpl; auto with align. Qed.

Lemma delete_keeps task st st' :
  DeleteEffect sql userId existingTasks task st st' -> keeps st st'.
Proof. destruct 1; repeat split; simpl; auto with align. Qed.

Lemma modify_keeps task st st' :
  ModifyEffect sql userId existingTasks task st st' -> keeps st st'.
Proof. destruct 1; repeat split; simpl; auto with align. Qed.

#[local] Hint Resolve keeps_refl keeps_trans create_keeps delete_keeps modify_keeps
  createItem_snd_effect deleteItem_snd_effect modifyItem_snd_effect : align.

Lemma deletes_keep l st :
  keeps st (fold_left (fun s x => snd (deleteItem x s)) l st).
Proof. apply fold_invariant; eauto with align. Qed.

Lemma modifies_keep l st :
  keeps st (fold_left (fun s x => snd (modifyItem x s)) l st).
Proof. apply fold_invariant; eauto with align. Qed.

Lemma creates_keep l st :
  keeps st (fold_left (fun s x => snd (createItem x s)) l st).
Proof. apply fold_invariant; eauto with align. Qed.

(** Every operation that a loop processes leaves at least one record, in
    one of the three lists or in [conflicts]. *)
Lemma create_records task st st' :
  CreateEffect sql userId task st st' -> records (results st) < records (results st').
Proof. destruct 1; unfold records; simpl; rewrite ?length_app; simpl; lia. Qed.

Lemma delete_records task st st' :
  DeleteEffect sql userId existingTasks task st st' ->
  records (results st) < records (results st').
Proof. destruct 1; unfold records; simpl; rewrite ?length_app; simpl; lia. Qed.

Lemma modify_records task st st' :
  ModifyEffect sql userId existingTasks task st st' ->
  records (results st) < records (results st').
Proof. destruct 1; unfold records; simpl; rewrite ?length_app; simpl; lia. Qed.

Lemma fold_records {A} (f : State -> A -> State) :
  (forall s x, records (results s) < records (results (f s x))) ->
  forall l s,
    records (results s) + List.length l <= records (results (fold_left f l s)).
Proof.
  intros step l; induction l as [|x l IH]; intros s; simpl; [lia|].
  specialize (IH (f s x)). specialize (step s x). lia.
Qed.

(** On a batch of objects the result has at least one record for each
    operation that one of the three filters selects. *)
Lemma selected_operations_are_accounted ops st :
  records (results st)
  + List.length (filter createShaped ops)
  + List.length (filter deleteShaped ops)
  + List.length (filter modifyShaped ops)
  <= records (results (afterLoops sql userId existingTasks ops st)).
Proof.
  unfold afterLoops.
  set (c := fun s x => snd (createItem x s)).
  set (d := fun s x => snd (deleteItem x s)).
  set (m := fun s x => snd (modifyItem x s)).
  pose proof (fold_records c (fun s x => create_records x s _ (createItem_snd_effect x s))
                (filter createShaped ops) st) as Hc.
  pose proof (fold_records d (fun s x => delete_records x s _ (deleteItem_snd_effect x s))
                (filter deleteShaped ops)
                (fold_left c (filter createShaped ops) st)) as Hd.
  pose proof (fold_records m (fun s x => modify_records x s _ (modifyItem_snd_effect x s))
                (filter modifyShaped ops)
                (fold_left d (filter deleteShaped ops)
                           (fold_left c (filter createShaped ops) st))) as Hm.
  lia.
Qed.

(** The delete and modify loops never bring back a row that is gone: they
    remove rows or rewrite columns other than [id] and [user_id]. *)
Lemma absent_filter idParam user p tbl :
  absent idParam user tbl -> absent idParam user (filter p tbl).
Proof. intros H r Hr. apply filter_In in Hr. now apply H. Qed.

Lemma absent_map idParam user (f : Task -> Task) tbl :
  (forall r, task_id (f r) = task_id r /\ user_id (f r) = user_id r) ->
  absent idParam user tbl -> absent idParam user (map f tbl).
Proof.
  intros Hf H r Hr. apply in_map_iff in Hr as (r0 & <- & Hr0).
  destruct (Hf r0) as [Hi Hu]. unfold addressed. rewrite Hi, Hu. now apply H.
Qed.

Lemma delete_absent idParam user task st st' :
  DeleteEffect sql userId existingTasks task st st' ->
  absent idParam user (rows (db st)) -> absent idParam user (rows (db st')).
Proof. destruct 1; simpl; auto using absent_filter. Qed.

Lemma modify_absent idParam user task st st' :
  ModifyEffect sql userId existingTasks task st st' ->
  absent idParam user (rows (db st)) -> absent idParam user (rows (db st')).
Proof.
  destruct 1; simpl; auto; intros Ha; apply absent_map; auto;
    intros r; destruct (addressed _ _ r); simpl; auto.
Qed.

Lemma deletes_absent idParam user l st :
  absent idParam user (rows (db st)) ->
  absent idParam user (rows (db (fold_left (fun s x => snd (deleteItem x s)) l st))).
Proof.
  apply (fold_invariant (fun s x => snd (deleteItem x s))
           (fun a b => absent idParam user (rows (db a)) ->
                       absent idParam user (rows (db b)))); auto.
  intros s x. apply delete_absent with (task := x), deleteItem_snd_effect.
Qed.

Lemma modifies_absent idParam user l st :
  absent idParam user (rows (db st)) ->
  absent idParam user (rows (db (fold_left (fun s x => snd (modifyItem x s)) l st))).
Proof.
  apply (fold_invariant (fun s x => snd (modifyItem x s))
           (fun a b => absent idParam user (rows (db a)) ->
                       absent idParam user (rows (db b)))); auto.
  intros s x. apply modify_absent with (task := x), modifyItem_snd_effect.
Qed.

Lemma absent_after_delete idParam tbl :
  absent idParam userId (filter (fun r => negb (addressed idParam userId r)) tbl).
Proof.
  intros r Hr. apply filter_In in Hr as [_ Hr]. now apply negb_true_iff in Hr.
Qed.

(** *** The rescue of a delete *)

Lemma deleteItem_rescue task m st :
  fails sql (issued (db st)) = false ->
  truthy (id task) = true ->
  isValidUUID (id task) = false ->
  findE (sameTitle task) existingTasks = Returned (Some m) ->
  isValidUUID (Str (task_id m)) = true ->
  deleteItem task st
  = (Returned tt,
     mkState (touched st (filter (fun r => negb (addressed (Str (task_id m)) userId r))
                                 (rows (db st))))
             (addDeleted (DeletedRow m)
                         (addConflict (DeleteInvalidUUID (id task)) (results st)))).
Proof.
  intros Hf Hid Hbad Hfind Hm.
  unfold Alignment.deleteItem, tryCatch, deleteBody.
  rewrite Hid, Hbad; simpl.
  unfold bind, pushConflict, push, deleteRescue, tryCatch, bind, lift; simpl.
  rewrite Hfind, Hm.
  unfold query, Db.query, pushDeleted, push; simpl. rewrite Hf; simpl.
  reflexivity.
Qed.

End AlignmentFacts.

Lemma findE_some {A} (p : A -> Js.outcome bool) l x :
  Alignment.findE p l = Js.Returned (Some x) -> In x l /\ p x = Js.Returned true.
Proof.
  induction l as [|y l IH]; simpl; [discriminate|].
  destruct (p y) as [[|]|e] eqn:E; try discriminate.
  - intros H; inversion H; subst; auto.
  - intros H; destruct (IH H); auto.
Qed.

Lemma valid_uuid_is_text v :
  Alignment.isValidUUID v = true -> exists s, v = Js.Str s.
Proof.
  unfold Alignment.isValidUUID. destruct (negb (Js.truthy v)); [discriminate|].
  destruct v; try discriminate. eauto.
Qed.

Section AlignmentClaims.

Import Js Db Alignment Samples.
Local Open Scope list_scope.

(** *** What stays of an item in the result of the call *)

(** On a batch of objects every operation that a filter selects is reached
    by its loop, in some state, and what its processing leaves in [results]
    is kept to the end of the call. *)
Lemma create_reached sql userId existingTasks ops st0 task :
  In task ops ->
  createShaped task = true ->
  exists st,
    keeps (snd (createItem sql userId existingTasks task st))
          (afterLoops sql userId existingTasks ops st0).
Proof.
  intros Hin Hshape.
  assert (Hsel : In task (filter createShaped ops)) by (apply filter_In; auto).
  apply in_split in Hsel as (l1 & l2 & E).
  unfold afterLoops. rewrite E, fold_left_app. cbn [fold_left].
  eexists. eapply keeps_trans; [apply creates_keep|].
  eapply keeps_trans; [apply deletes_keep|apply modifies_keep].
Qed.

Lemma delete_reached sql userId existingTasks ops st0 task :
  In task ops ->
  deleteShaped task = true ->
  exists st,
    keeps (snd (deleteItem sql userId existingTasks task st))
          (afterLoops sql userId existingTasks ops st0)
    /\ forall idParam,
        absent idParam userId
               (rows (db (snd (deleteItem sql userId existingTasks task st)))) ->
        absent idParam userId
               (rows (db (afterLoops sql userId existingTasks ops st0))).
Proof.
  intros Hin Hshape.
  assert (Hsel : In task (filter deleteShaped ops)) by (apply filter_In; auto).
  apply in_split in Hsel as (l1 & l2 & E).
  unfold afterLoops. rewrite E, fold_left_app. cbn [fold_left].
  eexists. split.
  - eapply keeps_trans; [apply deletes_keep|apply modifies_keep].
  - intros idParam Ha. now apply modifies_absent, deletes_absent.
Qed.

Lemma modify_reached sql userId existingTasks ops st0 task :
  In task ops ->
  modifyShaped task = true ->
  exists st,
    keeps (snd (modifyItem sql userId existingTasks task st))
          (afterLoops sql userId existingTasks ops st0).
Proof.
  intros Hin Hshape.
  assert (Hsel : In task (filter modifyShaped ops)) by (apply filter_In; auto).
  apply in_split in Hsel as (l1 & l2 & E).
  unfold afterLoops. rewrite E, fold_left_app. cbn [fold_left].
  eexists. apply modifies_keep.
Qed.

(** *** The rescue of a delete, in the call *)




(** *** Operations that are rejected before the store is reached *)

Lemma validTitle_none v : validTitle v = None <-> missingOrBlank v.
Proof.
  unfold missingOrBlank; split.
  - intros H s ->. unfold validTitle in H.
    destruct (negb (truthy (Str s)) || negb (isString (Str s))
              || negb (truthy (Str (trim s)))) eqn:E; [|discriminate].
    simpl in E. rewrite orb_false_r in E.
    destruct (s =? "") eqn:Es; simpl in E.
    + apply String.eqb_eq in Es; subst. reflexivity.
    + rewrite negb_involutive in E. now apply String.eqb_eq in E.
  - intros H. destruct v; try reflexivity.
    unfold validTitle. specialize (H s eq_refl). rewrite H.
    simpl. now rewrite orb_true_r.
Qed.

Lemma validDuration_none v : validDuration v = None <-> missingOrNonPositive v.
Proof.
  unfold missingOrNonPositive; split.
  - intros H n ->. unfold validDuration in H.
    destruct (negb (truthy (Num n)) || negb (isNumber (Num n)) || (n <=? 0)%Z) eqn:E;
      [|discriminate].
    simpl in E. rewrite orb_false_r, negb_involutive in E.
    apply orb_true_iff in E as [E|E]; lia.
  - intros H. destruct v; try reflexivity.
    unfold validDuration. specialize (H n eq_refl).
    replace (n <=? 0)%Z with true by (symmetry; apply Z.leb_le; lia).
    now rewrite orb_true_r.
Qed.

Lemma trim_empty : trim "" = ""%string.
Proof. reflexivity. Qed.

Lemma validTitle_some v ttl :
  validTitle v = Some ttl <-> v = Str ttl /\ trim ttl <> ""%string.
Proof.
  split.
  - intros H. destruct v as [| |b|n|s|o]; try discriminate.
    unfold validTitle in H.
    destruct (negb (truthy (Str s)) || negb (isString (Str s))
              || negb (truthy (Str (trim s)))) eqn:E; [discriminate|].
    injection H as <-. split; [reflexivity|].
    apply orb_false_iff in E as [_ E]. simpl in E.
    apply negb_false_iff, negb_true_iff in E. now apply String.eqb_neq in E.
  - intros [-> Hne]. unfold validTitle. simpl.
    assert (Hs : ttl <> ""%string) by (intros ->; now apply Hne).
    apply String.eqb_neq in Hs, Hne. now rewrite Hs, Hne.
Qed.

Lemma createItem_invalid_title sql userId existingTasks task st :
  validTitle (title task) = None ->
  createItem sql userId existingTasks task st
  = (Returned tt, mkState (db st) (addConflict (InvalidTitle task) (results st))).
Proof.
  intros H. unfold createItem, tryCatch, createBody. rewrite H. reflexivity.
Qed.

Lemma createItem_invalid_duration sql userId existingTasks task ttl st :
  validTitle (title task) = Some ttl ->
  validDuration (duration task) = None ->
  createItem sql userId existingTasks task st
  = (Returned tt, mkState (db st) (addConflict (InvalidDuration ttl) (results st))).
Proof.
  intros Ht Hd. unfold createItem, tryCatch, createBody. rewrite Ht, Hd. reflexivity.
Qed.

Lemma deleteItem_without_id sql userId existingTasks task st :
  truthy (id task) = false ->
  deleteItem sql userId existingTasks task st
  = (Returned tt, mkState (db st) (addConflict (DeleteWithoutId task) (results st))).
Proof.
  intros H. unfold deleteItem, tryCatch, deleteBody. rewrite H. reflexivity.
Qed.

Lemma modifyItem_without_id sql userId existingTasks task st :
  truthy (id task) = false ->
  modifyItem sql userId existingTasks task st
  = (Returned tt, mkState (db st) (addConflict (ModifyWithoutId task) (results st))).
Proof.
  intros H. unfold modifyItem, tryCatch, modifyBody. rewrite H. reflexivity.
Qed.

(** An operation is selected by at most one of the three filters. *)
Lemma isStr_eq v s : isStr v s = true -> v = Str s.
Proof.
  destruct v; simpl; try discriminate. intros H. apply String.eqb_eq in H. now subst.
Qed.

Lemma shapes_exclusive task :
  (createShaped task = true -> deleteShaped task = false /\ modifyShaped task = false)
  /\ (deleteShaped task = true -> createShaped task = false /\ modifyShaped task = false)
  /\ (modifyShaped task = true -> createShaped task = false /\ deleteShaped task = false).
Proof.
  unfold createShaped, deleteShaped, modifyShaped.
  destruct (action task) as [| |b|n|s|o]; simpl;
    try (repeat split; intros; auto; discriminate).
  destruct (truthy (id task)), (String.eqb_spec s ""); simpl;
    repeat match goal with
           | |- context [String.eqb s ?lit] =>
               destruct (String.eqb_spec s lit); [subst s; try discriminate|]
           end; simpl; repeat split; intros; auto; try discriminate; try congruence.
Qed.

(** A batch of one operation runs the one loop that selects it. *)
Lemma align_single sql userId existingTasks currentPlan store task
      (shaped : Operation -> bool)
      (item : Client -> string -> list Task -> Operation -> M unit) :
  (shaped = createShaped /\ item = createItem
   \/ shaped = deleteShaped /\ item = deleteItem
   \/ shaped = modifyShaped /\ item = modifyItem) ->
  shaped task = true ->
  alignTasksWithPlan sql userId [Object task] existingTasks currentPlan store
  = (Returned (results (snd (item sql userId existingTasks task (mkState store noResults)))),
     db (snd (item sql userId existingTasks task (mkState store noResults)))).
Proof.
  intros Hwhich Hs.
  change [Object task] with (map Object [task]). rewrite align_objects.
  unfold afterLoops; simpl.
  destruct (shapes_exclusive task) as (Hc & Hd & Hm).
  destruct Hwhich as [[-> ->]|[[-> ->]|[-> ->]]]; rewrite Hs.
  - destruct (Hc Hs) as [-> ->]. reflexivity.
  - destruct (Hd Hs) as [-> ->]. reflexivity.
  - destruct (Hm Hs) as [-> ->]. reflexivity.
Qed.



(** *** Operations that no filter selects *)

Lemma filter_skip {A} (f : A -> bool) l1 x l2 :
  f x = false -> filter f (l1 ++ x :: l2) = filter f (l1 ++ l2).
Proof.
  intros H. rewrite !filter_app. simpl. now rewrite H.
Qed.

(** C1 (the code departs from the claim).  An operation that none of the
    three filters selects, such as one that carries an id and no action, or
    one whose action is none of the eight recognised words, leaves no trace:
    the call returns what it returns for the batch without that operation,
    and on the batch of that one operation it returns the four lists empty
    and the store untouched.  No conflict is recorded for it. *)
Theorem unselected_operation_leaves_no_trace :
  forall (sql : Client) (userId : string) (before after : list Operation)
         (existingTasks : list Task) (currentPlan : value) (store : Store)
         (task : Operation),
    createShaped task = false ->
    deleteShaped task = false ->
    modifyShaped task = false ->
    alignTasksWithPlan sql userId (map Object (before ++ task :: after))
                       existingTasks currentPlan store
    = alignTasksWithPlan sql userId (map Object (before ++ after))
                         existingTasks currentPlan store
    /\ alignTasksWithPlan sql userId [Object task] existingTasks currentPlan store
       = (Returned noResults, store).
Proof.
  intros sql userId before after existingTasks currentPlan store task Hc Hd Hm.
  split.
  - rewrite !align_objects. unfold afterLoops.
    now rewrite !filter_skip by assumption.
  - change [Object task] with (map Object [task]). rewrite align_objects.
    unfold afterLoops; simpl. rewrite Hc, Hd, Hm. reflexivity.
Qed.

Lemma unselected_operation_leaves_no_trace_witness :
  (alignTasksWithPlan steadyClient "user_1"
                      (map Object ([] ++ idWithoutAction :: [archiveWorkout]))
                      [workout] Null (mkStore [workout] 0)
   = alignTasksWithPlan steadyClient "user_1" (map Object ([] ++ [archiveWorkout]))
                        [workout] Null (mkStore [workout] 0)
   /\ alignTasksWithPlan steadyClient "user_1" [Object idWithoutAction]
                         [workout] Null (mkStore [workout] 0)
      = (Returned noResults, mkStore [workout] 0))
  /\ alignTasksWithPlan steadyClient "user_1" [Object archiveWorkout]
                        [workout] Null (mkStore [workout] 0)
     = (Returned noResults, mkStore [workout] 0).
Proof.
  split.
  - apply (unselected_operation_leaves_no_trace steadyClient "user_1" []
             [archiveWorkout] [workout] Null (mkStore [workout] 0) idWithoutAction);
      reflexivity.
  - apply (unselected_operation_leaves_no_trace steadyClient "user_1" [] []
             [workout] Null (mkStore [workout] 0) archiveWorkout);
      reflexivity.
Defined.

(** *** The direct modify *)

Lemma coalesce_or x column : coalesce (or x Null) column = or x column.
Proof.
  unfold or. destruct x as [| |b|n|s|o]; simpl; try reflexivity.
  - destruct b; reflexivity.
  - destruct (n =? 0)%Z; reflexivity.
  - destruct (s =? ""); reflexivity.
Qed.

Lemma valid_uuid_truthy v : isValidUUID v = true -> truthy v = true.
Proof.
  unfold isValidUUID. destruct (truthy v); [reflexivity|discriminate].
Qed.

Lemma modifyItem_direct sql userId existingTasks task st :
  fails sql (issued (db st)) = false ->
  isValidUUID (id task) = true ->
  exists rs,
    modifyItem sql userId existingTasks task st
    = (Returned tt,
       mkState (touched st (snd (coalescedRows userId task (rows (db st))))) rs).
Proof.
  intros Hf Hv. unfold modifyItem, tryCatch, modifyBody.
  rewrite (valid_uuid_truthy _ Hv), Hv; simpl.
  unfold bind, query, Db.query. rewrite Hf; simpl.
  unfold coalescedRows; simpl.
  destruct (map _ (filter _ _)); simpl; eexists; reflexivity.
Qed.

(** C2 (the code departs from the claim).  A modify-shaped operation with
    a well-formed id that addresses a row of the user keeps the row's
    title, duration, importance and status where the operation leaves them
    unset, but writes [null] over the row's scheduled time when the
    operation leaves [scheduledTime] unset, whatever time the row had. *)
Theorem direct_modify_clears_unset_scheduled_time :
  forall (sql : Client) (userId : string) (existingTasks : list Task)
         (task : Operation) (st : State) (r : Task),
    fails sql (issued (db st)) = false ->
    isValidUUID (id task) = true ->
    In r (rows (db st)) ->
    addressed (id task) userId r = true ->
    truthy (scheduledTime task) = false ->
    exists st',
      modifyItem sql userId existingTasks task st = (Returned tt, st')
      /\ In (mkTask (task_id r) (user_id r)
                    (or (title task) (task_title r))
                    (or (duration task) (duration_minutes r))
                    (or (importance task) (task_importance r))
                    (or (status task) (task_status r))
                    Null)
            (rows (db st')).
Proof.
  intros sql userId existingTasks task st r Hf Hv Hin Ha Hs.
  destruct (modifyItem_direct sql userId existingTasks task st Hf Hv) as [rs E].
  eexists; split; [exact E|]. simpl.
  unfold coalescedRows, updateTaskCoalesce; simpl.
  apply in_map_iff. exists r; split; [|assumption].
  rewrite Ha. unfold updateOne. rewrite !coalesce_or.
  unfold or at 5. rewrite Hs. reflexivity.
Qed.

Lemma direct_modify_clears_unset_scheduled_time_witness :
  scheduled_time draftReport = Str "09:00"
  /\ alignTasksWithPlan steadyClient "user_1" [Object markDraftDone] [draftReport]
                        Null (mkStore [draftReport] 0)
     = (Returned (mkResults [] [mkModified (id markDraftDone) (Str "Draft report") None]
                            [] []),
        mkStore [mkTask (task_id draftReport) "user_1" (Str "Draft report") (Num 60)
                        (Str "high") (Str "done") Null] 1)
  /\ exists st',
      modifyItem steadyClient "user_1" [draftReport] markDraftDone
                 (mkState (mkStore [draftReport] 0) noResults)
      = (Returned tt, st')
      /\ In (mkTask (task_id draftReport) (user_id draftReport)
                    (Str "Draft report") (Num 60) (Str "high") (Str "done") Null)
            (rows (db st')).
Proof.
  split; [reflexivity|]. split; [vm_compute; reflexivity|].
  apply (direct_modify_clears_unset_scheduled_time steadyClient "user_1"
           [draftReport] markDraftDone
           (mkState (mkStore [draftReport] 0) noResults) draftReport).
  - reflexivity.
  - vm_compute; reflexivity.
  - simpl; auto.
  - vm_compute; reflexivity.
  - reflexivity.
Defined.

(** *** Failures of single items *)

Lemma in_last {A} (x : A) l : In x (l ++ [x]).
Proof. apply in_or_app; right; now left. Qed.

(** The rescue by title lets nothing out and pushes no conflict; when the
    store fails its query, it leaves the table and [deletedTasks] (or
    [modifiedTasks]) as they were. *)
Lemma deleteRescue_quiet sql userId existingTasks task st :
  exists st',
    deleteRescue sql userId existingTasks task st = (Returned tt, st')
    /\ conflicts (results st') = conflicts (results st)
    /\ insertedTasks (results st') = insertedTasks (results st)
    /\ modifiedTasks (results st') = modifiedTasks (results st)
    /\ (fails sql (issued (db st)) = true ->
        deletedTasks (results st') = deletedTasks (results st)
        /\ rows (db st') = rows (db st)).
Proof.
  unfold deleteRescue, tryCatch, bind, lift.
  destruct (findE (sameTitle task) existingTasks) as [[m|]|e];
    try (eexists; repeat split; reflexivity).
  destruct (isValidUUID (Str (task_id m)));
    [|eexists; repeat split; reflexivity].
  unfold query, Db.query, pushDeleted, push.
  destruct (fails sql (issued (db st))); cbn.
  - eexists; repeat split; reflexivity.
  - eexists; repeat split; try reflexivity; discriminate.
Qed.

Lemma modifyRescue_quiet sql userId existingTasks task st :
  exists st',
    modifyRescue sql userId existingTasks task st = (Returned tt, st')
    /\ conflicts (results st') = conflicts (results st)
    /\ insertedTasks (results st') = insertedTasks (results st)
    /\ deletedTasks (results st') = deletedTasks (results st)
    /\ (fails sql (issued (db st)) = true ->
        modifiedTasks (results st') = modifiedTasks (results st)
        /\ rows (db st') = rows (db st)).
Proof.
  unfold modifyRescue, tryCatch, bind, lift.
  destruct (findE (sameTitle task) existingTasks) as [[m|]|e];
    try (eexists; repeat split; reflexivity).
  destruct (isValidUUID (Str (task_id m)));
    [|eexists; repeat split; reflexivity].
  unfold query, Db.query, pushModified, push.
  destruct (fails sql (issued (db st))); cbn.
  - eexists; repeat split; reflexivity.
  - eexists; repeat split; try reflexivity; discriminate.
Qed.

(** An item with an id that is no UUID leaves its invalid-format conflict
    and no other, whatever its rescue did. *)
Lemma deleteItem_invalid_id sql userId existingTasks task st :
  truthy (id task) = true ->
  isValidUUID (id task) = false ->
  exists st',
    deleteItem sql userId existingTasks task st = (Returned tt, st')
    /\ conflicts (results st') = conflicts (results st) ++ [DeleteInvalidUUID (id task)]
    /\ insertedTasks (results st') = insertedTasks (results st)
    /\ modifiedTasks (results st') = modifiedTasks (results st)
    /\ (fails sql (issued (db st)) = true ->
        deletedTasks (results st') = deletedTasks (results st)
        /\ rows (db st') = rows (db st)).
Proof.
  intros Hid Hbad. unfold deleteItem, tryCatch, deleteBody.
  rewrite Hid, Hbad. cbn [negb]. unfold bind at 1, pushConflict, push.
  destruct (deleteRescue_quiet sql userId existingTasks task
              (mkState (db st) (addConflict (DeleteInvalidUUID (id task)) (results st))))
    as (st' & E & Hc & Hi & Hm & Hf).
  rewrite E. exists st'. repeat split; auto; now apply Hf.
Qed.

Lemma modifyItem_invalid_id sql userId existingTasks task st :
  truthy (id task) = true ->
  isValidUUID (id task) = false ->
  exists st',
    modifyItem sql userId existingTasks task st = (Returned tt, st')
    /\ conflicts (results st') = conflicts (results st) ++ [ModifyInvalidUUID (id task)]
    /\ insertedTasks (results st') = insertedTasks (results st)
    /\ deletedTasks (results st') = deletedTasks (results st)
    /\ (fails sql (issued (db st)) = true ->
        modifiedTasks (results st') = modifiedTasks (results st)
        /\ rows (db st') = rows (db st)).
Proof.
  intros Hid Hbad. unfold modifyItem, tryCatch, modifyBody.
  rewrite Hid, Hbad. cbn [negb]. unfold bind at 1, pushConflict, push.
  destruct (modifyRescue_quiet sql userId existingTasks task
              (mkState (db st) (addConflict (ModifyInvalidUUID (id task)) (results st))))
    as (st' & E & Hc & Hi & Hm & Hf).
  rewrite E. exists st'. repeat split; auto; now apply Hf.
Qed.

(** Whatever way the body of a loop takes, it leaves a record that names
    its operation. *)
Lemma createItem_accounted sql userId existingTasks task st :
  createAccounted task (results (snd (createItem sql userId existingTasks task st))).
Proof.
  unfold createItem, tryCatch, createBody, createAccounted.
  destruct (validTitle (title task)) as [ttl|] eqn:Et;
    [|left; apply in_last].
  apply validTitle_some in Et as [Et _].
  destruct (validDuration (duration task)) as [n|] eqn:Ed;
    [|right; right; exists ttl; split; [exact Et|left; apply in_last]].
  unfold bind, lift.
  destruct (findE (similarTo ttl) existingTasks) as [[ex|]|e].
  - right; right; exists ttl; split; [exact Et|].
    right; left. eexists. apply in_last.
  - unfold query, Db.query, pushConflict, pushInserted, push.
    destruct (fails sql (issued (db st))); cbn.
    + right; left. apply in_last.
    + right; right; exists ttl; split; [exact Et|].
      right; right. eexists. split; [apply in_last|reflexivity].
  - right; left. apply in_last.
Qed.

Lemma deleteItem_accounted sql userId existingTasks task st :
  deleteAccounted task (results (snd (deleteItem sql userId existingTasks task st))).
Proof.
  unfold deleteAccounted.
  destruct (truthy (id task)) eqn:Hid.
  - destruct (isValidUUID (id task)) eqn:Ev.
    + unfold deleteItem, tryCatch, deleteBody. rewrite Hid, Ev. cbn [negb].
      unfold bind, query, Db.query, pushConflict, pushDeleted, push.
      destruct (fails sql (issued (db st))); cbn.
      * do 3 right; left. apply in_last.
      * destruct (filter (addressed (id task) userId) (rows (db st))); cbn.
        -- do 2 right; left. apply in_last.
        -- do 4 right. eexists. split; [apply in_last|reflexivity].
    + destruct (deleteItem_invalid_id sql userId existingTasks task st Hid Ev)
        as (st' & E & Hc & _).
      rewrite E. cbn [snd]. right; left. rewrite Hc. apply in_last.
  - rewrite deleteItem_without_id by assumption. left. apply in_last.
Qed.

Lemma modifyItem_accounted sql userId existingTasks task st :
  modifyAccounted task (results (snd (modifyItem sql userId existingTasks task st))).
Proof.
  unfold modifyAccounted.
  destruct (truthy (id task)) eqn:Hid.
  - destruct (isValidUUID (id task)) eqn:Ev.
    + unfold modifyItem, tryCatch, modifyBody. rewrite Hid, Ev. cbn [negb].
      unfold bind, query, Db.query, pushConflict, pushModified, push.
      destruct (fails sql (issued (db st))); cbn.
      * do 3 right; left. apply in_last.
      * destruct (map _ (filter (addressed (id task) userId) (rows (db st)))); cbn.
        -- do 2 right; left. apply in_last.
        -- do 4 right. eexists. split; [apply in_last|reflexivity].
    + destruct (modifyItem_invalid_id sql userId existingTasks task st Hid Ev)
        as (st' & E & Hc & _).
      rewrite E. cbn [snd]. right; left. rewrite Hc. apply in_last.
  - rewrite modifyItem_without_id by assumption. left. apply in_last.
Qed.

(** Records are never taken back. *)
Lemma createAccounted_kept task st st' :
  keeps st st' ->
  createAccounted task (results st) -> createAccounted task (results st').
Proof.
  intros (Ki & _ & _ & Kc).
  intros [H|[H|(ttl & Ht & [H|[(ex & H)|(x & H & Hx)]])]].
  - left; auto.
  - right; left; auto.
  - right; right; exists ttl; split; [exact Ht|left; auto].
  - right; right; exists ttl; split; [exact Ht|right; left; exists ex; auto].
  - right; right; exists ttl; split; [exact Ht|right; right; exists x; auto].
Qed.

Lemma deleteAccounted_kept task st st' :
  keeps st st' ->
  deleteAccounted task (results st) -> deleteAccounted task (results st').
Proof.
  intros (_ & _ & Kd & Kc). unfold deleteAccounted.
  intros [H|[H|[H|[H|(d & H & Hd)]]]]; auto 6.
  do 4 right. exists d; auto.
Qed.

Lemma modifyAccounted_kept task st st' :
  keeps st st' ->
  modifyAccounted task (results st) -> modifyAccounted task (results st').
Proof.
  intros (_ & Km & _ & Kc). unfold modifyAccounted.
  intros [H|[H|[H|[H|(m & H & Hm)]]]]; auto 6.
  do 4 right. exists m; auto.
Qed.

(** A storage error on the query of an item. *)
Lemma findE_none {A} (p : A -> outcome bool) l :
  (forall x, In x l -> p x = Returned false) -> findE p l = Returned None.
Proof.
  induction l as [|x l IH]; intros H; cbn [findE]; [reflexivity|].
  rewrite (H x) by now left. apply IH. intros y Hy. apply H. now right.
Qed.

Lemma createItem_fault sql userId existingTasks task ttl n st :
  fails sql (issued (db st)) = true ->
  validTitle (title task) = Some ttl ->
  validDuration (duration task) = Some n ->
  (forall x, In x existingTasks -> similarTo ttl x = Returned false) ->
  createItem sql userId existingTasks task st
  = (Returned tt,
     mkState (mkStore (rows (db st)) (S (issued (db st))))
             (addConflict (CreateFailed (title task)) (results st))).
Proof.
  intros Hf Ht Hd Hnone. unfold createItem, tryCatch, createBody.
  rewrite Ht, Hd. unfold bind, lift. rewrite (findE_none _ _ Hnone).
  unfold query, Db.query. rewrite Hf. reflexivity.
Qed.

Lemma createItem_title_fault sql userId existingTasks task ttl n x others st :
  validTitle (title task) = Some ttl ->
  validDuration (duration task) = Some n ->
  existingTasks = x :: others ->
  (forall s, task_title x <> Str s) ->
  createItem sql userId existingTasks task st
  = (Returned tt,
     mkState (db st) (addConflict (CreateFailed (title task)) (results st))).
Proof.
  intros Ht Hd -> Hx. unfold createItem, tryCatch, createBody.
  rewrite Ht, Hd. unfold bind, lift. cbn [findE]. unfold similarTo at 1.
  destruct (task_title x) as [| |b|k|s|o]; try reflexivity.
  now destruct (Hx s).
Qed.

Lemma deleteItem_fault sql userId existingTasks task st :
  fails sql (issued (db st)) = true ->
  isValidUUID (id task) = true ->
  deleteItem sql userId existingTasks task st
  = (Returned tt,
     mkState (mkStore (rows (db st)) (S (issued (db st))))
             (addConflict (DeleteFailed (id task)) (results st))).
Proof.
  intros Hf Hv. unfold deleteItem, tryCatch, deleteBody.
  rewrite (valid_uuid_truthy _ Hv), Hv. cbn [negb].
  unfold bind, query, Db.query. rewrite Hf. reflexivity.
Qed.

Lemma modifyItem_fault sql userId existingTasks task st :
  fails sql (issued (db st)) = true ->
  isValidUUID (id task) = true ->
  modifyItem sql userId existingTasks task st
  = (Returned tt,
     mkState (mkStore (rows (db st)) (S (issued (db st))))
             (addConflict (ModifyFailed (id task)) (results st))).
Proof.
  intros Hf Hv. unfold modifyItem, tryCatch, modifyBody.
  rewrite (valid_uuid_truthy _ Hv), Hv. cbn [negb].
  unfold bind, query, Db.query. rewrite Hf. reflexivity.
Qed.




(** *** Durations of the inserted tasks *)

Lemma validDuration_some v n :
  validDuration v = Some n -> v = Num n /\ (0 < n)%Z.
Proof.
  unfold validDuration. destruct v as [| |b|k|s|o]; try discriminate.
  destruct (negb (truthy (Num k)) || negb (isNumber (Num k)) || (k <=? 0)%Z) eqn:E;
    [discriminate|].
  intros H; inversion H; subst. split; [reflexivity|].
  apply orb_false_iff in E as [_ E]. apply Z.leb_gt in E. exact E.
Qed.

Lemma or_positive n d : (0 < n)%Z -> or (Num n) d = Num n.
Proof.
  intros H. unfold or; simpl.
  replace (n =? 0)%Z with false by (symmetry; apply Z.eqb_neq; lia). reflexivity.
Qed.

(** What the body of the create loop writes: nothing, or one row and its
    record, made from the operation; when the store does not fail the
    query, it writes them exactly for an operation that is [insertable]. *)
Lemma createItem_written sql userId existingTasks task st :
  (rows (db (snd (createItem sql userId existingTasks task st))) = rows (db st)
   /\ insertedTasks (results (snd (createItem sql userId existingTasks task st)))
      = insertedTasks (results st)
   /\ (fails sql (issued (db st)) = false -> insertable existingTasks task = false))
  \/ exists x,
      insertedFrom task x
      /\ rows (db (snd (createItem sql userId existingTasks task st)))
         = rows (db st) ++ [rowOf userId x]
      /\ insertedTasks (results (snd (createItem sql userId existingTasks task st)))
         = insertedTasks (results st) ++ [x]
      /\ insertable existingTasks task = true.
Proof.
  unfold createItem, tryCatch, createBody, insertable.
  destruct (validTitle (title task)) as [ttl|] eqn:Et;
    [|left; repeat split; reflexivity].
  destruct (validDuration (duration task)) as [n|] eqn:Ed;
    [|left; repeat split; reflexivity].
  unfold bind, lift.
  destruct (findE (similarTo ttl) existingTasks) as [[ex|]|e];
    try (left; repeat split; reflexivity).
  unfold query, Db.query, pushConflict, pushInserted, push.
  destruct (fails sql (issued (db st))); cbn.
  - left; repeat split; try reflexivity. discriminate.
  - right.
    exists (mkInserted (newId sql (issued (db st))) (trim ttl)
                       (or (duration task) (Num 30))
                       (or (importance task) (Str "medium"))
                       (or (scheduledTime task) Null) "todo").
    split; [|repeat split; reflexivity].
    apply validTitle_some in Et as [Et _].
    destruct (validDuration_some _ _ Ed) as [Hn Hpos].
    exists ttl, n. cbn [new_title new_duration].
    rewrite Hn, or_positive by assumption. auto.
Qed.

(** The create loop: the table grows by the rows of the records that
    [insertedTasks] grows by, each made from an operation of the loop; when
    the store fails no query, from the [insertable] ones, one by one. *)
Lemma creates_written sql userId existingTasks ops rows0 l :
  incl l (filter createShaped ops) ->
  forall st created0,
    Forall (fun task => In task ops /\ createShaped task = true) created0 ->
    Forall2 insertedFrom created0 (insertedTasks (results st)) ->
    rows (db st) = rows0 ++ map (rowOf userId) (insertedTasks (results st)) ->
    exists created,
      Forall (fun task => In task ops /\ createShaped task = true) created
      /\ Forall2 insertedFrom created
                 (insertedTasks
                    (results (fold_left
                                (fun s x => snd (createItem sql userId existingTasks x s))
                                l st)))
      /\ rows (db (fold_left
                     (fun s x => snd (createItem sql userId existingTasks x s))
                     l st))
         = rows0
           ++ map (rowOf userId)
                  (insertedTasks
                     (results (fold_left
                                 (fun s x => snd (createItem sql userId existingTasks x s))
                                 l st)))
      /\ ((forall n, fails sql n = false) ->
          created = created0 ++ filter (insertable existingTasks) l).
Proof.
  induction l as [|task l IH]; intros Hl st created0 Hall Hfrom Hrows;
    cbn [fold_left filter].
  - exists created0. rewrite app_nil_r. auto.
  - assert (Hsel : In task (filter createShaped ops)) by (apply Hl; now left).
    apply filter_In in Hsel.
    assert (Hl' : incl l (filter createShaped ops))
      by (intros y Hy; apply Hl; now right).
    destruct (createItem_written sql userId existingTasks task st)
      as [(Er & Ei & Hno)|(x & Hx & Er & Ei & Hyes)].
    + destruct (IH Hl' (snd (createItem sql userId existingTasks task st)) created0)
        as (created & H1 & H2 & H3 & H4);
        [exact Hall|now rewrite Ei|now rewrite Er, Ei|].
      exists created. repeat split; auto.
      intros Hok. rewrite (Hno (Hok _)). now apply H4.
    + destruct (IH Hl' (snd (createItem sql userId existingTasks task st))
                   (created0 ++ [task]))
        as (created & H1 & H2 & H3 & H4).
      * apply Forall_app. split; [exact Hall|]. constructor; [exact Hsel|constructor].
      * rewrite Ei. apply Forall2_app; [exact Hfrom|].
        constructor; [exact Hx|constructor].
      * rewrite Er, Ei, Hrows, map_app, <- app_assoc. reflexivity.
      * exists created. repeat split; auto.
        intros Hok. rewrite Hyes, (H4 Hok), <- app_assoc. reflexivity.
Qed.

Lemma delete_same_inserted sql userId existingTasks task st st' :
  DeleteEffect sql userId existingTasks task st st' ->
  insertedTasks (results st') = insertedTasks (results st).
Proof. destruct 1; reflexivity. Qed.

Lemma modify_same_inserted sql userId existingTasks task st st' :
  ModifyEffect sql userId existingTasks task st st' ->
  insertedTasks (results st') = insertedTasks (results st).
Proof. destruct 1; reflexivity. Qed.

Lemma deletes_same_inserted sql userId existingTasks l st :
  insertedTasks (results (fold_left (fun s t => snd (deleteItem sql userId existingTasks t s)) l st))
  = insertedTasks (results st).
Proof.
  symmetry.
  apply (fold_invariant (fun s t => snd (deleteItem sql userId existingTasks t s))
           (fun a b => insertedTasks (results a) = insertedTasks (results b)));
    try congruence.
  intros s t. symmetry.
  eapply delete_same_inserted, deleteItem_snd_effect.
Qed.

Lemma modifies_same_inserted sql userId existingTasks l st :
  insertedTasks (results (fold_left (fun s t => snd (modifyItem sql userId existingTasks t s)) l st))
  = insertedTasks (results st).
Proof.
  symmetry.
  apply (fold_invariant (fun s t => snd (modifyItem sql userId existingTasks t s))
           (fun a b => insertedTasks (results a) = insertedTasks (results b)));
    try congruence.
  intros s t. symmetry.
  eapply modify_same_inserted, modifyItem_snd_effect.
Qed.

End AlignmentClaims.

(** ** Durations of AI-sourced tasks *)

Section Durations.

Import Js Db Alignment AiController Samples.
Local Open Scope list_scope.

Lemma mapE_in {A B} (f : A -> outcome B) l ys :
  mapE f l = Returned ys ->
  forall y, In y ys -> exists x, In x l /\ f x = Returned y.
Proof.
  revert ys; induction l as [|x l IH]; simpl; intros ys H y Hy.
  - inversion H; subst. destruct Hy.
  - destruct (f x) as [y0|e] eqn:Ef; [|discriminate].
    destruct (mapE f l) as [r|e]; [|discriminate].
    inversion H; subst. destruct Hy as [<-|Hy].
    + exists x; auto.
    + destruct (IH r eq_refl y Hy) as (x' & Hx' & Hf). exists x'; auto.
Qed.

Lemma clampDuration_range d : (5 <= clampDuration d <= 480)%Z.
Proof. unfold clampDuration. lia. Qed.

Lemma cleanTask_duration task t :
  cleanTask task = Returned t -> exists d, x_duration t = clampDuration d.
Proof.
  unfold cleanTask.
  destruct (title task); try discriminate.
  destruct (duration task) as [| |b|d|s0|o]; try discriminate.
  destruct (truthy (notes task)).
  - destruct (notes task); try discriminate.
    intros H; inversion H; subst; simpl; eauto.
  - intros H; inversion H; subst; simpl; eauto.
Qed.

Lemma filter_none {A} (f : A -> bool) l :
  (forall x, In x l -> f x = false) -> filter f l = [].
Proof.
  induction l as [|x l IH]; intros H; cbn [filter]; [reflexivity|].
  rewrite (H x) by now left. apply IH. intros y Hy. apply H. now right.
Qed.

(** C9 (amended).  The tasks extracted from a voice transcript have their
    duration clamped to 5..480 minutes.  The create pass of the alignment
    engine does not clamp.  On a batch of objects, the records of
    [insertedTasks] are made, one by one and in their order, from
    create-shaped operations of the batch: each has the duration that its
    operation proposed, unchanged, a number above zero.  When the store
    fails no query these operations are the create-shaped operations of the
    batch that have a valid title, a valid duration and no similar existing
    task, in the order of the batch.  The create pass
    writes to the table one row for each of these records, with the duration
    of the record, after the rows that were there; when the batch has no
    delete-shaped and no modify-shaped operation, this is the table that the
    call leaves.  On every batch, an inserted record has the duration of a
    create-shaped operation of the batch. *)
Theorem ai_task_durations :
  forall (sql : Client) (userId : string) (batch : list Proposed)
         (existingTasks : list Task) (currentPlan : value) (store : Store)
         (extractedTasks : list (element RawTask)),
    (forall ts,
        validTasks extractedTasks = Returned ts ->
        forall t, In t ts -> (5 <= x_duration t <= 480)%Z)
    /\ (forall ops,
           batch = map Object ops ->
           exists res store' created,
             alignTasksWithPlan sql userId batch existingTasks currentPlan store
             = (Returned res, store')
             /\ Forall (fun task => In task ops /\ Alignment.createShaped task = true)
                       created
             /\ Forall2 insertedFrom created (insertedTasks res)
             /\ ((forall n, fails sql n = false) ->
                 created = filter (insertable existingTasks)
                                  (filter Alignment.createShaped ops))
             /\ rows (db (createPass sql userId existingTasks ops
                                     (mkState store noResults)))
                = rows store ++ map (rowOf userId) (insertedTasks res)
             /\ ((forall task, In task ops ->
                               deleteShaped task = false /\ modifyShaped task = false) ->
                 rows store' = rows store ++ map (rowOf userId) (insertedTasks res)))
    /\ (forall res store',
           alignTasksWithPlan sql userId batch existingTasks currentPlan store
           = (Returned res, store') ->
           forall x,
             In x (insertedTasks res) ->
             exists task n,
               In (Object task) batch /\ Alignment.createShaped task = true
               /\ Alignment.duration task = Num n /\ (0 < n)%Z
               /\ new_duration x = Num n).
Proof.
  intros sql userId batch existingTasks currentPlan store extractedTasks.
  assert (Hobjects :
            forall ops,
              exists created,
                Forall (fun task => In task ops /\ Alignment.createShaped task = true)
                       created
                /\ Forall2 insertedFrom created
                           (insertedTasks
                              (results (afterLoops sql userId existingTasks ops
                                                   (mkState store noResults))))
                /\ rows (db (createPass sql userId existingTasks ops
                                        (mkState store noResults)))
                   = rows store
                     ++ map (rowOf userId)
                            (insertedTasks
                               (results (afterLoops sql userId existingTasks ops
                                                    (mkState store noResults))))
                /\ ((forall n, fails sql n = false) ->
                    created = filter (insertable existingTasks)
                                     (filter Alignment.createShaped ops))).
  { intros ops.
    assert (Ei : insertedTasks
                   (results (afterLoops sql userId existingTasks ops
                                        (mkState store noResults)))
                 = insertedTasks
                     (results (createPass sql userId existingTasks ops
                                          (mkState store noResults)))).
    { unfold afterLoops, createPass.
      now rewrite modifies_same_inserted, deletes_same_inserted. }
    rewrite Ei. unfold createPass.
    apply (creates_written sql userId existingTasks ops (rows store) _
             (incl_refl _) (mkState store noResults) []).
    - constructor.
    - constructor.
    - cbn. now rewrite app_nil_r. }
  split; [|split].
  - intros ts H t Ht. unfold validTasks in H.
    destruct (Alignment.filterE isValid extractedTasks) as [kept|e]; [|discriminate].
    destruct (mapE_in _ _ _ H t Ht) as (raw & _ & Hraw).
    destruct (cleanTask_duration _ _ Hraw) as [d ->]. apply clampDuration_range.
  - intros ops ->. rewrite align_objects.
    destruct (Hobjects ops) as (created & Hall & Hfrom & Hrows & Hexact).
    eexists _, _, created. split; [reflexivity|].
    split; [exact Hall|]. split; [exact Hfrom|]. split; [exact Hexact|].
    split; [exact Hrows|].
    intros Hnone. rewrite <- Hrows. unfold afterLoops, createPass.
    rewrite (filter_none deleteShaped ops) by (intros task Hin; apply Hnone, Hin).
    rewrite (filter_none modifyShaped ops) by (intros task Hin; apply Hnone, Hin).
    reflexivity.
  - intros res store' H x Hx.
    destruct (objects_or_nullish batch) as [Hn|[ops ->]].
    + rewrite (align_nullish _ _ _ _ _ _ Hn) in H. inversion H; subst. destruct Hx.
    + rewrite align_objects in H. inversion H; subst.
      destruct (Hobjects ops) as (created & Hall & Hfrom & _).
      clear H. revert Hall Hx.
      induction Hfrom as [|task y created inserted Hy Hrest IH]; intros Hall Hx;
        [destruct Hx|].
      inversion Hall as [|? ? [Hin Hs] Hall']; subst.
      destruct Hx as [<-|Hx]; [|now apply IH].
      destruct Hy as (ttl & n & _ & Hd & Hpos & _ & Hnew).
      exists task, n. repeat split; auto. now apply in_map.
Qed.

(** A batch of create-shaped operations only, on a store that fails no
    query: the two records are made from the two operations, with 1000 and
    2 minutes, and the table has their two rows after the row it had. *)
Lemma ai_task_durations_witness :
  alignTasksWithPlan steadyClient "user_1" (map Object [longSession; shortStretch])
                     [] Null (mkStore [workout] 0)
  = (Returned
       (mkResults
          [mkInserted (newId steadyClient 0) "Deep work session" (Num 1000)
                      (Str "medium") Null "todo";
           mkInserted (newId steadyClient 1) "Stretch" (Num 2)
                      (Str "medium") Null "todo"]
          [] [] []),
     mkStore [workout;
              mkTask (newId steadyClient 0) "user_1" (Str "Deep work session")
                     (Num 1000) (Str "medium") (Str "todo") Null;
              mkTask (newId steadyClient 1) "user_1" (Str "Stretch")
                     (Num 2) (Str "medium") (Str "todo") Null]
             2)
  /\ exists res store',
      alignTasksWithPlan steadyClient "user_1"
                         (map Object [longSession; shortStretch])
                         [] Null (mkStore [workout] 0)
      = (Returned res, store')
      /\ Forall2 insertedFrom [longSession; shortStretch] (insertedTasks res)
      /\ rows store' = rows (mkStore [workout] 0)
                       ++ map (rowOf "user_1") (insertedTasks res).
Proof.
  split; [vm_compute; reflexivity|].
  destruct (proj1 (proj2 (ai_task_durations
                            steadyClient "user_1"
                            (map Object [longSession; shortStretch]) [] Null
                            (mkStore [workout] 0) []))
                  [longSession; shortStretch] eq_refl)
    as (res & store' & created & E & Hall & Hfrom & Hexact & _ & Hrows).
  exists res, store'. split; [exact E|]. split.
  - rewrite (Hexact (fun n => eq_refl)) in Hfrom. exact Hfrom.
  - apply Hrows. intros task [<-|[<-|[]]]; split; reflexivity.
Defined.

(** C9 (the claim fails).  A create-shaped operation that proposes 1000
    minutes, and one that proposes 2 minutes, are inserted with 1000 and 2
    minutes, in [insertedTasks] and in the table. *)
Lemma create_pass_does_not_clamp :
  (exists res store',
      alignTasksWithPlan steadyClient "user_1"
                         [Object longSession; Object shortStretch] [] Null (mkStore [] 0)
      = (Returned res, store')
      /\ map new_duration (insertedTasks res) = [Num 1000; Num 2]
      /\ map duration_minutes (rows store') = [Num 1000; Num 2])
  /\ ~ (5 <= 1000 <= 480)%Z /\ ~ (5 <= 2 <= 480)%Z.
Proof.
  split; [|lia].
  eexists _, _. split; [vm_compute; reflexivity|]. split; reflexivity.
Qed.

End Durations.

(** ** The model router *)

Section RouterFacts.

Import Js Ai.
Local Open Scope list_scope.

Variable Data : Type.
Variable fetch : nat -> Request -> Reply Data.
Variable messages : list Message.
Variable options : Options.

Local Abbreviation attempt := (fun n model => Ai.attempt Data fetch n model messages options).
Local Abbreviation tryModels :=
  (fun models => Ai.tryModels Data fetch models messages options).

Local Abbreviation failedAt := (Ai.failedAt Data fetch messages options).

Lemma tryModels_cons key models count lastError first :
  tryModels (key :: models) count lastError first
  = match lookup key AI_MODELS with
    | None => tryModels models (S count) lastError first
    | Some model =>
        match attempt first model with
        | inr data =>
            inr (mkCompletion Data data
                   (name model ++ " (" ++ endpoint model ++ ")")%string (S count))
        | inl message => tryModels models (S count) (Some message) (S first)
        end
    end.
Proof.
  cbn [Ai.tryModels].
  destruct (lookup key AI_MODELS) as [model|]; [|reflexivity].
  destruct (Ai.attempt Data fetch first model messages options) as [message|data];
    [|reflexivity].
  destruct (isTransient message); reflexivity.
Qed.

Lemma tryModels_success models :
  Forall (fun key => lookup key AI_MODELS <> None) models ->
  forall count lastError first r,
    tryModels models count lastError first = inr r ->
    exists i key model,
      nth_error models i = Some key
      /\ lookup key AI_MODELS = Some model
      /\ attempt (first + i) model = inr (response r)
      /\ modelUsed r = (name model ++ " (" ++ endpoint model ++ ")")%string
      /\ attemptCount r = count + i + 1
      /\ forall j, j < i -> failedAt models first j.
Proof.
  induction 1 as [|key models Hkey Hall IH]; intros count lastError first r;
    [discriminate|].
  rewrite tryModels_cons.
  destruct (lookup key AI_MODELS) as [model|] eqn:Ek; [|congruence].
  destruct (Ai.attempt Data fetch first model messages options) as [message|data] eqn:Ea.
  - intros H'.
    destruct (IH _ _ _ _ H') as (i & k & m & Hn & Hl & Hat & Hu & Hc & Hprev).
    exists (S i), k, m. simpl. rewrite <- plus_n_Sm.
    repeat split; auto; try lia.
    intros [|j] Hj.
    + exists key, model, message. rewrite Nat.add_0_r. auto.
    + destruct (Hprev j) as (k' & m' & msg' & ? & ? & ?); [lia|].
      exists k', m', msg'. simpl. rewrite <- plus_n_Sm. auto.
  - intros H; inversion H; subst; simpl.
    exists 0, key, model. rewrite Nat.add_0_r. simpl.
    repeat split; auto; try lia.
Qed.

Lemma tryModels_failure models :
  Forall (fun key => lookup key AI_MODELS <> None) models ->
  forall count lastError first text,
    tryModels models count lastError first = inl text ->
    (forall j, j < List.length models -> failedAt models first j)
    /\ exists final,
        text = exhausted (count + List.length models) final
        /\ match models with
           | [] => final = lastError
           | _ =>
               exists key model message,
                 nth_error models (List.length models - 1) = Some key
                 /\ lookup key AI_MODELS = Some model
                 /\ attempt (first + (List.length models - 1)) model = inl message
                 /\ final = Some message
           end.
Proof.
  induction 1 as [|key models Hkey Hall IH]; intros count lastError first text.
  - simpl. intros H; inversion H; subst. split; [intros j Hj; lia|].
    exists lastError. rewrite Nat.add_0_r. auto.
  - rewrite tryModels_cons.
    destruct (lookup key AI_MODELS) as [model|] eqn:Ek; [|congruence].
    destruct (Ai.attempt Data fetch first model messages options) as [message|data] eqn:Ea;
      [|discriminate].
    intros H'.
    destruct (IH _ _ _ _ H') as (Hfail & final & Htext & Hfinal).
    split.
    + intros [|j] Hj; simpl in Hj.
      * exists key, model, message. rewrite Nat.add_0_r. auto.
      * destruct (Hfail j) as (k' & m' & msg' & ? & ? & ?); [lia|].
        exists k', m', msg'. simpl. rewrite <- plus_n_Sm. auto.
    + exists final. split.
      * rewrite Htext. f_equal. simpl List.length. lia.
      * destruct models as [|k2 models'].
        -- subst final. exists key, model, message. simpl.
           rewrite Nat.add_0_r. auto.
        -- destruct Hfinal as (k & m & msg & Hn & Hl & Hat & Hf).
           exists k, m, msg. simpl List.length in *.
           replace (S (S (List.length models')) - 1) with (S (List.length models')) by lia.
           replace (S (List.length models') - 1) with (List.length models') in * by lia.
           replace (first + S (List.length models')) with (S first + List.length models') by lia.
           simpl nth_error. auto.
Qed.

(** When every request fails with the same message, the loop ends with the
    error for all the attempts. *)
Lemma tryModels_all_fail message models :
  Forall (fun key => lookup key AI_MODELS <> None) models ->
  models <> [] ->
  (forall n model, attempt n model = inl message) ->
  forall count lastError first,
    tryModels models count lastError first
    = inl (exhausted (count + List.length models) (Some message)).
Proof.
  intros Hconf Hne Hfail.
  induction Hconf as [|key models Hkey Hall IH]; [congruence|].
  intros count lastError first. rewrite tryModels_cons.
  destruct (lookup key AI_MODELS) as [model|]; [|congruence].
  rewrite Hfail.
  destruct models as [|k2 models'].
  - cbn [Ai.tryModels List.length]. do 2 f_equal. lia.
  - rewrite IH by discriminate. cbn [List.length]. do 2 f_equal. lia.
Qed.

End RouterFacts.

Lemma lookup_in {A} key (table : list (string * A)) v :
  Ai.lookup key table = Some v -> In v (map snd table).
Proof.
  induction table as [|[k w] table IH]; simpl; [discriminate|].
  destruct (k =? key); [intros H; inversion H; auto|auto].
Qed.

(** Every priority list names configured models only, and none is empty. *)
Lemma priorities_configured taskType :
  Forall (fun key => Ai.lookup key Ai.AI_MODELS <> None) (Ai.prioritiesOf taskType)
  /\ Ai.prioritiesOf taskType <> [].
Proof.
  assert (Hall : forall l, In l (map snd Ai.TASK_MODEL_PRIORITIES) ->
                           Forall (fun key => Ai.lookup key Ai.AI_MODELS <> None) l
                           /\ l <> []).
  { intros l Hl. simpl in Hl.
    repeat (destruct Hl as [<-|Hl];
            [split; [repeat (constructor; [vm_compute; discriminate|]); constructor
                    |discriminate]|]).
    destruct Hl. }
  unfold Ai.prioritiesOf.
  destruct (Ai.lookup taskType Ai.TASK_MODEL_PRIORITIES) as [l|] eqn:E.
  - apply Hall. now apply lookup_in with (key := taskType).
  - apply Hall. vm_compute. auto.
Qed.

Section RouterClaims.

Import Js Ai.
Local Open Scope list_scope.

(** C6.  [callOptimalAI] tries the models of the task type's priority list
    in order, one request each.  When it returns, the payload is the one of
    the first model whose request succeeded, [modelUsed] is that model's
    name and endpoint, [attemptCount] is its position in the list, and the
    request of every model before it failed.  When it throws, the request of
    every model of the list failed, and the message of the error is
    "All AI models failed after N attempts. Last error: " followed by the
    message of the error of the last model of the list (by "Unknown error"
    when that message is empty), N being the length of the list.  When the
    first two requests are answered with HTTP 429 and the third one
    succeeds, [attemptCount] is 3 and [modelUsed] names the third model.
    When every request is answered with an HTTP error, the call throws, and
    the message ends with the status and the text of that answer. *)
Theorem callOptimalAI_first_success :
  forall (Data : Type) (fetch : nat -> Request -> Reply Data)
         (messages : list Message) (taskType : string) (options : Options),
    (forall r,
        callOptimalAI Data fetch messages taskType options = inr r ->
        exists i key model,
          nth_error (prioritiesOf taskType) i = Some key
          /\ lookup key AI_MODELS = Some model
          /\ attempt Data fetch i model messages options = inr (response r)
          /\ modelUsed r = (name model ++ " (" ++ endpoint model ++ ")")%string
          /\ attemptCount r = S i
          /\ forall j, j < i ->
                       failedAt Data fetch messages options (prioritiesOf taskType) 0 j)
    /\ (forall text,
           callOptimalAI Data fetch messages taskType options = inl text ->
           (forall j, j < List.length (prioritiesOf taskType) ->
                      failedAt Data fetch messages options (prioritiesOf taskType) 0 j)
           /\ exists key model message,
               nth_error (prioritiesOf taskType)
                         (List.length (prioritiesOf taskType) - 1) = Some key
               /\ lookup key AI_MODELS = Some model
               /\ attempt Data fetch (List.length (prioritiesOf taskType) - 1)
                          model messages options = inl message
               /\ text
                  = ("All AI models failed after "
                     ++ decimal (Z.of_nat (List.length (prioritiesOf taskType)))
                     ++ " attempts. Last error: "
                     ++ (if message =? "" then "Unknown error" else message))%string)
    /\ (forall k1 k2 k3 others m1 m2 m3 t1 t2 j1 j2 text3 data,
           prioritiesOf taskType = k1 :: k2 :: k3 :: others ->
           lookup k1 AI_MODELS = Some m1 ->
           lookup k2 AI_MODELS = Some m2 ->
           lookup k3 AI_MODELS = Some m3 ->
           (forall request, fetch 0 request = Responded false 429 (inr t1) j1) ->
           (forall request, fetch 1 request = Responded false 429 (inr t2) j2) ->
           (forall request, fetch 2 request = Responded true 200 text3 (inr data)) ->
           callOptimalAI Data fetch messages taskType options
           = inr (mkCompletion Data data
                               (name m3 ++ " (" ++ endpoint m3 ++ ")")%string 3))
    /\ (forall status errorText json,
           (forall n request,
               fetch n request = Responded false status (inr errorText) json) ->
           callOptimalAI Data fetch messages taskType options
           = inl ("All AI models failed after "
                  ++ decimal (Z.of_nat (List.length (prioritiesOf taskType)))
                  ++ " attempts. Last error: HTTP " ++ decimal status ++ ": "
                  ++ errorText)%string).
Proof.
  intros Data fetch messages taskType options.
  destruct (priorities_configured taskType) as [Hconf Hne].
  unfold callOptimalAI. split; [|split; [|split]].
  - intros r H.
    destruct (tryModels_success Data fetch messages options _ Hconf _ _ _ _ H)
      as (i & key & model & Hn & Hl & Ha & Hu & Hc & Hprev).
    exists i, key, model. simpl in *. repeat split; auto. lia.
  - intros text H.
    destruct (tryModels_failure Data fetch messages options _ Hconf _ _ _ _ H)
      as (Hfail & final & Htext & Hfinal).
    split; [exact Hfail|].
    destruct (prioritiesOf taskType) as [|k l] eqn:Ep; [congruence|].
    destruct Hfinal as (key & model & message & Hn & Hl & Ha & ->).
    exists key, model, message. repeat split; auto.
  - intros k1 k2 k3 others m1 m2 m3 t1 t2 j1 j2 text3 data Hp H1 H2 H3 F0 F1 F2.
    rewrite Hp.
    rewrite tryModels_cons, H1. unfold attempt at 1. rewrite F0. cbn [negb].
    rewrite tryModels_cons, H2. unfold attempt at 1. rewrite F1. cbn [negb].
    rewrite tryModels_cons, H3. unfold attempt at 1. rewrite F2. reflexivity.
  - intros status errorText json Hfetch.
    rewrite (tryModels_all_fail Data fetch messages options
               ("HTTP " ++ decimal status ++ ": " ++ errorText)%string
               _ Hconf Hne).
    + unfold exhausted. cbn [Nat.add String.eqb Ascii.eqb Bool.eqb]. reflexivity.
    + intros n model. unfold attempt. rewrite Hfetch. reflexivity.
Qed.

Lemma callOptimalAI_first_success_witness :
  (callOptimalAI string twoRateLimits [] "voice-extraction" noOptions
   = inr thirdModelCompletion
   /\ attemptCount thirdModelCompletion = 3
   /\ exists i key model,
       nth_error (prioritiesOf "voice-extraction") i = Some key
       /\ lookup key AI_MODELS = Some model
       /\ attempt string twoRateLimits i model [] noOptions
          = inr (response thirdModelCompletion)
       /\ modelUsed thirdModelCompletion
          = (name model ++ " (" ++ endpoint model ++ ")")%string
       /\ attemptCount thirdModelCompletion = S i
       /\ forall j, j < i ->
                    failedAt string twoRateLimits [] noOptions
                             (prioritiesOf "voice-extraction") 0 j)
  /\ callOptimalAI string Samples.alwaysRateLimited [] "json-parsing" noOptions
     = inl "All AI models failed after 5 attempts. Last error: HTTP 429: slow down"%string
  /\ callOptimalAI string Samples.alwaysRateLimited [] "voice-extraction" noOptions
     = inl "All AI models failed after 6 attempts. Last error: HTTP 429: slow down"%string.
Proof.
  split; [|split; [|vm_compute; reflexivity]].
  - split; [vm_compute; reflexivity|]. split; [reflexivity|].
    apply (proj1 (callOptimalAI_first_success string twoRateLimits []
                    "voice-extraction" noOptions) thirdModelCompletion).
    vm_compute; reflexivity.
  - apply (proj2 (proj2 (proj2 (callOptimalAI_first_success
                                  string Samples.alwaysRateLimited []
                                  "json-parsing" noOptions)))
             429%Z "slow down"%string (inl "no body"%string)).
    reflexivity.
Defined.

End RouterClaims.

(** ** The response sanitizer *)

Section SanitizerClaims.

Import Js Ai Samples.
Local Open Scope list_scope.

Lemma fallback_not_empty : fallback <> "".
Proof. discriminate. Qed.

(** Without the truncation the result is never empty. *)
Lemma cleanAIResponse_short_not_empty raw :
  (String.length (strip raw) <= 1000)%nat ->
  cleanAIResponse (Str raw) <> "".
Proof.
  unfold cleanAIResponse. generalize (strip raw) as cleaned. intros cleaned Hlen.
  destruct (negb (truthy (Str raw))); [apply fallback_not_empty|].
  destruct (negb (truthy (Str cleaned)) || (String.length cleaned <? 10)%nat) eqn:E;
    [apply fallback_not_empty|].
  unfold truncate.
  replace (1000 <? String.length cleaned)%nat with false
    by (symmetry; apply Nat.ltb_ge; exact Hlen).
  apply orb_false_iff in E as [_ E]. apply Nat.ltb_ge in E.
  intros H. rewrite H in E. simpl in E. lia.
Qed.

(** C8 (the code departs from the claim).  When the stripped text is longer
    than 1000 characters and its first sentence is longer than 800, the loop
    of the truncation stops before it has taken anything, and
    [cleanAIResponse] returns the empty string, not the fallback. *)
Theorem cleanAIResponse_empty_on_long_first_sentence :
  forall (raw first : string) (others : list string),
    truthy (Str raw) = true ->
    (1000 < String.length (strip raw))%nat ->
    Regex.split false sentenceEndRe (strip raw) = first :: others ->
    (800 < String.length first)%nat ->
    cleanAIResponse (Str raw) = "".
Proof.
  intros raw first others Hraw. unfold cleanAIResponse. rewrite Hraw. cbn [negb].
  generalize (strip raw) as cleaned. intros cleaned Hlen Hsplit Hfirst.
  assert (Hne : truthy (Str cleaned) = true).
  { destruct cleaned; [simpl in Hlen; lia|reflexivity]. }
  rewrite Hne. cbn [negb orb].
  replace (String.length cleaned <? 10)%nat with false
    by (symmetry; apply Nat.ltb_ge; lia).
  unfold truncate.
  replace (1000 <? String.length cleaned)%nat with true
    by (symmetry; apply Nat.ltb_lt; exact Hlen).
  rewrite Hsplit. cbn [takeSentences append].
  replace (800 <? String.length first)%nat with true
    by (symmetry; apply Nat.ltb_lt; exact Hfirst).
  reflexivity.
Qed.

Lemma cleanAIResponse_empty_on_long_first_sentence_witness :
  String.length unbrokenRun = 1001 /\ cleanAIResponse (Str unbrokenRun) = "".
Proof.
  split; [vm_compute; reflexivity|].
  apply (cleanAIResponse_empty_on_long_first_sentence unbrokenRun unbrokenRun []).
  - reflexivity.
  - apply Nat.ltb_lt. vm_compute; reflexivity.
  - vm_compute; reflexivity.
  - apply Nat.ltb_lt. vm_compute; reflexivity.
Defined.

End SanitizerClaims.

(** ** The game score *)

Section GameClaims.

Import Js Db GameController Samples.
Local Open Scope list_scope.

Lemma filter_user_update userId n tbl :
  filter (fun r => user_id r =? userId)
         (map (fun r => if user_id r =? userId then mkScore (user_id r) n else r) tbl)
  = map (fun r => mkScore (user_id r) n) (filter (fun r => user_id r =? userId) tbl).
Proof.
  induction tbl as [|r tbl IH]; simpl; [reflexivity|].
  destruct (user_id r =? userId) eqn:E; simpl; rewrite E, IH; reflexivity.
Qed.

Lemma storedScore_update userId n tbl first others :
  filter (fun r => user_id r =? userId) tbl = first :: others ->
  storedScore userId (snd (updateScore n userId 0 tbl)) = Some n.
Proof.
  intros H. unfold storedScore, updateScore; simpl.
  rewrite filter_user_update, H. reflexivity.
Qed.

(** The three things the handler can do to the table. *)
Lemma save_cases connection userId submitted store :
  rows (snd (saveGameHighScore connection userId submitted store)) = rows store
  \/ (exists n,
         submitted = Num n
         /\ storedScore userId (rows store) = None
         /\ rows (snd (saveGameHighScore connection userId submitted store))
            = rows store ++ [mkScore userId n])
  \/ (exists n old,
         submitted = Num n
         /\ storedScore userId (rows store) = Some old
         /\ (old < n)%Z
         /\ rows (snd (saveGameHighScore connection userId submitted store))
            = snd (updateScore n userId 0 (rows store))).
Proof.
  unfold saveGameHighScore.
  destruct submitted as [| |b|n|s|o]; auto.
  destruct (n <? 0)%Z; auto.
  destruct connection as [sql|e]; auto.
  unfold query; simpl.
  destruct (fails sql (issued store)); simpl; auto.
  unfold storedScore.
  destruct (filter (fun r => user_id r =? userId) (rows store)) as [|first others].
  - destruct (fails sql (S (issued store))); simpl; auto.
    right; left. exists n; auto.
  - destruct (score first <? n)%Z eqn:Es; simpl; auto.
    destruct (fails sql (S (issued store))); simpl; auto.
    right; right. exists n, (score first). apply Z.ltb_lt in Es. auto.
Qed.

Lemma save_not_higher sql userId n old store :
  (forall k, fails sql k = false) ->
  (0 <= n)%Z ->
  storedScore userId (rows store) = Some old ->
  (n <= old)%Z ->
  saveGameHighScore (Returned sql) userId (Num n) store
  = (Status200 true "High score saved successfully" n,
     mkStore (rows store) (S (issued store))).
Proof.
  intros Hok Hn Hold Hle. unfold saveGameHighScore.
  replace (n <? 0)%Z with false by (symmetry; apply Z.ltb_ge; lia).
  unfold query; simpl. rewrite Hok; simpl.
  unfold storedScore in Hold.
  destruct (filter (fun r => user_id r =? userId) (rows store)) as [|first others];
    [discriminate|].
  inversion Hold; subst.
  replace (score first <? n)%Z with false by (symmetry; apply Z.ltb_ge; lia).
  reflexivity.
Qed.

(** C10.  Under [saveGameHighScore] the score that is read back for a user
    never decreases, whatever is submitted and whatever the store does; the
    table changes only by the first score of a user or by a submitted score
    strictly above the stored one; and a valid score that is not above the
    stored one leaves the table as it is while the handler answers 200 with
    [success] and the submitted score, when the store raises no error. *)
Theorem high_score_never_decreases :
  forall (connection : outcome Client) (userId : string) (submitted : value)
         (store : Store ScoreRow),
    (forall old,
        storedScore userId (rows store) = Some old ->
        exists new,
          storedScore userId
                      (rows (snd (saveGameHighScore connection userId submitted store)))
          = Some new
          /\ (old <= new)%Z)
    /\ (rows (snd (saveGameHighScore connection userId submitted store)) <> rows store ->
        exists n,
          submitted = Num n
          /\ (storedScore userId (rows store) = None
              \/ exists old, storedScore userId (rows store) = Some old /\ (old < n)%Z))
    /\ (forall sql n old,
           connection = Returned sql ->
           (forall k, fails sql k = false) ->
           submitted = Num n ->
           (0 <= n)%Z ->
           storedScore userId (rows store) = Some old ->
           (n <= old)%Z ->
           saveGameHighScore connection userId submitted store
           = (Status200 true "High score saved successfully" n,
              mkStore (rows store) (S (issued store)))).
Proof.
  intros connection userId submitted store.
  destruct (save_cases connection userId submitted store)
    as [Hsame|[(n & Hn & Hnone & Hrows)|(n & old & Hn & Hold & Hlt & Hrows)]];
    split; [| split | | split | | split].
  - intros old H. exists old. rewrite Hsame. split; [exact H|lia].
  - intros H. now destruct H.
  - intros sql n old -> Hok -> Hn Hold Hle. now apply save_not_higher with (old := old).
  - intros old H. congruence.
  - intros _. exists n. auto.
  - intros sql k old -> Hok -> Hk Hold Hle. now apply save_not_higher with (old := old).
  - intros old' H. exists n. rewrite Hrows. split.
    + unfold storedScore in Hold.
      destruct (filter (fun r => user_id r =? userId) (rows store)) as [|first others] eqn:Ef;
        [discriminate|].
      now apply storedScore_update with (first := first) (others := others).
    + rewrite Hold in H. inversion H; subst. lia.
  - intros _. exists n. split; [exact Hn|]. right. exists old. auto.
  - intros sql k old' -> Hok -> Hk Hold' Hle. now apply save_not_higher with (old := old').
Qed.

Lemma high_score_never_decreases_witness :
  (exists new,
      storedScore "user_1"
                  (rows (snd (saveGameHighScore (Returned steadyClient) "user_1"
                                                (Num 30) scoreTable)))
      = Some new
      /\ (42 <= new)%Z)
  /\ saveGameHighScore (Returned steadyClient) "user_1" (Num 30) scoreTable
     = (Status200 true "High score saved successfully" 30,
        mkStore (rows scoreTable) (S (issued scoreTable))).
Proof.
  split.
  - apply (proj1 (high_score_never_decreases (Returned steadyClient) "user_1"
                    (Num 30) scoreTable) 42%Z).
    reflexivity.
  - apply (proj2 (proj2 (high_score_never_decreases (Returned steadyClient) "user_1"
                           (Num 30) scoreTable)) steadyClient 30%Z 42%Z);
      try reflexivity; lia.
Defined.

End GameClaims.

(** ** The primary JSON extraction *)

Section ExtractionFacts.

Import Js Regex AiController.
Local Open Scope list_scope.
Local Arguments Ascii.eqb : simpl never.

Lemma starLoop_any multiline k fuel :
  forall sn rs cs,
    List.length rs < fuel ->
    starLoop true (run multiline any) k fuel (mkPos sn rs cs) = greedyAny k sn rs cs.
Proof.
  induction fuel as [|fuel IH]; intros sn rs cs Hlen; [lia|].
  destruct rs as [|c tl]; simpl.
  - reflexivity.
  - unfold advanced; simpl.
    replace (List.length tl <? S (List.length tl))%nat with true
      by (symmetry; apply Nat.ltb_lt; lia).
    rewrite IH by (simpl in Hlen; lia). reflexivity.
Qed.

Lemma closing_eq sn rs cs :
  closing (mkPos sn rs cs)
  = match rs with
    | c :: tl => if Ascii.eqb "]" c then Some (mkPos (c :: sn) tl cs) else None
    | [] => None
    end.
Proof. reflexivity. Qed.

Lemma greedy_no_close sn rs cs :
  ~ In "]"%char rs -> greedyAny closing sn rs cs = None.
Proof.
  revert sn; induction rs as [|c tl IH]; intros sn Hno; simpl.
  - reflexivity.
  - rewrite IH by (intros H; apply Hno; now right).
    cbn [orElse]. rewrite closing_eq.
    destruct (Ascii.eqb_spec "]" c) as [<-|_]; [|reflexivity].
    exfalso; apply Hno; now left.
Qed.

Lemma greedy_last_close mid post :
  ~ In "]"%char post ->
  forall sn cs,
    greedyAny closing sn (mid ++ "]"%char :: post) cs
    = Some (mkPos ("]"%char :: rev mid ++ sn) post cs).
Proof.
  intros Hno. induction mid as [|c mid IH]; intros sn cs; simpl.
  - rewrite greedy_no_close by assumption. cbn [orElse]. rewrite closing_eq.
    rewrite Ascii.eqb_refl. reflexivity.
  - rewrite IH. cbn [orElse rev]. now rewrite <- app_assoc.
Qed.

Lemma matchHere_array sn mid post :
  ~ In "]"%char post ->
  matchHere false jsonArrayRe (mkPos sn ("["%char :: mid ++ "]"%char :: post) [])
  = Some (mkPos ("]"%char :: rev mid ++ "["%char :: sn) post []).
Proof.
  intros Hno. unfold matchHere, jsonArrayRe.
  cbn [seqs run rest seen caps just]. rewrite Ascii.eqb_refl.
  rewrite starLoop_any by (cbn [rest]; lia).
  now apply greedy_last_close.
Qed.

Lemma matchHere_not_open sn c tl :
  c <> "["%char -> matchHere false jsonArrayRe (mkPos sn (c :: tl) []) = None.
Proof.
  intros H. unfold matchHere, jsonArrayRe.
  cbn [seqs run rest seen caps just].
  destruct (Ascii.eqb_spec "[" c); [congruence|reflexivity].
Qed.

Lemma search_array pre mid post :
  ~ In "["%char pre ->
  ~ In "]"%char post ->
  forall sn,
    search false jsonArrayRe sn (pre ++ "["%char :: mid ++ "]"%char :: post)
    = Some (mkPos (rev pre ++ sn) ("["%char :: mid ++ "]"%char :: post) [],
            mkPos ("]"%char :: rev mid ++ "["%char :: rev pre ++ sn) post []).
Proof.
  intros Hpre Hpost. induction pre as [|c pre IH]; intros sn.
  - simpl app. cbn [search]. rewrite matchHere_array by assumption. reflexivity.
  - simpl app. cbn [search].
    rewrite matchHere_not_open by (intros ->; apply Hpre; now left).
    rewrite IH by (intros H; apply Hpre; now right).
    simpl. now rewrite <- !app_assoc.
Qed.

Lemma chars_app a b : chars (a ++ b)%string = chars a ++ chars b.
Proof. induction a; simpl; congruence. Qed.

Lemma text_chars s : text (chars s) = s.
Proof. apply string_of_list_ascii_of_string. Qed.

Lemma matched_text (mid before : list ascii) :
  rev (firstn (List.length ("]"%char :: rev mid ++ "["%char :: before)
               - List.length before)
              ("]"%char :: rev mid ++ "["%char :: before))
  = "["%char :: mid ++ ["]"%char].
Proof.
  set (l := "]"%char :: rev mid ++ ["["%char]).
  assert (E : "]"%char :: rev mid ++ "["%char :: before = l ++ before).
  { unfold l. simpl. now rewrite <- app_assoc. }
  rewrite E, length_app, Nat.add_sub.
  rewrite firstn_app, firstn_all, Nat.sub_diag. simpl firstn. rewrite app_nil_r.
  unfold l. simpl. rewrite rev_app_distr, rev_involutive. reflexivity.
Qed.

(** The match of [/\[[\s\S]*\]/] runs from the first opening bracket of the
    reply to its last closing bracket. *)
Lemma jsonMatch_span pre mid post :
  lacks "[" pre ->
  lacks "]" post ->
  jsonMatch (pre ++ "[" ++ mid ++ "]" ++ post)%string
  = Some ("[" ++ mid ++ "]")%string.
Proof.
  unfold lacks, jsonMatch, exec. intros Hpre Hpost.
  rewrite !chars_app.
  change (chars "[") with ["["%char]. change (chars "]") with ["]"%char].
  cbn [app].
  rewrite (search_array (chars pre) (chars mid) (chars post) Hpre Hpost []).
  cbn [seen]. f_equal.
  rewrite matched_text.
  rewrite <- (text_chars ("[" ++ mid ++ "]")%string).
  rewrite !chars_app. reflexivity.
Qed.

End ExtractionFacts.

Section ExtractionClaims.

Import Js AiController Samples.
Local Open Scope string_scope.

(** C7 (amended).  The primary extraction parses the span of the reply that
    runs from its first opening bracket to its last closing bracket: for a
    reply made of a prefix without opening bracket, a bracketed text and a
    suffix without closing bracket, it parses exactly the bracketed text.
    For the reply of the example this is exactly the array. *)
Theorem primary_extraction_first_open_to_last_close :
  forall (Json : Type) (JSON_parse : string -> outcome Json)
         (pre mid post : string),
    lacks "[" pre ->
    lacks "]" post ->
    jsonMatch (pre ++ "[" ++ mid ++ "]" ++ post) = Some ("[" ++ mid ++ "]")
    /\ extractPrimary Json JSON_parse (pre ++ "[" ++ mid ++ "]" ++ post)
       = JSON_parse ("[" ++ mid ++ "]")
    /\ jsonMatch exampleReply = Some exampleArray
    /\ extractPrimary Json JSON_parse exampleReply = JSON_parse exampleArray.
Proof.
  intros Json JSON_parse pre mid post Hpre Hpost.
  assert (E : jsonMatch (pre ++ "[" ++ mid ++ "]" ++ post) = Some ("[" ++ mid ++ "]"))
    by now apply jsonMatch_span.
  assert (Ex : jsonMatch exampleReply = Some exampleArray) by (vm_compute; reflexivity).
  split; [exact E|]. split; [unfold extractPrimary; now rewrite E|].
  split; [exact Ex|]. unfold extractPrimary. now rewrite Ex.
Qed.

Lemma primary_extraction_first_open_to_last_close_witness :
  jsonMatch (examplePrefix ++ "[" ++ exampleInside ++ "]" ++ exampleSuffix)
  = Some ("[" ++ exampleInside ++ "]")
  /\ extractPrimary string (fun s => Returned s)
                    (examplePrefix ++ "[" ++ exampleInside ++ "]" ++ exampleSuffix)
     = Returned ("[" ++ exampleInside ++ "]")
  /\ jsonMatch exampleReply = Some exampleArray
  /\ extractPrimary string (fun s => Returned s) exampleReply = Returned exampleArray.
Proof.
  apply (primary_extraction_first_open_to_last_close string (fun s => Returned s)
           examplePrefix exampleInside exampleSuffix).
  - unfold lacks. vm_compute. intuition discriminate.
  - unfold lacks. vm_compute. intuition discriminate.
Defined.

(** C7 (the claim fails).  When the prose after the array has a closing
    bracket of its own, the text that is matched, and handed to
    [JSON.parse], runs to that last bracket: it is a larger span than the
    first balanced array of the reply. *)
Lemma match_runs_to_last_bracket :
  jsonMatch replyWithRemark = Some (exampleArray ++ " Hope that helps! [2 tasks]")
  /\ firstBalancedArray replyWithRemark = Some exampleArray
  /\ jsonMatch replyWithRemark <> firstBalancedArray replyWithRemark.
Proof.
  repeat split; try (vm_compute; reflexivity).
  vm_compute. discriminate.
Qed.

End ExtractionClaims.

(** ** The scenarios of the specification, run on the embedding *)

Section Scenarios.

Import Js Db Alignment Samples.
Local Open Scope list_scope.

(** Scenario A: no existing task, one proposed task: it is inserted, and no
    conflict is recorded. *)
Example scenario_insert :
  alignTasksWithPlan steadyClient "user_1" [Object callMom] [] Null (mkStore [] 0)
  = (Returned
       (mkResults
          [mkInserted "00000000-0000-4000-8000-000000000000" "Call mom"
                      (Num 15) (Str "medium") Null "todo"]
          [] [] []),
     mkStore [mkTask "00000000-0000-4000-8000-000000000000" "user_1"
                     (Str "Call mom") (Num 15) (Str "medium") (Str "todo") Null]
             1).
Proof. vm_compute; reflexivity. Qed.

(** Scenario B: the delete by title of a task whose proposed id is not a
    UUID. *)
Example scenario_rescue :
  alignTasksWithPlan steadyClient "user_1" [Object deleteWorkoutByTitle]
                     [workout] Null (mkStore [workout] 0)
  = (Returned (mkResults [] [] [DeletedRow workout]
                         [DeleteInvalidUUID (Str "not-a-uuid")]),
     mkStore [] 1).
Proof. vm_compute; reflexivity. Qed.

(** Scenario C: a well-formed id that no row has. *)
Example scenario_unknown_id :
  alignTasksWithPlan steadyClient "user_1" [Object deleteUnknownId]
                     [workout] Null (mkStore [workout] 0)
  = (Returned (mkResults [] [] []
                 [DeleteNotFound (Str "00000000-0000-1000-8000-000000000000")]),
     mkStore [workout] 1).
Proof. vm_compute; reflexivity. Qed.

(** The same well-formed delete twice: one deletion, then one conflict. *)
Example scenario_delete_twice :
  alignTasksWithPlan steadyClient "user_1"
                     [Object deleteWorkoutById; Object deleteWorkoutById]
                     [workout] Null (mkStore [workout] 0)
  = (Returned
       (mkResults [] []
          [DeletedById (Str "123e4567-e89b-12d3-a456-426614174000") (Str "Workout")]
          [DeleteNotFound (Str "123e4567-e89b-12d3-a456-426614174000")]),
     mkStore [] 2).
Proof. vm_compute; reflexivity. Qed.

(** The duplicate check of the create pass: the first 20 characters of an
    existing title, lower-cased, occur in the proposed title. *)
Example scenario_similar_title :
  alignTasksWithPlan steadyClient "user_1" [Object workoutAgain]
                     [workout] Null (mkStore [workout] 0)
  = (Returned (mkResults [] [] []
                 [SimilarExists (Str "Workout") "WORKOUT at the gym"]),
     mkStore [workout] 0).
Proof. vm_compute; reflexivity. Qed.

(** The field-merge example: on a task without scheduled time, only the
    status changes. *)
Example scenario_status_only :
  alignTasksWithPlan steadyClient "user_1" [Object markDraftDone]
                     [draftReportUnscheduled] Null
                     (mkStore [draftReportUnscheduled] 0)
  = (Returned
       (mkResults []
          [mkModified (Str "123e4567-e89b-12d3-a456-426614174000")
                      (Str "Draft report") None]
          [] []),
     mkStore [mkTask "123e4567-e89b-12d3-a456-426614174000" "user_1"
                     (Str "Draft report") (Num 60) (Str "high") (Str "done") Null]
             1).
Proof. vm_compute; reflexivity. Qed.

(** A [null] element: the first filter throws, and nothing is processed. *)
Example scenario_null_element :
  alignTasksWithPlan steadyClient "user_1" [Object callMom; Nullish] [] Null
                     (mkStore [] 0)
  = (Returned noResults, mkStore [] 0).
Proof. vm_compute; reflexivity. Qed.

(** A failed query: the item becomes a conflict and the next item is
    processed. *)
Example scenario_failed_query :
  alignTasksWithPlan firstQueryFails "user_1"
                     [Object callMom; Object longSession] [] Null (mkStore [] 0)
  = (Returned
       (mkResults
          [mkInserted "00000000-0000-4000-8000-000000000001" "Deep work session"
                      (Num 1000) (Str "medium") Null "todo"]
          [] [] [CreateFailed (Str "Call mom")]),
     mkStore [mkTask "00000000-0000-4000-8000-000000000001" "user_1"
                     (Str "Deep work session") (Num 1000) (Str "medium")
                     (Str "todo") Null]
             2).
Proof. vm_compute; reflexivity. Qed.

Example isValidUUID_samples :
  map isValidUUID
      [Str "123e4567-e89b-12d3-a456-426614174000";
       Str "123E4567-E89B-12D3-A456-426614174000";
       Str "00000000-0000-1000-8000-000000000000";
       Str "00000000-0000-0000-8000-000000000000";
       Str "123e4567-e89b-12d3-c456-426614174000";
       Str "not-a-uuid"; Str ""; Num 7; Undefined]
  = [true; true; true; false; false; false; false; false; false].
Proof. vm_compute; reflexivity. Qed.

End Scenarios.

Section UtilityScenarios.

Import Js Ai AiController.
Local Open Scope list_scope.

Example parseTimeString_samples :
  map parseTimeString
      ["2 PM"; "3:30 am"; "12 AM"; "12pm"; "14:30"; "9:15"; "24:00"; "15"; "3";
       "25"; "noon"]
  = [Some "14:00"; Some "03:30"; Some "00:00"; Some "12:00"; Some "14:30";
     Some "09:15"; None; Some "15:00"; Some "03:00"; None; None].
Proof. vm_compute; reflexivity. Qed.

Example cleanAIResponse_strips_markup :
  cleanAIResponse (Str "<think>plan</think>**Focus** on *one* task at a time.")
  = "Focus on one task at a time.".
Proof. vm_compute; reflexivity. Qed.

Example cleanAIResponse_falls_back :
  map cleanAIResponse [Undefined; Null; Num 3; Str ""; Str "  ok  "; Str "<think>x</think>"]
  = [fallback; fallback; fallback; fallback; fallback; fallback].
Proof. vm_compute; reflexivity. Qed.

Example clampDuration_samples :
  map clampDuration [1; 5; 60; 480; 1000]%Z = [5; 5; 60; 480; 480]%Z.
Proof. reflexivity. Qed.

End UtilityScenarios.

(* ===================================================================== *)
(** * Part III: further properties of the code                            *)
(* ===================================================================== *)

(** ** Texts *)

Section TextFacts.

Import Js.
Local Open Scope list_scope.

Lemma toLowerCase_app a b :
  toLowerCase (a ++ b)%string = (toLowerCase a ++ toLowerCase b)%string.
Proof. induction a as [|c a IH]; simpl; [reflexivity|now rewrite IH]. Qed.

Lemma substring_at a k b :
  substring (String.length a) (String.length k) (a ++ k ++ b)%string = k.
Proof.
  induction a as [|c a IH]; simpl; [|exact IH].
  induction k as [|c k IH]; simpl.
  - destruct b; reflexivity.
  - now rewrite IH.
Qed.

(** A text includes each of its parts. *)
Lemma includes_part a k b : includes (a ++ k ++ b)%string k = true.
Proof.
  unfold includes.
  destruct (index 0 k (a ++ k ++ b)%string) as [n|] eqn:E; [reflexivity|].
  destruct k as [|c k].
  - apply index_correct4 in E. lia.
  - exfalso.
    apply (index_correct3 0 (String.length a) _ _ E); [discriminate|lia|].
    apply substring_at.
Qed.

End TextFacts.

(** ** The AI utilities: outdoor tasks *)

Section OutdoorTasks.

Import Js Ai.
Local Open Scope list_scope.

(** X1.  [isOutdoorTask] looks for its keywords anywhere in the title and in
    any case of the letters, not as words: a title that has a keyword inside
    a longer word ("b-run-ch", "s-park-ling") is an outdoor task. *)
Theorem isOutdoorTask_substring :
  forall (before written after keyword : string),
    In keyword outdoorKeywords ->
    toLowerCase written = keyword ->
    isOutdoorTask (before ++ written ++ after) = true.
Proof.
  intros before written after keyword Hin Hk.
  unfold isOutdoorTask. apply existsb_exists. exists keyword. split; [exact Hin|].
  rewrite !toLowerCase_app, Hk. apply includes_part.
Qed.

Lemma isOutdoorTask_substring_witness :
  isOutdoorTask ("Sunday b" ++ "RUN" ++ "ch with Sam") = true.
Proof.
  apply (isOutdoorTask_substring "Sunday b" "RUN" "ch with Sam" "run").
  - simpl; auto.
  - reflexivity.
Defined.

End OutdoorTasks.

(** ** The response sanitizer: the length of what it returns *)

Section SanitizerBounds.

Import Js Ai.
Local Open Scope list_scope.

Lemma length_text l : String.length (string_of_list_ascii l) = List.length l.
Proof. induction l; simpl; congruence. Qed.

Lemma length_chars s : List.length (list_ascii_of_string s) = String.length s.
Proof. induction s; simpl; congruence. Qed.

Lemma length_dropWhite l : List.length (dropWhite l) <= List.length l.
Proof.
  induction l as [|c l IH]; simpl; [lia|].
  destruct (isWhite c); simpl; lia.
Qed.

Lemma length_trim s : String.length (trim s) <= String.length s.
Proof.
  unfold trim, trimChars.
  rewrite length_text, length_rev.
  etransitivity; [apply length_dropWhite|].
  rewrite length_rev.
  etransitivity; [apply length_dropWhite|].
  now rewrite length_chars.
Qed.

Lemma length_append a b :
  String.length (a ++ b)%string = String.length a + String.length b.
Proof. induction a; simpl; congruence. Qed.

(** The loop over the sentences never takes [result] past 802 characters:
    800 for what it accepts, and the two of the last [". "]. *)
Lemma takeSentences_bound sentences :
  forall result,
    String.length result <= 802 ->
    String.length (takeSentences sentences result) <= 802.
Proof.
  induction sentences as [|sentence tl IH]; intros result H; simpl; [exact H|].
  destruct (800 <? String.length (result ++ sentence)%string)%nat eqn:E; [exact H|].
  apply IH. apply Nat.ltb_ge in E.
  rewrite length_append in E. rewrite !length_append. simpl.
  pose proof (length_trim sentence). lia.
Qed.

(** X2.  Whatever it is given, [cleanAIResponse] returns at most 1000
    characters: the fixed fallback, a cleaned text of at most 1000
    characters, or a truncation of at most 802. *)
Theorem cleanAIResponse_at_most_1000 :
  forall rawResponse : value,
    String.length (cleanAIResponse rawResponse) <= 1000.
Proof.
  assert (F : String.length fallback <= 1000) by (vm_compute; lia).
  intros rawResponse. unfold cleanAIResponse.
  destruct rawResponse as [| | | |raw|]; try exact F.
  destruct (negb (truthy (Str raw))); [exact F|].
  generalize (strip raw) as cleaned; intros cleaned.
  destruct (negb (truthy (Str cleaned)) || (String.length cleaned <? 10)%nat); [exact F|].
  unfold truncate.
  destruct (1000 <? String.length cleaned)%nat eqn:E.
  - etransitivity; [apply length_trim|].
    etransitivity; [apply takeSentences_bound; simpl; lia|lia].
  - now apply Nat.ltb_ge in E.
Qed.

End SanitizerBounds.

(** ** The model router: the requests it sends *)

Section RouterRequests.

Import Js Ai.
Local Open Scope list_scope.

Variable Data : Type.
Variables fetch fetch' : nat -> Request -> Reply Data.
Variable messages : list Message.
Variable options : Options.

Lemma orQ_not_zero x d : ~ (d == 0)%Q -> ~ (orQ x d == 0)%Q.
Proof.
  intros Hd. unfold orQ. destruct x as [q|]; [|exact Hd].
  destruct (Qeq_bool q 0) eqn:E; [exact Hd|].
  intros H. apply Qeq_bool_iff in H. congruence.
Qed.

Lemma attempt_agrees n model :
  fetch n (requestFor messages options model)
  = fetch' n (requestFor messages options model) ->
  attempt Data fetch n model messages options
  = attempt Data fetch' n model messages options.
Proof. unfold attempt, requestFor. now intros ->. Qed.

(** Two backends that agree on the request of each model of the list, at
    its position, give the same run of the loop. *)
Lemma tryModels_agree models :
  Forall (fun key => lookup key AI_MODELS <> None) models ->
  forall count lastError first,
    (forall j key model,
        nth_error models j = Some key ->
        lookup key AI_MODELS = Some model ->
        fetch (first + j) (requestFor messages options model)
        = fetch' (first + j) (requestFor messages options model)) ->
    tryModels Data fetch models messages options count lastError first
    = tryModels Data fetch' models messages options count lastError first.
Proof.
  induction 1 as [|key models Hkey Hall IH]; intros count lastError first H;
    [reflexivity|].
  rewrite !tryModels_cons.
  destruct (lookup key AI_MODELS) as [model|] eqn:Ek; [|congruence].
  rewrite <- (attempt_agrees first model)
    by (generalize (H 0 key model eq_refl Ek); now rewrite Nat.add_0_r).
  destruct (attempt Data fetch first model messages options); [|reflexivity].
  apply IH. intros j k m Hn Hl.
  replace (S first + j) with (first + S j) by lia. now apply (H (S j) k m).
Qed.

End RouterRequests.

Lemma priorities_at_most_six taskType :
  List.length (Ai.prioritiesOf taskType) <= 6.
Proof.
  assert (Hall : forall l, In l (map snd Ai.TASK_MODEL_PRIORITIES) ->
                           List.length l <= 6).
  { intros l Hl. simpl in Hl.
    repeat (destruct Hl as [<-|Hl]; [simpl; lia|]). destruct Hl. }
  unfold Ai.prioritiesOf.
  destruct (Ai.lookup taskType Ai.TASK_MODEL_PRIORITIES) as [l|] eqn:E.
  - apply Hall. now apply lookup_in with (key := taskType).
  - apply Hall. vm_compute. auto.
Qed.

Section RouterDiscipline.

Import Js Ai Samples.
Local Open Scope list_scope.

(** X3.  [callOptimalAI] reaches the backend only through the requests of
    the models of the priority list, one per model and at most six in all:
    the request numbered [n] goes to the endpoint of the [n]-th model, it
    carries the caller's messages, it never asks for more tokens than the
    model's limit, it never has a temperature or a [top_p] of zero (a zero
    given by the caller is replaced by the default) and it never streams.
    Two backends that answer these requests alike give the same outcome. *)
Theorem callOptimalAI_requests :
  forall (Data : Type) (fetch fetch' : nat -> Request -> Reply Data)
         (messages : list Message) (taskType : string) (options : Options),
    (forall n request key model,
        n < 6 ->
        nth_error (prioritiesOf taskType) n = Some key ->
        lookup key AI_MODELS = Some model ->
        req_model request = endpoint model ->
        req_messages request = messages ->
        (req_max_tokens request <= maxTokens model)%Z ->
        ~ (req_temperature request == 0)%Q ->
        ~ (req_top_p request == 0)%Q ->
        req_stream request = false ->
        fetch n request = fetch' n request) ->
    callOptimalAI Data fetch messages taskType options
    = callOptimalAI Data fetch' messages taskType options.
Proof.
  intros Data fetch fetch' messages taskType options H.
  unfold callOptimalAI.
  apply tryModels_agree; [apply priorities_configured|].
  intros j key model Hn Hl. simpl.
  apply (H j _ key model); auto.
  - pose proof (priorities_at_most_six taskType).
    assert (j < List.length (prioritiesOf taskType))
      by (apply nth_error_Some; congruence).
    lia.
  - simpl. lia.
  - simpl. apply orQ_not_zero. discriminate.
  - simpl. apply orQ_not_zero. discriminate.
Qed.

Lemma callOptimalAI_requests_witness :
  callOptimalAI string twoRateLimits [] "voice-extraction" noOptions
  = callOptimalAI string twoRateLimitsThenClosed [] "voice-extraction" noOptions.
Proof.
  apply (callOptimalAI_requests string twoRateLimits twoRateLimitsThenClosed
           [] "voice-extraction" noOptions).
  intros n request key model Hn _ _ _ _ _ _ _ Hs.
  unfold twoRateLimitsThenClosed. rewrite Hs.
  replace (6 <=? n)%nat with false by (symmetry; apply Nat.leb_gt; exact Hn).
  reflexivity.
Defined.

End RouterDiscipline.

(** ** The task-alignment engine: what a call leaves in the store *)

Section AlignmentStore.

Import Js Db Alignment.
Local Open Scope list_scope.

Variable sql : Client.
Variable userId : string.
Variable existingTasks : list Task.

(** The rows of the other users. *)
Local Abbreviation others :=
  (filter (fun r : Task => negb (user_id r =? userId))).

Lemma others_appended tbl i ttl dur imp st sched :
  others (tbl ++ [mkTask i userId ttl dur imp st sched]) = others tbl.
Proof.
  rewrite filter_app. simpl. rewrite String.eqb_refl. simpl. apply app_nil_r.
Qed.

Lemma addressed_user idParam r :
  addressed idParam userId r = true -> (user_id r =? userId) = true.
Proof. unfold addressed. intros H. now apply andb_true_iff in H. Qed.

Lemma others_removed idParam tbl :
  others (filter (fun r => negb (addressed idParam userId r)) tbl) = others tbl.
Proof.
  induction tbl as [|r tbl IH]; simpl; [reflexivity|].
  destruct (addressed idParam userId r) eqn:Ea; simpl.
  - rewrite (addressed_user _ _ Ea). simpl. exact IH.
  - destruct (negb (user_id r =? userId)); simpl; now rewrite IH.
Qed.

Lemma others_rewritten idParam (f : Task -> Task) tbl :
  (forall r, user_id (f r) = user_id r) ->
  others (map (fun r => if addressed idParam userId r then f r else r) tbl)
  = others tbl.
Proof.
  intros Hf. induction tbl as [|r tbl IH]; simpl; [reflexivity|].
  destruct (addressed idParam userId r) eqn:Ea.
  - rewrite Hf, (addressed_user _ _ Ea). simpl. exact IH.
  - destruct (negb (user_id r =? userId)); simpl; now rewrite IH.
Qed.

Lemma create_others task st st' :
  CreateEffect sql userId task st st' ->
  others (rows (db st')) = others (rows (db st)).
Proof. destruct 1; simpl; auto using others_appended. Qed.

Lemma delete_others task st st' :
  DeleteEffect sql userId existingTasks task st st' ->
  others (rows (db st')) = others (rows (db st)).
Proof. destruct 1; simpl; auto using others_removed. Qed.

Lemma modify_others task st st' :
  ModifyEffect sql userId existingTasks task st st' ->
  others (rows (db st')) = others (rows (db st)).
Proof.
  destruct 1; simpl; auto;
    unfold rescuedRows, coalescedRows; simpl; now apply others_rewritten.
Qed.

(** Each item sends at most one query. *)
Lemma create_queries task st st' :
  CreateEffect sql userId task st st' ->
  issued (db st) <= issued (db st') <= S (issued (db st)).
Proof. destruct 1; simpl; lia. Qed.

Lemma delete_queries task st st' :
  DeleteEffect sql userId existingTasks task st st' ->
  issued (db st) <= issued (db st') <= S (issued (db st)).
Proof. destruct 1; simpl; lia. Qed.

Lemma modify_queries task st st' :
  ModifyEffect sql userId existingTasks task st st' ->
  issued (db st) <= issued (db st') <= S (issued (db st)).
Proof. destruct 1; simpl; lia. Qed.

Lemma fold_queries {A} (f : State -> A -> State) :
  (forall s x, issued (db s) <= issued (db (f s x)) <= S (issued (db s))) ->
  forall l s,
    issued (db s) <= issued (db (fold_left f l s)) <= issued (db s) + List.length l.
Proof.
  intros step l; induction l as [|x l IH]; intros s; simpl; [lia|].
  specialize (IH (f s x)). specialize (step s x). lia.
Qed.

Lemma fold_others {A} (f : State -> A -> State) :
  (forall s x, others (rows (db (f s x))) = others (rows (db s))) ->
  forall l s, others (rows (db (fold_left f l s))) = others (rows (db s)).
Proof.
  intros step l; induction l as [|x l IH]; intros s; simpl; [reflexivity|].
  now rewrite IH, step.
Qed.

Lemma afterLoops_others ops st :
  others (rows (db (afterLoops sql userId existingTasks ops st)))
  = others (rows (db st)).
Proof.
  unfold afterLoops.
  rewrite fold_others
    by (intros s x; apply modify_others with (task := x), modifyItem_snd_effect).
  rewrite fold_others
    by (intros s x; apply delete_others with (task := x), deleteItem_snd_effect).
  apply fold_others.
  intros s x; apply create_others with (task := x), createItem_snd_effect.
Qed.

(** The three filters select disjoint parts of the batch. *)
Lemma selected_at_most ops :
  List.length (filter createShaped ops)
  + List.length (filter deleteShaped ops)
  + List.length (filter modifyShaped ops)
  <= List.length ops.
Proof.
  induction ops as [|task ops IH]; simpl; [lia|].
  destruct (shapes_exclusive task) as (Hc & Hd & Hm).
  destruct (createShaped task) eqn:Ec.
  - destruct (Hc eq_refl) as [-> ->]. simpl. lia.
  - destruct (deleteShaped task) eqn:Ed.
    + destruct (Hd eq_refl) as [_ ->]. simpl. lia.
    + destruct (modifyShaped task); simpl; lia.
Qed.

Lemma afterLoops_queries ops st :
  issued (db st) <= issued (db (afterLoops sql userId existingTasks ops st))
  <= issued (db st) + List.length ops.
Proof.
  unfold afterLoops.
  set (c := fun s x => snd (createItem sql userId existingTasks x s)).
  set (d := fun s x => snd (deleteItem sql userId existingTasks x s)).
  set (m := fun s x => snd (modifyItem sql userId existingTasks x s)).
  pose proof (fold_queries c
                (fun s x => create_queries x s _ (createItem_snd_effect sql userId existingTasks x s))
                (filter createShaped ops) st) as Hc.
  pose proof (fold_queries d
                (fun s x => delete_queries x s _ (deleteItem_snd_effect sql userId existingTasks x s))
                (filter deleteShaped ops)
                (fold_left c (filter createShaped ops) st)) as Hd.
  pose proof (fold_queries m
                (fun s x => modify_queries x s _ (modifyItem_snd_effect sql userId existingTasks x s))
                (filter modifyShaped ops)
                (fold_left d (filter deleteShaped ops)
                           (fold_left c (filter createShaped ops) st))) as Hm.
  pose proof (selected_at_most ops).
  lia.
Qed.

End AlignmentStore.

Section AlignmentStoreClaims.

Import Js Db Alignment Samples.
Local Open Scope list_scope.

(** X4.  [alignTasksWithPlan] never touches the rows of another user:
    whatever the batch and whatever the store does, the rows whose
    [user_id] is not the caller's are after the call what they were before
    it, in the same order. *)
Theorem align_keeps_other_users :
  forall (sql : Client) (userId : string) (generatedTasks : list Proposed)
         (existingTasks : list Task) (currentPlan : value) (store : Store),
    filter (fun r => negb (user_id r =? userId))
           (rows (snd (alignTasksWithPlan sql userId generatedTasks existingTasks
                                          currentPlan store)))
    = filter (fun r => negb (user_id r =? userId)) (rows store).
Proof.
  intros sql userId generatedTasks existingTasks currentPlan store.
  destruct (objects_or_nullish generatedTasks) as [H|[ops ->]].
  - now rewrite align_nullish.
  - rewrite align_objects. simpl. apply afterLoops_others.
Qed.

(** X5.  A call sends at most one query for each element of the batch, and
    none for a batch with a [null] element. *)
Theorem align_query_budget :
  forall (sql : Client) (userId : string) (generatedTasks : list Proposed)
         (existingTasks : list Task) (currentPlan : value) (store : Store),
    issued store
    <= issued (snd (alignTasksWithPlan sql userId generatedTasks existingTasks
                                       currentPlan store))
    <= issued store + List.length generatedTasks
    /\ (In Nullish generatedTasks ->
        snd (alignTasksWithPlan sql userId generatedTasks existingTasks
                                currentPlan store) = store).
Proof.
  intros sql userId generatedTasks existingTasks currentPlan store. split.
  - destruct (objects_or_nullish generatedTasks) as [H|[ops ->]].
    + rewrite align_nullish by exact H. simpl. lia.
    + rewrite align_objects. simpl. rewrite length_map.
      apply (afterLoops_queries sql userId existingTasks ops (mkState store noResults)).
  - intros H. now rewrite align_nullish.
Qed.



End AlignmentStoreClaims.

(** ** The create pass: a task that exists is not inserted again *)

Section Reproposal.

Import Js Db Alignment Samples.
Local Open Scope list_scope.

Lemma text_app a b :
  string_of_list_ascii (a ++ b)
  = (string_of_list_ascii a ++ string_of_list_ascii b)%string.
Proof. induction a; simpl; congruence. Qed.

Lemma dropWhite_suffix l : exists w, l = w ++ dropWhite l.
Proof.
  induction l as [|c l [w IH]]; simpl; [now exists []|].
  destruct (isWhite c).
  - exists (c :: w). simpl. congruence.
  - now exists [].
Qed.

(** A text is its trimmed text between two other texts (of white space). *)
Lemma trim_inside s : exists a b, s = (a ++ trim s ++ b)%string.
Proof.
  unfold trim, trimChars.
  destruct (dropWhite_suffix (list_ascii_of_string s)) as [a Ha].
  destruct (dropWhite_suffix (rev (dropWhite (list_ascii_of_string s)))) as [b Hb].
  exists (string_of_list_ascii a), (string_of_list_ascii (rev b)).
  rewrite <- !text_app.
  rewrite <- (string_of_list_ascii_of_string s) at 1. f_equal.
  rewrite Ha at 1. f_equal.
  rewrite <- rev_app_distr, <- Hb. now rewrite rev_involutive.
Qed.

Lemma substring0_prefix n s : exists q, s = (substring 0 n s ++ q)%string.
Proof.
  revert s; induction n as [|n IH]; intros s.
  - exists s. destruct s; reflexivity.
  - destruct s as [|c s]; simpl; [now exists ""|].
    destruct (IH s) as [q Hq]. exists q. congruence.
Qed.

Lemma append_assoc a b c : ((a ++ b) ++ c = a ++ b ++ c)%string.
Proof. induction a; simpl; congruence. Qed.

(** A title is similar to the title it is trimmed to, whatever the case of
    the letters. *)
Lemma similarTo_trimmed ttl existing :
  lowerOf (task_title existing) = Returned (toLowerCase (trim ttl)) ->
  similarTo ttl existing = Returned true.
Proof.
  intros H. unfold similarTo. rewrite H. f_equal.
  apply orb_true_iff; right.
  destruct (trim_inside ttl) as (a & b & E).
  destruct (substring0_prefix 20 (toLowerCase (trim ttl))) as [q Hq].
  unfold substring0.
  rewrite E at 1. rewrite !toLowerCase_app. rewrite Hq at 1.
  rewrite append_assoc. apply includes_part.
Qed.

Lemma similarTo_text ttl x :
  (exists xt, task_title x = Str xt) -> exists b, similarTo ttl x = Returned b.
Proof. intros [xt E]. unfold similarTo. rewrite E. simpl. eauto. Qed.

Lemma findE_finds {A} (p : A -> outcome bool) l e :
  (forall x, In x l -> exists b, p x = Returned b) ->
  In e l -> p e = Returned true ->
  exists m, findE p l = Returned (Some m) /\ In m l.
Proof.
  induction l as [|x l IH]; intros Hall Hin He; [destruct Hin|].
  simpl. destruct (Hall x (or_introl eq_refl)) as [[|] Hx]; rewrite Hx.
  - exists x. split; [reflexivity|now left].
  - destruct Hin as [->|Hin]; [congruence|].
    destruct IH as (m & Hm & Hl); auto.
    + intros y Hy. apply Hall. now right.
    + exists m. split; [exact Hm|now right].
Qed.

(** X7.  The create pass does not insert a task again: when the titles of
    the existing tasks are texts and one of them is, up to the case of the
    letters, the trimmed title of a valid create operation (as it is once the
    operation has been inserted), the call on that operation sends no query,
    inserts nothing and reports one conflict, the similar task that exists. *)
Theorem reproposed_task_is_not_inserted :
  forall (sql : Client) (userId : string) (existingTasks : list Task)
         (currentPlan : value) (store : Store)
         (task : Operation) (ttl : string) (n : Z) (row : Task),
    createShaped task = true ->
    validTitle (title task) = Some ttl ->
    validDuration (duration task) = Some n ->
    (forall x, In x existingTasks -> exists xt, task_title x = Str xt) ->
    In row existingTasks ->
    lowerOf (task_title row) = Returned (toLowerCase (trim ttl)) ->
    exists similar,
      In similar existingTasks
      /\ alignTasksWithPlan sql userId [Object task] existingTasks currentPlan store
         = (Returned (mkResults [] [] [] [SimilarExists (task_title similar) ttl]),
            store).
Proof.
  intros sql userId existingTasks currentPlan store task ttl n row
         Hshape Ht Hd Htext Hin Hrow.
  destruct (findE_finds (similarTo ttl) existingTasks row) as (m & Hm & Hl); auto.
  - intros x Hx. now apply similarTo_text, Htext.
  - now apply similarTo_trimmed.
  - exists m. split; [exact Hl|].
    rewrite (align_single sql userId existingTasks currentPlan store task
               createShaped createItem) by auto.
    unfold createItem, tryCatch, createBody. rewrite Ht, Hd.
    unfold bind, lift. rewrite Hm. destruct store; reflexivity.
Qed.

Lemma reproposed_task_is_not_inserted_witness :
  exists similar,
    In similar [workout; storedCallMom]
    /\ alignTasksWithPlan steadyClient "user_1" [Object callMomAgain]
                          [workout; storedCallMom] Null
                          (mkStore [workout; storedCallMom] 1)
       = (Returned (mkResults [] [] []
                      [SimilarExists (task_title similar) "  Call Mom "]),
          mkStore [workout; storedCallMom] 1).
Proof.
  apply (reproposed_task_is_not_inserted steadyClient "user_1"
           [workout; storedCallMom] Null (mkStore [workout; storedCallMom] 1)
           callMomAgain "  Call Mom " 15 storedCallMom).
  - reflexivity.
  - reflexivity.
  - reflexivity.
  - intros x [<-|[<-|[]]]; simpl; eauto.
  - simpl; auto.
  - reflexivity.
Defined.

End Reproposal.

(** ** The game scores: reading them back *)

Section GameReadings.

Import Js Db GameController Samples.
Local Open Scope list_scope.

Lemma getGameHighScore_steady sql userId store :
  (forall k, fails sql k = false) ->
  getGameHighScore (Returned sql) userId store
  = (HighScore200 (firstScoreOr0 (filter (fun r => user_id r =? userId) (rows store))),
     mkStore (rows store) (S (issued store))).
Proof.
  intros Hok. unfold getGameHighScore, query. rewrite Hok. reflexivity.
Qed.

(** X8.  A score that was saved is read back: after [saveGameHighScore]
    answered a valid score on a store that raises no error, [getGameHighScore]
    gives the larger of the submitted score and of what it gave before. *)
Theorem saved_score_is_read_back :
  forall (sql : Client) (userId : string) (n before : Z) (store : Store ScoreRow),
    (forall k, fails sql k = false) ->
    (0 <= n)%Z ->
    fst (getGameHighScore (Returned sql) userId store) = HighScore200 before ->
    fst (saveGameHighScore (Returned sql) userId (Num n) store)
    = Status200 true "High score saved successfully" n
    /\ fst (getGameHighScore (Returned sql) userId
              (snd (saveGameHighScore (Returned sql) userId (Num n) store)))
       = HighScore200 (Z.max before n).
Proof.
  intros sql userId n before store Hok Hn Hbefore.
  rewrite getGameHighScore_steady in Hbefore by exact Hok.
  rewrite getGameHighScore_steady by exact Hok.
  simpl in Hbefore. inversion Hbefore as [Hb]; clear Hbefore.
  unfold saveGameHighScore.
  replace (n <? 0)%Z with false by (symmetry; apply Z.ltb_ge; lia).
  unfold query; simpl. rewrite !Hok; simpl.
  destruct (filter (fun r => user_id r =? userId) (rows store))
    as [|first rest] eqn:Ef; simpl.
  - rewrite filter_app, Ef. simpl. rewrite String.eqb_refl. simpl.
    split; [reflexivity|]. f_equal. lia.
  - destruct (score first <? n)%Z eqn:Es; simpl.
    + rewrite filter_user_update, Ef. simpl.
      apply Z.ltb_lt in Es. split; [reflexivity|]. f_equal. lia.
    + rewrite Ef. simpl. apply Z.ltb_ge in Es. split; [reflexivity|]. f_equal. lia.
Qed.

Lemma saved_score_is_read_back_witness :
  fst (saveGameHighScore (Returned steadyClient) "user_1" (Num 50) scoreTable)
  = Status200 true "High score saved successfully" 50
  /\ fst (getGameHighScore (Returned steadyClient) "user_1"
            (snd (saveGameHighScore (Returned steadyClient) "user_1" (Num 50)
                                    scoreTable)))
     = HighScore200 (Z.max 42 50).
Proof.
  apply (saved_score_is_read_back steadyClient "user_1" 50 42 scoreTable).
  - reflexivity.
  - lia.
  - reflexivity.
Defined.

(** [MAX] is an upper bound that a row reaches, and [NULL] on no row. *)
Lemma maxOf_from best tbl :
  exists top,
    fold_left (fun best r =>
                 match best with
                 | None => Some (score r)
                 | Some b => Some (Z.max b (score r))
                 end) tbl (Some best) = Some top
    /\ (best <= top)%Z
    /\ (forall r, In r tbl -> (score r <= top)%Z)
    /\ (top = best \/ exists r, In r tbl /\ score r = top).
Proof.
  revert best; induction tbl as [|x tbl IH]; intros best; simpl.
  - exists best. split; [reflexivity|]. split; [lia|]. split; [intros r []|auto].
  - destruct (IH (Z.max best (score x))) as (top & E & Hb & Hall & Hreach).
    exists top. split; [exact E|]. split; [lia|]. split.
    + intros r [<-|Hr]; [lia|auto].
    + destruct Hreach as [->|(r & Hr & Er)].
      * destruct (Z.max_spec best (score x)) as [[_ ->]|[_ ->]]; eauto.
      * eauto.
Qed.

Lemma maxOf_spec tbl :
  match maxOf tbl with
  | None => tbl = []
  | Some top =>
      (forall r, In r tbl -> (score r <= top)%Z)
      /\ exists r, In r tbl /\ score r = top
  end.
Proof.
  unfold maxOf. destruct tbl as [|x tbl]; simpl; [reflexivity|].
  destruct (maxOf_from (score x) tbl) as (top & -> & Hb & Hall & Hreach).
  split.
  - intros r [<-|Hr]; auto.
  - destruct Hreach as [->|(r & Hr & Er)]; eauto.
Qed.

(** X9.  On a store that raises no error [getUserHighScore] answers 200
    with: [hasScore] exactly when the user has a row, and then [highScore]
    is the score of the first one, and 0 otherwise; an [allTimeHigh] that no
    score of the table exceeds and that one of them reaches; and, for a
    table without any row, the [allTimeHigh] [null], not 0: the aggregate
    query always gives one row, so that the fallback to 0 of the source is
    never taken. *)
Theorem getUserHighScore_reading :
  forall (sql : Client) (userId : string) (store : Store ScoreRow),
    (forall k, fails sql k = false) ->
    exists highScore hasScore allTimeHigh,
      getUserHighScore (Returned sql) userId store
      = (UserHighScore200 highScore hasScore allTimeHigh,
         mkStore (rows store) (S (S (issued store))))
      /\ (storedScore userId (rows store) = None ->
          hasScore = false /\ highScore = 0%Z)
      /\ (forall s, storedScore userId (rows store) = Some s ->
                    hasScore = true /\ highScore = s)
      /\ (rows store = [] -> allTimeHigh = None)
      /\ (forall r, In r (rows store) ->
                    exists top, allTimeHigh = Some top /\ (score r <= top)%Z)
      /\ (forall top, allTimeHigh = Some top ->
                      exists r, In r (rows store) /\ score r = top).
Proof.
  intros sql userId store Hok.
  unfold getUserHighScore, query; simpl. rewrite !Hok; simpl.
  eexists _, _, _. split; [reflexivity|].
  pose proof (maxOf_spec (rows store)) as Hmax.
  unfold storedScore.
  split; [|split; [|split; [|split]]].
  - destruct (filter (fun r => user_id r =? userId) (rows store));
      [auto|discriminate].
  - destruct (filter (fun r => user_id r =? userId) (rows store));
      [discriminate|]. intros old H; inversion H; auto.
  - intros ->. reflexivity.
  - intros r Hr. destruct (maxOf (rows store)) as [top|].
    + exists top. split; [reflexivity|]. now apply Hmax.
    + rewrite Hmax in Hr. destruct Hr.
  - intros top E. simpl in E. rewrite E in Hmax. apply Hmax.
Qed.

Lemma getUserHighScore_reading_witness :
  exists highScore hasScore allTimeHigh,
    getUserHighScore (Returned steadyClient) "user_3" (mkStore [] 0)
    = (UserHighScore200 highScore hasScore allTimeHigh, mkStore [] 2)
    /\ (storedScore "user_3" [] = None -> hasScore = false /\ highScore = 0%Z)
    /\ (forall s, storedScore "user_3" [] = Some s -> hasScore = true /\ highScore = s)
    /\ (@nil ScoreRow = [] -> allTimeHigh = None)
    /\ (forall r, In r [] -> exists top, allTimeHigh = Some top /\ (score r <= top)%Z)
    /\ (forall top, allTimeHigh = Some top -> exists r, In r [] /\ score r = top).
Proof.
  apply (getUserHighScore_reading steadyClient "user_3" (mkStore [] 0)).
  reflexivity.
Defined.

(** X10.  The three handlers of the game scores never touch the row of
    another user: the rows whose [user_id] is not the caller's are after
    [saveGameHighScore] what they were before it, whatever is submitted and
    whatever the store does, and the two reading handlers leave every row
    as it is. *)
Theorem game_scores_of_others_are_kept :
  forall (connection : outcome Client) (userId : string) (submitted : value)
         (store : Store ScoreRow),
    filter (fun r => negb (user_id r =? userId))
           (rows (snd (saveGameHighScore connection userId submitted store)))
    = filter (fun r => negb (user_id r =? userId)) (rows store)
    /\ rows (snd (getGameHighScore connection userId store)) = rows store
    /\ rows (snd (getUserHighScore connection userId store)) = rows store.
Proof.
  intros connection userId submitted store. split; [|split].
  - destruct (save_cases connection userId submitted store)
      as [->|[(n & _ & _ & ->)|(n & old & _ & _ & _ & ->)]].
    + reflexivity.
    + rewrite filter_app. simpl. rewrite String.eqb_refl. simpl. apply app_nil_r.
    + simpl. induction (rows store) as [|r tbl IH]; simpl; [reflexivity|].
      destruct (user_id r =? userId) eqn:E; simpl; rewrite E; simpl; now rewrite IH.
  - unfold getGameHighScore, query. destruct connection as [sql|e]; [|reflexivity].
    simpl. destruct (fails sql (issued store)); reflexivity.
  - unfold getUserHighScore, query. destruct connection as [sql|e]; [|reflexivity].
    simpl. destruct (fails sql (issued store)); simpl; [reflexivity|].
    destruct (fails sql (S (issued store))); reflexivity.
Qed.

End GameReadings.

(** ** The AI controller: parsing with repair *)

Section RepairFlow.

Import Js AiController.
Local Open Scope list_scope.

(** X11.  The extraction of [extractTasksFromVoice] asks for a repair only
    when the primary extraction throws: when it gives a value, that value is
    the result whatever the backend would answer.  Every failure is thrown
    as the same error, whatever failed (the missing array, the parser, the
    router, the repaired text), and every value that is returned is what
    [JSON.parse] made of some text. *)
Theorem repair_only_after_failed_parse :
  forall (Json : Type) (JSON_parse : string -> outcome Json)
         (Data : Type) (content : Data -> outcome value)
         (fetch : nat -> Ai.Request -> Ai.Reply Data) (aiResponse : value),
    (forall extractedTasks,
        parseResponse Json JSON_parse aiResponse = Returned extractedTasks ->
        forall (Data' : Type) (content' : Data' -> outcome value)
               (fetch' : nat -> Ai.Request -> Ai.Reply Data'),
          parseOrRepair Json JSON_parse Data' content' fetch' aiResponse
          = Returned extractedTasks)
    /\ (forall e,
           parseOrRepair Json JSON_parse Data content fetch aiResponse = Thrown e ->
           e = Error "Failed to parse and repair AI task extraction")
    /\ (forall extractedTasks,
           parseOrRepair Json JSON_parse Data content fetch aiResponse
           = Returned extractedTasks ->
           exists matched, JSON_parse matched = Returned extractedTasks).
Proof.
  intros Json JSON_parse Data content fetch aiResponse. split; [|split].
  - intros extractedTasks H Data' content' fetch'.
    unfold parseOrRepair. now rewrite H.
  - intros e. unfold parseOrRepair.
    destruct (parseResponse Json JSON_parse aiResponse); [discriminate|].
    destruct (repair Json JSON_parse Data content fetch aiResponse); [discriminate|].
    congruence.
  - intros extractedTasks. unfold parseOrRepair.
    destruct (parseResponse Json JSON_parse aiResponse) as [t|e] eqn:Ep.
    + intros H; inversion H; subst.
      unfold parseResponse, extractPrimary in Ep.
      destruct aiResponse; try discriminate.
      destruct (jsonMatch s) as [matched|]; [eauto|discriminate].
    + destruct (repair Json JSON_parse Data content fetch aiResponse) as [t|e'] eqn:Er;
        [|discriminate].
      intros H; inversion H; subst.
      unfold repair in Er.
      destruct (Ai.callOptimalAI _ _ _ _ _) as [message|completion]; [discriminate|].
      destruct (content (Ai.response completion)) as [[| | | |s|]|]; try discriminate.
      destruct (jsonMatch s) as [matched|]; [eauto|discriminate].
Qed.

End RepairFlow.

(** ** The AI controller: the time context of the prompts *)

Section TimeContext.

Import Js AiController.
Local Open Scope Z_scope.

(** X12.  The handler reads the day of the week four times from the clock.
    When the four readings agree (the handler runs within one day, from 0
    to 6), the context line of the Kanban prompts is never ["Business Day"]
    and the guideline of the dictation prompt is never
    ["Business day context"]: the last branch of each is then dead.  The
    two lines test the day and the hour in different orders: in the working
    hours of a weekend day the context is ["Weekend"] while the guideline is
    the one of the working hours.  In the working hours the time of day is
    the morning or the afternoon.  When midnight falls between the readings
    the last branches are reached: the readings Friday, Friday, Saturday,
    Saturday at 23 hours give ["Business Day"] and
    ["Business day context"]. *)
Theorem time_context_labels :
  forall c : Clock,
    (forall day, 0 <= day <= 6 -> sameDay day c ->
                 contextLine c <> "Business Day"%string
                 /\ guideline c <> "Business day context"%string)
    /\ (isWeekend (day1 c) (day2 c) = true ->
        isWorkingHours (currentHour c) = true ->
        contextLine c = "Weekend"%string
        /\ guideline c
           = "Suggest focusing on professional tasks during working hours"%string)
    /\ (isWorkingHours (currentHour c) = true ->
        timeOfDay (currentHour c) = "morning"%string
        \/ timeOfDay (currentHour c) = "afternoon"%string)
    /\ contextLine (mkClock 23 5 5 6 6) = "Business Day"%string
    /\ guideline (mkClock 23 5 5 6 6) = "Business day context"%string.
Proof.
  intros [hour d1 d2 d3 d4].
  unfold contextLine, guideline, isWeekend, isWorkingHours, isBusinessDay,
    timeOfDay, sameDay.
  cbn [currentHour day1 day2 day3 day4].
  split; [|split; [|split; [|split; reflexivity]]].
  - intros day Hday (-> & -> & -> & ->). split.
    + destruct (day =? 0) eqn:E0; simpl; [discriminate|].
      destruct (day =? 6) eqn:E6; simpl; [discriminate|].
      destruct ((9 <=? hour) && (hour <? 17)); [discriminate|].
      replace (1 <=? day) with true by (symmetry; apply Z.leb_le; lia).
      replace (day <=? 5) with true by (symmetry; apply Z.leb_le; lia).
      discriminate.
    + destruct ((9 <=? hour) && (hour <? 17)); [discriminate|].
      destruct ((1 <=? day) && (day <=? 5)) eqn:Eb; [discriminate|].
      replace ((day =? 0) || (day =? 6)) with true; [discriminate|].
      symmetry. apply orb_true_iff. rewrite !Z.eqb_eq.
      apply andb_false_iff in Eb. rewrite Z.leb_gt, Z.leb_gt in Eb. lia.
  - intros -> ->. split; reflexivity.
  - intros H. apply andb_true_iff in H as [H9 H17].
    apply Z.leb_le in H9. rewrite H17.
    replace (hour <? 6) with false by (symmetry; apply Z.ltb_ge; lia).
    destruct (hour <? 12); auto.
Qed.

(** A Saturday at 10 hours. *)
Lemma time_context_labels_witness :
  contextLine (mkClock 10 6 6 6 6) = "Weekend"%string
  /\ guideline (mkClock 10 6 6 6 6)
     = "Suggest focusing on professional tasks during working hours"%string
  /\ contextLine (mkClock 10 6 6 6 6) <> "Business Day"%string
  /\ guideline (mkClock 10 6 6 6 6) <> "Business day context"%string.
Proof.
  destruct (time_context_labels (mkClock 10 6 6 6 6)) as (A & B & _).
  destruct (A 6) as [A1 A2]; [lia|repeat split|].
  destruct B as [B1 B2]; [reflexivity|reflexivity|].
  repeat split; assumption.
Defined.

End TimeContext.

(** ** Regular expressions: running the matcher on a text that is not known *)

Section RegexFacts.

Import Js Regex.
Local Open Scope list_scope.

(** An expression anchored at the start matches nowhere but there. *)
Lemma search_anchored r sn rs :
  sn <> [] -> search false (Seq Bol r) sn rs = None.
Proof.
  revert sn; induction rs as [|c rs IH]; intros sn Hsn; simpl;
    unfold matchHere; simpl; unfold atBol; simpl;
    destruct sn; try congruence; simpl; auto.
  apply IH. discriminate.
Qed.

Lemma search_at_start r l :
  search false (Seq Bol r) [] l
  = match run false r (fun s' => Some s') (mkPos [] l []) with
    | Some e => Some (mkPos [] l [], e)
    | None => None
    end.
Proof.
  destruct l as [|c l]; simpl; unfold matchHere; simpl.
  - destruct (run false r _ _); reflexivity.
  - destruct (run false r _ _); [reflexivity|].
    rewrite search_anchored; [reflexivity|discriminate].
Qed.

Lemma test_anchored r s :
  test false (Seq Bol r) s
  = match run false r (fun s' => Some s') (mkPos [] (chars s) []) with
    | Some _ => true
    | None => false
    end.
Proof.
  unfold test. rewrite search_at_start. destruct (run false r _ _); reflexivity.
Qed.

Lemma test_anchored_true r s :
  test false (Seq Bol r) s = true
  -> exists e, run false r (fun s' => Some s') (mkPos [] (chars s) []) = Some e.
Proof.
  rewrite test_anchored. destruct (run false r _ _) as [e|]; [eauto|discriminate].
Qed.

(** The characters of a range of codes. *)
Lemma between_in lo hi c :
  between lo hi c = true -> In c (map ascii_of_nat (seq lo (S hi - lo))).
Proof.
  unfold between, code. intros H. apply andb_true_iff in H as [Hlo Hhi].
  apply Nat.leb_le in Hlo, Hhi.
  rewrite <- (ascii_nat_embedding c). apply in_map, in_seq. lia.
Qed.

Lemma span_in a b c :
  span a b c = true
  -> In c (map ascii_of_nat (seq (code a) (S (code b) - code a))).
Proof. apply between_in. Qed.

End RegexFacts.

(** One step of the matcher on a text whose characters are not known: the
    next character is named, or the next test is decided both ways. *)
Ltac regex_unfold H :=
  cbn [Regex.run Regex.seqs Regex.opt Regex.cls Regex.just Regex.digit
       Regex.space Regex.times Regex.upTo Regex.range Regex.plus Regex.atLeast
       Regex.rest Regex.seen Regex.caps Regex.orElse Nat.sub andb existsb] in H;
  unfold Regex.atEol, Regex.atBol in H;
  cbn [Regex.rest Regex.seen andb] in H.

Ltac regex_step H :=
  regex_unfold H;
  match type of H with
  | context [match ?l with [] => _ | _ :: _ => _ end] =>
      is_var l; destruct l as [|? l]
  | context [if ?b then _ else _] =>
      lazymatch type of b with bool => destruct b eqn:? end
  end.

Ltac regex_cases H := repeat regex_step H; regex_unfold H; try discriminate H.

(** ** The time of day, [HH:MM] *)

Section TimeOfDay.

Import Js Regex Ai AiController.
Local Open Scope list_scope.

Lemma forallb_below (P : nat -> bool) n :
  forallb P (seq 0 n) = true -> forall k, k < n -> P k = true.
Proof.
  intros H k Hk. rewrite forallb_forall in H. apply H. apply in_seq. lia.
Qed.

(** The number that two digits, or one, write. *)
Ltac written_by :=
  match goal with
  | |- exists n : Z, _ /\ ?s = _ =>
      let v := eval vm_compute in (parseInt (chars s)) in
      exists v; split; [lia|reflexivity]
  end.

Ltac each_char H := apply span_in in H; simpl in H; intuition (subst; try written_by).

Lemma minutes_written c d :
  span "0" "5" c = true -> span "0" "9" d = true ->
  exists m, (0 <= m <= 59)%Z /\ String c (String d "") = pad2 m.
Proof. intros Hc Hd. each_char Hc; each_char Hd. Qed.

Lemma hours_below_20_written c d :
  span "0" "1" c = true -> span "0" "9" d = true ->
  exists h, (0 <= h <= 23)%Z /\ String c (String d "") = pad2 h.
Proof. intros Hc Hd. each_char Hc; each_char Hd. Qed.

Lemma hours_from_20_written d :
  span "0" "3" d = true ->
  exists h, (0 <= h <= 23)%Z /\ String "2" (String d "") = pad2 h.
Proof. intros Hd. each_char Hd. Qed.

Lemma hour_written d :
  span "0" "9" d = true ->
  exists h, (0 <= h <= 23)%Z /\ String d "" = decimal h.
Proof. intros Hd. each_char Hd. Qed.

Lemma text_of_chars s l : l = chars s -> s = text l.
Proof. intros ->. symmetry. apply string_of_list_ascii_of_string. Qed.

(** What a run of the matcher has learnt: the characters that a literal
    fixes are replaced, the tests on them are computed. *)
Ltac settle :=
  repeat match goal with
         | H : Ascii.eqb _ ?c = true |- _ => apply Ascii.eqb_eq in H; subst c
         | H : context [(_ || false)%bool] |- _ => rewrite orb_false_r in H
         | H : span _ _ (Ascii _ _ _ _ _ _ _ _) = true |- _ =>
             vm_compute in H; discriminate H
         end.

Lemma timeRegex_sound s :
  test false timeRegex s = true ->
  exists h m,
    (0 <= h <= 23)%Z /\ (0 <= m <= 59)%Z
    /\ (s = (decimal h ++ ":" ++ pad2 m)%string
        \/ s = (pad2 h ++ ":" ++ pad2 m)%string).
Proof.
  intros H. unfold timeRegex in H. cbn [seqs] in H.
  apply test_anchored_true in H as [e H].
  remember (chars s) as l eqn:El.
  regex_cases H; clear H; settle; apply text_of_chars in El; subst s.
  all: match goal with
       | Hc : span "0" "5" ?c = true, Hd : span "0" "9" ?d = true
         |- context [text [?a; ?b; ":"%char; ?c; ?d]] =>
           destruct (minutes_written c d Hc Hd) as (m & Hm & Em);
           first [ match goal with
                   | Ha : span "0" "1" a = true, Hb : span "0" "9" b = true |- _ =>
                       destruct (hours_below_20_written a b Ha Hb) as (h & Hh & Eh)
                   end
                 | match goal with
                   | Hb : span "0" "3" b = true |- _ =>
                       destruct (hours_from_20_written b Hb) as (h & Hh & Eh)
                   end ];
           exists h, m; split; [exact Hh|]; split; [exact Hm|]; right;
           change (text [a; b; ":"%char; c; d])
             with (String a (String b "") ++ ":" ++ String c (String d ""))%string;
           now rewrite Eh, Em
       | Hc : span "0" "5" ?c = true, Hd : span "0" "9" ?d = true
         |- context [text [?a; ":"%char; ?c; ?d]] =>
           destruct (minutes_written c d Hc Hd) as (m & Hm & Em);
           match goal with
           | Ha : span "0" "9" a = true |- _ =>
               destruct (hour_written a Ha) as (h & Hh & Eh)
           end;
           exists h, m; split; [exact Hh|]; split; [exact Hm|]; left;
           change (text [a; ":"%char; c; d])
             with (String a "" ++ ":" ++ String c (String d ""))%string;
           now rewrite Eh, Em
       end.
Qed.

Lemma timeRegex_complete h m :
  (0 <= h <= 23)%Z -> (0 <= m <= 59)%Z ->
  test false timeRegex (decimal h ++ ":" ++ pad2 m) = true
  /\ test false timeRegex (pad2 h ++ ":" ++ pad2 m) = true.
Proof.
  intros Hh Hm.
  assert (All : forallb (fun h => forallb (fun m =>
                  test false timeRegex
                       (decimal (Z.of_nat h) ++ ":" ++ pad2 (Z.of_nat m))
                  && test false timeRegex
                          (pad2 (Z.of_nat h) ++ ":" ++ pad2 (Z.of_nat m)))
                  (seq 0 60)) (seq 0 24) = true) by (vm_compute; reflexivity).
  pose proof (forallb_below _ _ (forallb_below _ _ All (Z.to_nat h) ltac:(lia))
                            (Z.to_nat m) ltac:(lia)) as E.
  rewrite !Z2Nat.id in E by lia. now apply andb_true_iff in E.
Qed.

(** X13.  The pattern that validates a scheduled time accepts exactly the
    times of day: a text passes the test if and only if it is an hour from 0
    to 23, written with one digit or two, a colon, and a minute from 0 to 59
    written with two digits. *)
Theorem timeRegex_accepts_times_of_day :
  forall s : string,
    test false timeRegex s = true
    <-> exists h m,
        (0 <= h <= 23)%Z /\ (0 <= m <= 59)%Z
        /\ (s = (decimal h ++ ":" ++ pad2 m)%string
            \/ s = (pad2 h ++ ":" ++ pad2 m)%string).
Proof.
  intros s. split; [apply timeRegex_sound|].
  intros (h & m & Hh & Hm & [->| ->]); now apply timeRegex_complete.
Qed.

End TimeOfDay.

(** ** [parseTimeString] on the texts that numbers write *)

(** A test that is closed is computed; a test on a character that is not
    known is decided by the hypothesis on it. *)
Ltac decide_test :=
  match goal with
  | |- context [if ?b then _ else _] =>
      lazymatch type of b with
      | bool =>
          first [ match goal with
                  | H : b = true |- _ => rewrite H
                  | H : b = false |- _ => rewrite H
                  end
                | let v := eval vm_compute in b in
                  lazymatch v with
                  | true => change b with true
                  | false => change b with false
                  end
                | lazymatch b with
                  | Ascii.eqb ?x ?c =>
                      match goal with
                      | H : forall c', Js.isDigit c' = false -> Ascii.eqb x c' = false
                        |- _ => rewrite (H c eq_refl)
                      end
                  end ]
      end
  end.

(** The case of a character that has none, and of a closed character. *)
Ltac same_case :=
  repeat match goal with
         | H : Js.upperChar ?d = ?d |- context [Js.upperChar ?d] => rewrite !H
         | H : Js.lowerChar ?d = ?d |- context [Js.lowerChar ?d] => rewrite !H
         | |- context [Js.upperChar (Ascii ?a ?b ?c ?d ?e ?f ?g ?h)] =>
             let v := eval vm_compute in (Js.upperChar (Ascii a b c d e f g h)) in
             change (Js.upperChar (Ascii a b c d e f g h)) with v
         | |- context [Js.lowerChar (Ascii ?a ?b ?c ?d ?e ?f ?g ?h)] =>
             let v := eval vm_compute in (Js.lowerChar (Ascii a b c d e f g h)) in
             change (Js.lowerChar (Ascii a b c d e f g h)) with v
         end.

(** The run of the matcher on a text of known length. *)
Ltac run_matcher :=
  repeat (cbn [Regex.run Regex.seqs Regex.opt Regex.cls Regex.just Regex.justCI
               Regex.lit Regex.litCI Regex.seqOf Regex.digit Regex.space
               Regex.times Regex.upTo Regex.range Regex.plus Regex.atLeast
               Regex.starLoop Regex.advanced
               Regex.rest Regex.seen Regex.caps Regex.orElse
               Nat.sub Nat.ltb Nat.leb List.length andb existsb];
          unfold Regex.atEol, Regex.atBol;
          cbn [Regex.rest Regex.seen andb];
          same_case;
          try decide_test).

(** [re.exec] of an expression anchored at the start. *)
Ltac run_exec :=
  match goal with
  | |- context [Regex.exec false ?r ?s] =>
      let E := fresh "E" in
      let res := fresh "res" in
      evar (res : option (string * Regex.pos));
      assert (E : Regex.exec false r s = res)
        by (unfold Regex.exec, r; cbn [Regex.seqs]; rewrite search_at_start;
            cbn [Regex.chars list_ascii_of_string]; run_matcher;
            cbn [Regex.seen List.length Nat.sub firstn rev app
                 Regex.text string_of_list_ascii];
            subst res; reflexivity);
      subst res; rewrite E; clear E;
      cbn [Ai.groupOf Ai.nonEmpty Regex.capture Regex.caps Nat.eqb]
  end.

(** The comparisons of two closed texts. *)
Ltac compare_texts :=
  repeat match goal with
         | |- context [(?a =? ?b)%string] =>
             let v := eval vm_compute in (a =? b)%string in
             lazymatch v with
             | true => change (a =? b)%string with true
             | false => change (a =? b)%string with false
             end
         end;
  cbn [andb negb].

Section TimeStrings.

Import Js Regex Ai.
Local Open Scope list_scope.

Lemma digit_not_capital d : isDigit d = true -> lowerChar d = d.
Proof.
  unfold isDigit, lowerChar, isCapital, isUpper, between, code.
  intros H. apply andb_true_iff in H as [Hlo Hhi]. apply Nat.leb_le in Hlo, Hhi.
  replace ((65 <=? nat_of_ascii d)%nat) with false by (symmetry; apply Nat.leb_gt; lia).
  replace ((192 <=? nat_of_ascii d)%nat) with false by (symmetry; apply Nat.leb_gt; lia).
  reflexivity.
Qed.

Lemma digit_not_white d : isDigit d = true -> isWhite d = false.
Proof.
  unfold isDigit, isWhite, between, code.
  intros H. apply andb_true_iff in H as [Hlo Hhi]. apply Nat.leb_le in Hlo, Hhi.
  replace ((nat_of_ascii d <=? 13)%nat) with false by (symmetry; apply Nat.leb_gt; lia).
  replace ((nat_of_ascii d =? 32)%nat) with false by (symmetry; apply Nat.eqb_neq; lia).
  replace ((nat_of_ascii d =? 160)%nat) with false by (symmetry; apply Nat.eqb_neq; lia).
  now rewrite andb_false_r.
Qed.

Lemma digit_not_small d : isDigit d = true -> upperChar d = d.
Proof.
  unfold isDigit, upperChar, isSmall, isLower, between, code.
  intros H. apply andb_true_iff in H as [Hlo Hhi]. apply Nat.leb_le in Hlo, Hhi.
  replace ((97 <=? nat_of_ascii d)%nat) with false by (symmetry; apply Nat.leb_gt; lia).
  replace ((224 <=? nat_of_ascii d)%nat) with false by (symmetry; apply Nat.leb_gt; lia).
  reflexivity.
Qed.

Lemma digit_is_not c d :
  isDigit d = true -> isDigit c = false -> Ascii.eqb c d = false.
Proof.
  intros Hd Hc. destruct (Ascii.eqb_spec c d) as [->|]; congruence.
Qed.

Lemma digit_differs d :
  isDigit d = true -> forall c, isDigit c = false -> Ascii.eqb d c = false.
Proof.
  intros Hd c Hc. destruct (Ascii.eqb_spec d c) as [->|]; congruence.
Qed.

(** What is known of a digit. *)
Ltac digit_facts :=
  repeat match goal with
         | H : isDigit ?d = true |- _ =>
             lazymatch goal with
             | _ : isWhite d = false |- _ => fail
             | _ =>
                 pose proof (digit_not_white d H);
                 pose proof (digit_not_capital d H);
                 pose proof (digit_not_small d H);
                 pose proof (digit_differs d H);
                 pose proof (digit_is_not ":" d H eq_refl)
             end
         end.

(** [timeStr.toLowerCase().trim()] on a text that starts with a digit. *)
Ltac lower_and_trim :=
  unfold parseTimeString;
  cbn [append toLowerCase];
  same_case;
  unfold trim, trimChars;
  repeat (cbn [list_ascii_of_string dropWhite rev app string_of_list_ascii];
          try decide_test).

(** The hour and the minute as the digits that write them. *)
Local Abbreviation hh d1 d2 := (String d1 (String d2 "")) (only parsing).

Lemma pm_two_digits d1 d2 d3 d4 :
  isDigit d1 = true -> isDigit d2 = true -> isDigit d3 = true -> isDigit d4 = true ->
  parseTimeString (hh d1 d2 ++ ":" ++ hh d3 d4 ++ " pm")
  = Some (pad2 (if (parseInt [d1; d2] =? 12)%Z
                then parseInt [d1; d2] else (parseInt [d1; d2] + 12)%Z)
          ++ ":" ++ pad2 (parseInt [d3; d4]))%string.
Proof.
  intros H1 H2 H3 H4. digit_facts. lower_and_trim.
  unfold parseAmPm. run_exec. compare_texts.
  destruct (parseInt [d1; d2] =? 12)%Z; reflexivity.
Qed.

Lemma pm_one_digit d1 d3 d4 :
  isDigit d1 = true -> isDigit d3 = true -> isDigit d4 = true ->
  parseTimeString (String d1 "" ++ ":" ++ hh d3 d4 ++ " pm")
  = Some (pad2 (if (parseInt [d1] =? 12)%Z
                then parseInt [d1] else (parseInt [d1] + 12)%Z)
          ++ ":" ++ pad2 (parseInt [d3; d4]))%string.
Proof.
  intros H1 H3 H4. digit_facts. lower_and_trim.
  unfold parseAmPm. run_exec. compare_texts.
  destruct (parseInt [d1] =? 12)%Z; reflexivity.
Qed.

Lemma am_two_digits d1 d2 d3 d4 :
  isDigit d1 = true -> isDigit d2 = true -> isDigit d3 = true -> isDigit d4 = true ->
  parseTimeString (hh d1 d2 ++ ":" ++ hh d3 d4 ++ " am")
  = Some (pad2 (if (parseInt [d1; d2] =? 12)%Z then 0%Z else parseInt [d1; d2])
          ++ ":" ++ pad2 (parseInt [d3; d4]))%string.
Proof.
  intros H1 H2 H3 H4. digit_facts. lower_and_trim.
  unfold parseAmPm. run_exec. compare_texts. reflexivity.
Qed.

Lemma am_one_digit d1 d3 d4 :
  isDigit d1 = true -> isDigit d3 = true -> isDigit d4 = true ->
  parseTimeString (String d1 "" ++ ":" ++ hh d3 d4 ++ " am")
  = Some (pad2 (if (parseInt [d1] =? 12)%Z then 0%Z else parseInt [d1])
          ++ ":" ++ pad2 (parseInt [d3; d4]))%string.
Proof.
  intros H1 H3 H4. digit_facts. lower_and_trim.
  unfold parseAmPm. run_exec. compare_texts. reflexivity.
Qed.

(** The guard of the 24-hour branch, and its failure. *)
Lemma day_two_digits d1 d2 d3 d4 :
  isDigit d1 = true -> isDigit d2 = true -> isDigit d3 = true -> isDigit d4 = true ->
  parseTimeString (hh d1 d2 ++ ":" ++ hh d3 d4)
  = if (0 <=? parseInt [d1; d2])%Z && (parseInt [d1; d2] <=? 23)%Z
       && (0 <=? parseInt [d3; d4])%Z && (parseInt [d3; d4] <=? 59)%Z
    then Some (pad2 (parseInt [d1; d2]) ++ ":" ++ pad2 (parseInt [d3; d4]))%string
    else None.
Proof.
  intros H1 H2 H3 H4. digit_facts. lower_and_trim.
  unfold parseAmPm. run_exec.
  unfold parse24. run_exec.
  destruct (_ && _); [reflexivity|].
  unfold parseHourOnly. run_exec. reflexivity.
Qed.

Lemma day_one_digit d1 d3 d4 :
  isDigit d1 = true -> isDigit d3 = true -> isDigit d4 = true ->
  parseTimeString (String d1 "" ++ ":" ++ hh d3 d4)
  = if (0 <=? parseInt [d1])%Z && (parseInt [d1] <=? 23)%Z
       && (0 <=? parseInt [d3; d4])%Z && (parseInt [d3; d4] <=? 59)%Z
    then Some (pad2 (parseInt [d1]) ++ ":" ++ pad2 (parseInt [d3; d4]))%string
    else None.
Proof.
  intros H1 H3 H4. digit_facts. lower_and_trim.
  unfold parseAmPm. run_exec.
  unfold parse24. run_exec.
  destruct (_ && _); [reflexivity|].
  unfold parseHourOnly. run_exec. reflexivity.
Qed.

Lemma hour_two_digits d1 d2 :
  isDigit d1 = true -> isDigit d2 = true ->
  parseTimeString (hh d1 d2)
  = if (0 <=? parseInt [d1; d2])%Z && (parseInt [d1; d2] <=? 23)%Z
    then Some (pad2 (parseInt [d1; d2]) ++ ":00")%string
    else None.
Proof.
  intros H1 H2. digit_facts. lower_and_trim.
  unfold parseAmPm. run_exec.
  unfold parse24. run_exec.
  unfold parseHourOnly. run_exec. reflexivity.
Qed.

Lemma hour_one_digit d1 :
  isDigit d1 = true ->
  parseTimeString (String d1 "")
  = if (0 <=? parseInt [d1])%Z && (parseInt [d1] <=? 23)%Z
    then Some (pad2 (parseInt [d1]) ++ ":00")%string
    else None.
Proof.
  intros H1. digit_facts. lower_and_trim.
  unfold parseAmPm. run_exec.
  unfold parse24. run_exec.
  unfold parseHourOnly. run_exec. reflexivity.
Qed.

(** The digits that write a number. *)
Lemma padded_digits n :
  (0 <= n <= 99)%Z ->
  exists d1 d2,
    isDigit d1 = true /\ isDigit d2 = true
    /\ pad2 n = hh d1 d2 /\ parseInt [d1; d2] = n.
Proof.
  intros Hn.
  assert (All : forallb (fun k =>
                  match chars (pad2 (Z.of_nat k)) with
                  | [d1; d2] =>
                      isDigit d1 && isDigit d2
                      && (parseInt [d1; d2] =? Z.of_nat k)%Z
                  | _ => false
                  end) (seq 0 100) = true) by (vm_compute; reflexivity).
  pose proof (forallb_below _ _ All (Z.to_nat n) ltac:(lia)) as E.
  cbv beta in E. rewrite Z2Nat.id in E by lia.
  rewrite (text_of_chars (pad2 n) _ eq_refl).
  destruct (chars (pad2 n)) as [|d1 [|d2 [|]]]; try discriminate.
  apply andb_true_iff in E as [E E3]. apply andb_true_iff in E as [E1 E2].
  apply Z.eqb_eq in E3. exists d1, d2. auto.
Qed.

Lemma decimal_two_digits n :
  (10 <= n <= 99)%Z -> decimal n = pad2 n.
Proof.
  intros Hn.
  assert (All : forallb (fun k => decimal (Z.of_nat (10 + k)) =? pad2 (Z.of_nat (10 + k)))%string
                        (seq 0 90) = true) by (vm_compute; reflexivity).
  pose proof (forallb_below _ _ All (Z.to_nat (n - 10)) ltac:(lia)) as E.
  cbv beta in E.
  replace (Z.of_nat (10 + Z.to_nat (n - 10))) with n in E by lia.
  now apply String.eqb_eq in E.
Qed.

Lemma decimal_digit n :
  (0 <= n <= 9)%Z ->
  exists d, isDigit d = true /\ decimal n = String d "" /\ parseInt [d] = n.
Proof.
  intros Hn.
  assert (All : forallb (fun k =>
                  match chars (decimal (Z.of_nat k)) with
                  | [d] => isDigit d && (parseInt [d] =? Z.of_nat k)%Z
                  | _ => false
                  end) (seq 0 10) = true) by (vm_compute; reflexivity).
  pose proof (forallb_below _ _ All (Z.to_nat n) ltac:(lia)) as E.
  cbv beta in E. rewrite Z2Nat.id in E by lia.
  rewrite (text_of_chars (decimal n) _ eq_refl).
  destruct (chars (decimal n)) as [|d [|]]; try discriminate.
  apply andb_true_iff in E as [E1 E2].
  apply Z.eqb_eq in E2. exists d. auto.
Qed.

Lemma twelve_hour_clock h m :
  (0 <= h <= 99)%Z ->
  (0 <= m <= 99)%Z ->
  parseTimeString (decimal h ++ ":" ++ pad2 m ++ " pm")
  = Some (pad2 (if (h =? 12)%Z then 12%Z else (h + 12)%Z) ++ ":" ++ pad2 m)%string
  /\ parseTimeString (decimal h ++ ":" ++ pad2 m ++ " am")
     = Some (pad2 (if (h =? 12)%Z then 0%Z else h) ++ ":" ++ pad2 m)%string.
Proof.
  intros Hh Hm.
  destruct (padded_digits m Hm) as (d3 & d4 & H3 & H4 & Em & Pm).
  destruct (Z_le_gt_dec h 9) as [Hone|Htwo].
  - destruct (decimal_digit h ltac:(lia)) as (d1 & H1 & Eh & Ph).
    pose proof (pm_one_digit d1 d3 d4 H1 H3 H4) as P.
    pose proof (am_one_digit d1 d3 d4 H1 H3 H4) as A.
    rewrite <- Eh, <- Em, Ph, Pm in P, A. rewrite P, A.
    replace (h =? 12)%Z with false by (symmetry; apply Z.eqb_neq; lia).
    split; reflexivity.
  - destruct (padded_digits h Hh) as (d1 & d2 & H1 & H2 & Eh & Ph).
    pose proof (pm_two_digits d1 d2 d3 d4 H1 H2 H3 H4) as P.
    pose proof (am_two_digits d1 d2 d3 d4 H1 H2 H3 H4) as A.
    rewrite <- Eh, <- Em, Ph, Pm in P, A.
    rewrite (decimal_two_digits h) by lia.
    rewrite P, A. split; [|reflexivity].
    destruct (h =? 12)%Z eqn:E; [|reflexivity]. apply Z.eqb_eq in E. now rewrite E.
Qed.

End TimeStrings.

Section TimeStringClaims.

Import Js Regex Ai.
Local Open Scope Z_scope.

(** X14.  The am/pm branch of [parseTimeString] checks neither the hour nor
    the minute: for every hour and every minute of two digits at most,
    ["h:mm pm"] gives the hour plus 12 (12 itself for 12) and ["h:mm am"]
    the hour (0 for 12), with the minutes as they are.  An hour above 12 or
    a minute above 59 is not refused: ["13:75 pm"] gives ["25:75"]. *)
Theorem parseTimeString_twelve_hour_clock :
  forall h m : Z,
    0 <= h <= 99 ->
    0 <= m <= 99 ->
    parseTimeString (decimal h ++ ":" ++ pad2 m ++ " pm")
    = Some (pad2 (if (h =? 12)%Z then 12%Z else (h + 12)%Z) ++ ":" ++ pad2 m)%string
    /\ parseTimeString (decimal h ++ ":" ++ pad2 m ++ " am")
       = Some (pad2 (if (h =? 12)%Z then 0%Z else h) ++ ":" ++ pad2 m)%string.
Proof. intros h m Hh Hm. now apply twelve_hour_clock. Qed.

Lemma parseTimeString_twelve_hour_clock_witness :
  parseTimeString (decimal 13 ++ ":" ++ pad2 75 ++ " pm")
  = Some (pad2 (if (13 =? 12)%Z then 12%Z else (13 + 12)%Z) ++ ":" ++ pad2 75)%string
  /\ parseTimeString (decimal 13 ++ ":" ++ pad2 75 ++ " am")
     = Some (pad2 (if (13 =? 12)%Z then 0%Z else 13%Z) ++ ":" ++ pad2 75)%string.
Proof. apply (parseTimeString_twelve_hour_clock 13 75); lia. Defined.

(** X15.  The other two branches of [parseTimeString] check the ranges: for
    every hour and every minute of two digits at most, ["h:mm"] gives the
    time padded to two digits when the hour is at most 23 and the minute at
    most 59, and [null] otherwise; an hour alone gives the full hour when it
    is at most 23, and [null] otherwise. *)
Theorem parseTimeString_day_clock :
  forall h m : Z,
    0 <= h <= 99 ->
    0 <= m <= 99 ->
    parseTimeString (decimal h ++ ":" ++ pad2 m)
    = (if (h <=? 23) && (m <=? 59)
       then Some (pad2 h ++ ":" ++ pad2 m)%string else None)
    /\ parseTimeString (decimal h)
       = (if h <=? 23 then Some (pad2 h ++ ":00")%string else None).
Proof.
  intros h m Hh Hm.
  destruct (padded_digits m Hm) as (d3 & d4 & H3 & H4 & Em & Pm).
  assert (Z0 : forall x, 0 <= x -> (0 <=? x) = true) by (intros; now apply Z.leb_le).
  destruct (Z_le_gt_dec h 9) as [Hone|Htwo].
  - destruct (decimal_digit h ltac:(lia)) as (d1 & H1 & Eh & Ph).
    pose proof (day_one_digit d1 d3 d4 H1 H3 H4) as D.
    pose proof (hour_one_digit d1 H1) as O.
    rewrite <- Eh, <- Em, Ph, Pm, !Z0 in D by lia.
    rewrite <- Eh, Ph, !Z0 in O by lia.
    rewrite D, O. cbn [andb]. rewrite andb_true_r. split; reflexivity.
  - destruct (padded_digits h Hh) as (d1 & d2 & H1 & H2 & Eh & Ph).
    pose proof (day_two_digits d1 d2 d3 d4 H1 H2 H3 H4) as D.
    pose proof (hour_two_digits d1 d2 H1 H2) as O.
    rewrite <- Eh, <- Em, Ph, Pm, !Z0 in D by lia.
    rewrite <- Eh, Ph, !Z0 in O by lia.
    rewrite (decimal_two_digits h) by lia.
    rewrite D, O. cbn [andb]. rewrite andb_true_r. split; reflexivity.
Qed.

Lemma parseTimeString_day_clock_witness :
  parseTimeString (decimal 9 ++ ":" ++ pad2 5)
  = (if (9 <=? 23) && (5 <=? 59)
     then Some (pad2 9 ++ ":" ++ pad2 5)%string else None)
  /\ parseTimeString (decimal 9)
     = (if 9 <=? 23 then Some (pad2 9 ++ ":00")%string else None).
Proof. apply (parseTimeString_day_clock 9 5); lia. Defined.

End TimeStringClaims.

(** ** The primary JSON extraction on every reply *)

Section ExtractionComplete.

Import Js Regex AiController.
Local Open Scope list_scope.
Local Arguments Ascii.eqb : simpl never.

Lemma greedy_close_found sn rs cs e :
  greedyAny closing sn rs cs = Some e ->
  exists mid post, rs = mid ++ "]"%char :: post.
Proof.
  revert sn e; induction rs as [|c tl IH]; intros sn e; simpl.
  - rewrite closing_eq. discriminate.
  - destruct (greedyAny closing (c :: sn) tl cs) as [e'|] eqn:Eg; cbn [orElse].
    + intros _. destruct (IH _ _ Eg) as (mid & post & ->).
      now exists (c :: mid), post.
    + rewrite closing_eq.
      destruct (Ascii.eqb_spec "]" c) as [<-|_]; [|discriminate].
      intros _. now exists [], tl.
Qed.

Lemma matchHere_found sn rs e :
  matchHere false jsonArrayRe (mkPos sn rs []) = Some e ->
  exists mid post, rs = "["%char :: mid ++ "]"%char :: post.
Proof.
  unfold matchHere, jsonArrayRe. cbn [seqs run rest seen caps just].
  destruct rs as [|c tl]; [discriminate|].
  destruct (Ascii.eqb_spec "[" c) as [<-|_]; [|discriminate].
  rewrite starLoop_any by (cbn [rest]; lia).
  intros H. destruct (greedy_close_found _ _ _ _ H) as (mid & post & ->).
  now exists mid, post.
Qed.

Lemma search_found rs :
  forall sn found,
    search false jsonArrayRe sn rs = Some found ->
    exists pre mid post, rs = pre ++ "["%char :: mid ++ "]"%char :: post.
Proof.
  induction rs as [|c tl IH]; intros sn found; cbn [search].
  - destruct (matchHere false jsonArrayRe (mkPos sn [] [])) as [e|] eqn:Em;
      [|discriminate].
    destruct (matchHere_found _ _ _ Em) as (mid & post & E). discriminate.
  - destruct (matchHere false jsonArrayRe (mkPos sn (c :: tl) [])) as [e|] eqn:Em.
    + intros _. destruct (matchHere_found _ _ _ Em) as (mid & post & ->).
      now exists [], mid, post.
    + intros H. destruct (IH _ _ H) as (pre & mid & post & ->).
      now exists (c :: pre), mid, post.
Qed.

(** The first and the last occurrence of a character. *)
Lemma split_first (c : ascii) l :
  In c l -> exists a b, l = a ++ c :: b /\ ~ In c a.
Proof.
  induction l as [|x l IH]; [intros []|].
  destruct (Ascii.eqb_spec x c) as [->|Hx].
  - intros _. exists [], l. auto.
  - intros [E|H]; [congruence|].
    destruct (IH H) as (a & b & -> & Ha).
    exists (x :: a), b. split; [reflexivity|]. intros [E|Hin]; auto.
Qed.

Lemma split_last (c : ascii) l :
  In c l -> exists a b, l = a ++ c :: b /\ ~ In c b.
Proof.
  intros H. apply in_rev in H.
  destruct (split_first c (rev l) H) as (a & b & E & Ha).
  exists (rev b), (rev a). split.
  - rewrite <- (rev_involutive l), E, rev_app_distr. simpl.
    now rewrite <- app_assoc.
  - now rewrite <- in_rev.
Qed.

Lemma after_first_open pre :
  forall r p0 rest0,
    ~ In "["%char pre ->
    pre ++ "["%char :: r = p0 ++ "["%char :: rest0 ->
    exists gap, r = gap ++ rest0.
Proof.
  induction pre as [|c pre IH]; intros r p0 rest0 Hpre E.
  - destruct p0 as [|x p0]; simpl in E; inversion E; subst.
    + now exists [].
    + now exists (p0 ++ ["["%char]); rewrite <- app_assoc.
  - destruct p0 as [|x p0]; simpl in E; inversion E; subst.
    + exfalso. apply Hpre. now left.
    + apply (IH r p0 rest0); auto. intros H. apply Hpre. now right.
Qed.

(** A text that has an opening bracket before a closing one runs from a
    part without opening bracket, through its first opening bracket and its
    last closing bracket, to a part without closing bracket. *)
Lemma bracketed_span l :
  (exists p0 m0 q0, l = p0 ++ "["%char :: m0 ++ "]"%char :: q0) ->
  exists pre mid post,
    l = pre ++ "["%char :: mid ++ "]"%char :: post
    /\ ~ In "["%char pre /\ ~ In "]"%char post.
Proof.
  intros (p0 & m0 & q0 & E).
  assert (Hopen : In "["%char l) by (rewrite E; apply in_or_app; right; now left).
  destruct (split_first _ _ Hopen) as (pre & r & El & Hpre).
  destruct (after_first_open pre r p0 (m0 ++ "]"%char :: q0) Hpre) as [gap Er];
    [congruence|].
  assert (Hclose : In "]"%char r).
  { rewrite Er. apply in_or_app; right. apply in_or_app; right. now left. }
  destruct (split_last _ _ Hclose) as (mid & post & Emid & Hpost).
  exists pre, mid, post. split; [now rewrite El, Emid|]. auto.
Qed.

Lemma chars_text l : chars (text l) = l.
Proof. apply list_ascii_of_string_of_list_ascii. Qed.

End ExtractionComplete.

Section ExtractionCompleteClaims.

Import Js Regex AiController.
Local Open Scope string_scope.

(** X16.  What the primary extraction finds in a reply, whatever the reply:
    when the reply has an opening bracket with a closing bracket somewhere
    after it, the match is the span from the first opening bracket of the
    reply to its last closing bracket; the extraction finds nothing exactly
    when the reply has no opening bracket that a closing bracket follows. *)
Theorem jsonMatch_on_every_reply :
  forall reply : string,
    match jsonMatch reply with
    | Some matched =>
        exists pre mid post,
          reply = pre ++ "[" ++ mid ++ "]" ++ post
          /\ lacks "[" pre /\ lacks "]" post
          /\ matched = "[" ++ mid ++ "]"
    | None =>
        forall pre mid post, reply <> pre ++ "[" ++ mid ++ "]" ++ post
    end.
Proof.
  intros reply.
  assert (Hspan : (exists p0 m0 q0,
                      chars reply = (p0 ++ "["%char :: m0 ++ "]"%char :: q0)%list) ->
                  exists pre mid post,
                    reply = pre ++ "[" ++ mid ++ "]" ++ post
                    /\ lacks "[" pre /\ lacks "]" post
                    /\ jsonMatch reply = Some ("[" ++ mid ++ "]")).
  { intros H. destruct (bracketed_span _ H) as (pre & mid & post & E & Hpre & Hpost).
    exists (text pre), (text mid), (text post).
    assert (Er : reply = text pre ++ "[" ++ text mid ++ "]" ++ text post).
    { rewrite (text_of_chars reply _ eq_refl), E.
      unfold text. rewrite !text_app. simpl. now rewrite !text_app. }
    split; [exact Er|]. unfold lacks. rewrite !chars_text.
    split; [exact Hpre|]. split; [exact Hpost|].
    rewrite Er at 1. apply jsonMatch_span; unfold lacks; now rewrite chars_text. }
  destruct (jsonMatch reply) as [matched|] eqn:Em.
  - assert (Hsome : exists p0 m0 q0,
               chars reply = (p0 ++ "["%char :: m0 ++ "]"%char :: q0)%list).
    { unfold jsonMatch, exec in Em.
      destruct (search false jsonArrayRe [] (chars reply)) as [found|] eqn:Es;
        [|discriminate].
      now apply search_found in Es. }
    destruct (Hspan Hsome) as (pre & mid & post & Er & Hpre & Hpost & E).
    exists pre, mid, post. repeat split; auto. congruence.
  - intros pre mid post Er.
    destruct Hspan as (pre' & mid' & post' & _ & _ & _ & E); [|congruence].
    exists (chars pre), (chars mid), (chars post).
    rewrite Er, !chars_app. reflexivity.
Qed.

End ExtractionCompleteClaims.

(** ** [isValidUUID]: the texts it accepts *)

Section UuidShape.

Import Js Regex Alignment.
Local Open Scope list_scope.

(** The matcher on a sequence, one character at a time. *)
Lemma run_assoc m a b c k s :
  run m (Seq (Seq a b) c) k s = run m (Seq a (Seq b c)) k s.
Proof. reflexivity. Qed.

Lemma run_chr_seq m p r k sn l cs :
  run m (Seq (Chr p) r) k (mkPos sn l cs)
  = match l with
    | [] => None
    | c :: tl => if p c then run m r k (mkPos (c :: sn) tl cs) else None
    end.
Proof. destruct l; reflexivity. Qed.

Lemma run_eol k sn l cs :
  run false Eol k (mkPos sn l cs)
  = match l with
    | [] => k (mkPos sn [] cs)
    | _ :: _ => None
    end.
Proof. destruct l; reflexivity. Qed.

Ltac next_char H l :=
  rewrite ?run_assoc in H; rewrite run_chr_seq in H;
  destruct l as [|? l]; [discriminate H|];
  match type of H with
  | (if ?b then _ else _) = _ => destruct b eqn:?; [|discriminate H]
  end.

(** The classes [[1-5]] and [[89ab]] under the [i] flag. *)
Lemma version_digit c :
  existsb (fun p : ascii -> bool => p (lowerChar c) || p (upperChar c))
          [span "1" "5"] = true ->
  In c ["1"; "2"; "3"; "4"; "5"]%char.
Proof.
  destruct c as [[] [] [] [] [] [] [] []]; vm_compute; intros H;
    first [discriminate H | tauto].
Qed.

Lemma variant_digit c :
  existsb (fun p : ascii -> bool => p (lowerChar c) || p (upperChar c))
          [among "89ab"] = true ->
  In c ["8"; "9"; "a"; "b"; "A"; "B"]%char.
Proof.
  destruct c as [[] [] [] [] [] [] [] []]; vm_compute; intros H;
    first [discriminate H | tauto].
Qed.

(** X17.  [isValidUUID] accepts only a text of 36 characters with a hyphen
    as its 9th, 14th, 19th and 24th character, a version digit from 1 to 5
    as its 15th and one of 8, 9, a, b (in either case) as its 20th: the nil
    identifier and the identifiers of the versions 6 to 8 are not valid
    for the alignment. *)
Theorem isValidUUID_shape :
  forall v : value,
    isValidUUID v = true ->
    exists s version variant,
      v = Str s
      /\ String.length s = 36
      /\ get 8 s = Some "-"%char /\ get 13 s = Some "-"%char
      /\ get 18 s = Some "-"%char /\ get 23 s = Some "-"%char
      /\ get 14 s = Some version
      /\ In version ["1"; "2"; "3"; "4"; "5"]%char
      /\ get 19 s = Some variant
      /\ In variant ["8"; "9"; "a"; "b"; "A"; "B"]%char.
Proof.
  intros v H. unfold isValidUUID in H.
  destruct (negb (truthy v)); [discriminate|].
  destruct v as [| | | |s|]; try discriminate.
  unfold uuidRe in H. cbn [seqs] in H.
  apply test_anchored_true in H as [e H].
  remember (chars s) as l eqn:El.
  cbn [times] in H. unfold clsCI, just in H.
  do 36 next_char H l.
  rewrite run_eol in H. destruct l; [clear H|discriminate H].
  repeat match goal with
         | H : Ascii.eqb _ ?c = true |- _ => apply Ascii.eqb_eq in H; subst c
         end.
  apply text_of_chars in El.
  match goal with
  | Hv : existsb _ [span "1" "5"] = true, Hr : existsb _ [among "89ab"] = true
    |- _ =>
      apply version_digit in Hv; apply variant_digit in Hr;
      eexists s, _, _; rewrite El;
      repeat (split; [reflexivity || eassumption|]); eassumption
  end.
Qed.

Lemma isValidUUID_shape_witness :
  exists s version variant,
    Str "123e4567-e89b-12d3-a456-426614174000" = Str s
    /\ String.length s = 36
    /\ get 8 s = Some "-"%char /\ get 13 s = Some "-"%char
    /\ get 18 s = Some "-"%char /\ get 23 s = Some "-"%char
    /\ get 14 s = Some version
    /\ In version ["1"; "2"; "3"; "4"; "5"]%char
    /\ get 19 s = Some variant
    /\ In variant ["8"; "9"; "a"; "b"; "A"; "B"]%char.
Proof.
  apply (isValidUUID_shape (Str "123e4567-e89b-12d3-a456-426614174000")).
  vm_compute. reflexivity.
Defined.

End UuidShape.

(** ** The tasks extracted from a transcript *)

Section VoiceTasks.

Import Js Alignment AiController.
Local Open Scope list_scope.

(** [trim] gives a text that [trim] leaves as it is. *)
Lemma dropWhite_kept l :
  match l with [] => True | c :: _ => isWhite c = false end -> dropWhite l = l.
Proof. destruct l as [|c l]; simpl; [reflexivity|]. now intros ->. Qed.

Lemma dropWhite_head l :
  match dropWhite l with [] => True | c :: _ => isWhite c = false end.
Proof.
  induction l as [|c l IH]; simpl; [exact I|].
  destruct (isWhite c) eqn:E; [exact IH|exact E].
Qed.

Lemma trimChars_head l :
  match trimChars l with [] => True | c :: _ => isWhite c = false end.
Proof.
  unfold trimChars.
  destruct (dropWhite_suffix (rev (dropWhite l))) as [w Hw].
  destruct (dropWhite (rev (dropWhite l))) as [|c b] eqn:Eb; [exact I|].
  assert (Ea : dropWhite l = rev (c :: b) ++ rev w).
  { rewrite <- rev_app_distr, <- Hw. now rewrite rev_involutive. }
  pose proof (dropWhite_head l) as Hh. rewrite Ea in Hh.
  destruct (rev (c :: b)) as [|x t] eqn:Er; [|exact Hh].
  apply (f_equal (@List.length ascii)) in Er. rewrite length_rev in Er. discriminate.
Qed.

Lemma trimChars_idempotent l : trimChars (trimChars l) = trimChars l.
Proof.
  unfold trimChars at 1.
  rewrite (dropWhite_kept (trimChars l)) by apply trimChars_head.
  unfold trimChars. rewrite rev_involutive.
  rewrite (dropWhite_kept (dropWhite _)) by apply dropWhite_head.
  reflexivity.
Qed.

Lemma trim_idempotent s : trim (trim s) = trim s.
Proof.
  unfold trim. rewrite list_ascii_of_string_of_list_ascii.
  now rewrite trimChars_idempotent.
Qed.

Lemma filterE_kept {A} (p : A -> outcome bool) l kept :
  filterE p l = Returned kept ->
  List.length kept <= List.length l
  /\ forall x, In x kept -> In x l /\ p x = Returned true.
Proof.
  revert kept; induction l as [|x l IH]; simpl; intros kept H.
  - inversion H; subst. split; [simpl; lia|intros x []].
  - destruct (p x) as [b|e] eqn:Ep; [|discriminate].
    destruct (filterE p l) as [r|e]; [|discriminate].
    destruct (IH r eq_refl) as [Hlen Hall].
    inversion H; subst. destruct b; simpl.
    + split; [lia|]. intros y [<-|Hy]; auto. destruct (Hall y Hy); auto.
    + split; [lia|]. intros y Hy. destruct (Hall y Hy); auto.
Qed.

Lemma mapE_length {A B} (f : A -> outcome B) l ys :
  mapE f l = Returned ys -> List.length ys = List.length l.
Proof.
  revert ys; induction l as [|x l IH]; simpl; intros ys H.
  - now inversion H.
  - destruct (f x); [|discriminate].
    destruct (mapE f l) as [r|]; [|discriminate].
    inversion H; subst. simpl. now rewrite (IH r).
Qed.

Lemma length_zero_text s : (0 <? String.length s)%nat = true -> s <> "".
Proof. destruct s; [discriminate|discriminate]. Qed.

(** X18.  The tasks that [extractTasksFromVoice] answers are well formed:
    there are no more of them than elements in the array that was parsed,
    each has a title that is not empty and carries no white space at its
    ends, an importance that is one of low, medium and high, and notes, when
    it has some, without white space at their ends. *)
Theorem voice_tasks_are_well_formed :
  forall (extractedTasks : list (element RawTask)) (tasks : list ExtractedTask),
    validTasks extractedTasks = Returned tasks ->
    List.length tasks <= List.length extractedTasks
    /\ forall t,
        In t tasks ->
        x_title t <> ""%string
        /\ trim (x_title t) = x_title t
        /\ In (x_importance t) [Str "low"; Str "medium"; Str "high"]
        /\ (forall n, x_notes t = Some n -> trim n = n).
Proof.
  intros extractedTasks tasks H. unfold validTasks in H.
  destruct (filterE isValid extractedTasks) as [kept|e] eqn:Ek; [|discriminate].
  destruct (filterE_kept _ _ _ Ek) as [Hlen Hkept].
  split.
  - rewrite (mapE_length _ _ _ H), length_map. exact Hlen.
  - intros t Ht.
    destruct (mapE_in _ _ _ H t Ht) as (raw & Hraw & Hclean).
    apply in_map_iff in Hraw as (el & <- & Hel).
    destruct (Hkept el Hel) as [_ Hvalid].
    destruct el as [|task]; [discriminate|]. simpl in Hclean.
    unfold isValid in Hvalid. injection Hvalid as Hv.
    unfold cleanTask in Hclean.
    destruct (title task) as [| | | |ttl|]; try discriminate.
    destruct (duration task) as [| | |d| |]; try discriminate.
    apply andb_true_iff in Hv as [Hv _]. apply andb_true_iff in Hv as [Hv _].
    apply andb_true_iff in Hv as [_ Hv].
    assert (Himp : In (if existsb (strictEq (importance task))
                                  [Str "low"; Str "medium"; Str "high"]
                       then importance task else Str "medium")
                      [Str "low"; Str "medium"; Str "high"]).
    { destruct (existsb _ _) eqn:E; [|simpl; auto].
      apply existsb_exists in E as (x & Hx & Heq).
      destruct (importance task) as [| | | |imp|]; simpl in Hx;
        destruct Hx as [<-|[<-|[<-|[]]]]; simpl in Heq; try discriminate;
        apply String.eqb_eq in Heq; subst; simpl; auto. }
    destruct (truthy (notes task)).
    + destruct (notes task) as [| | | |n|]; try discriminate.
      injection Hclean as <-. cbn [x_title x_importance x_notes].
      split; [now apply length_zero_text|]. split; [apply trim_idempotent|].
      split; [exact Himp|]. intros n' E; inversion E; subst. apply trim_idempotent.
    + injection Hclean as <-. cbn [x_title x_importance x_notes].
      split; [now apply length_zero_text|]. split; [apply trim_idempotent|].
      split; [exact Himp|]. discriminate.
Qed.

Lemma voice_tasks_are_well_formed_witness :
  List.length [mkExtracted "Call mom" 15 (Str "medium") (Some "09:00") (Some "later")]
  <= List.length [Object (mkRaw (Str " Call mom ") (Num 15) (Str "urgent")
                                (Str "9 am") (Str " later"));
                  Object (mkRaw (Str "  ") (Num 15) Undefined Undefined Undefined)]
  /\ forall t,
      In t [mkExtracted "Call mom" 15 (Str "medium") (Some "09:00") (Some "later")] ->
      x_title t <> ""%string
      /\ trim (x_title t) = x_title t
      /\ In (x_importance t) [Str "low"; Str "medium"; Str "high"]
      /\ (forall n, x_notes t = Some n -> trim n = n).
Proof.
  apply (voice_tasks_are_well_formed
           [Object (mkRaw (Str " Call mom ") (Num 15) (Str "urgent")
                          (Str "9 am") (Str " later"));
            Object (mkRaw (Str "  ") (Num 15) Undefined Undefined Undefined)]).
  vm_compute. reflexivity.
Defined.

End VoiceTasks.

(** ** The scheduled time of a task extracted from a transcript *)

Section ScheduledTimes.

Import Js Regex Ai AiController.
Local Open Scope list_scope.

Lemma trimChars_kept c r c' :
  isWhite c = false -> isWhite c' = false ->
  trimChars (c :: r ++ [c']) = c :: r ++ [c'].
Proof.
  intros Hc Hc'. unfold trimChars. simpl. rewrite Hc.
  change (c :: r ++ [c']) with ((c :: r) ++ [c']).
  rewrite rev_app_distr. simpl. rewrite Hc'.
  change (c' :: rev r ++ [c]) with ((c' :: rev r) ++ [c]).
  rewrite rev_app_distr. simpl. rewrite rev_involutive. reflexivity.
Qed.

(** A text between two characters that are not white space is trimmed to
    itself. *)
Lemma trim_kept c r c' :
  isWhite c = false -> isWhite c' = false ->
  trim (String c (r ++ String c' "")) = String c (r ++ String c' "")%string.
Proof.
  intros Hc Hc'. unfold trim. simpl.
  replace (list_ascii_of_string (r ++ String c' ""))
    with (list_ascii_of_string r ++ [c']) by (symmetry; apply (chars_app r (String c' ""))).
  rewrite trimChars_kept by assumption.
  simpl. f_equal. rewrite text_app. simpl.
  now rewrite string_of_list_ascii_of_string.
Qed.

(** The text of a time begins and ends with a digit. *)
Lemma clock_text h m :
  (0 <= h <= 99)%Z -> (0 <= m <= 99)%Z ->
  exists c r c',
    (decimal h ++ ":" ++ pad2 m)%string = String c (r ++ String c' "")%string
    /\ isDigit c = true /\ isDigit c' = true.
Proof.
  intros Hh Hm.
  destruct (padded_digits m Hm) as (d3 & d4 & H3 & H4 & Em & Pm).
  assert (Hd : exists d1 t, decimal h = String d1 t /\ isDigit d1 = true).
  { destruct (Z_le_gt_dec h 9).
    - destruct (decimal_digit h ltac:(lia)) as (d1 & H1 & Eh & _). eauto.
    - destruct (padded_digits h Hh) as (d1 & d2 & H1 & _ & Eh & _).
      rewrite decimal_two_digits by lia. eauto. }
  destruct Hd as (d1 & t & Eh & H1).
  exists d1, (t ++ String ":" (String d3 ""))%string, d4.
  split; [|now split].
  rewrite Eh, Em. simpl. f_equal. now rewrite append_assoc.
Qed.

Lemma accepted_length s :
  test false timeRegex s = true -> String.length s <= 5.
Proof.
  intros H. apply timeRegex_sound in H as (h & m & Hh & Hm & E).
  destruct (padded_digits m ltac:(lia)) as (d3 & d4 & _ & _ & Em & _).
  destruct (padded_digits h ltac:(lia)) as (d1 & d2 & _ & _ & Eh & _).
  destruct E as [-> | ->]; rewrite !length_append, Em; simpl.
  - destruct (Z_le_gt_dec h 9).
    + destruct (decimal_digit h ltac:(lia)) as (d & _ & -> & _). simpl. lia.
    + rewrite decimal_two_digits, Eh by lia. simpl. lia.
  - rewrite Eh. simpl. lia.
Qed.

Lemma clock_length h m :
  (0 <= m <= 99)%Z -> 3 <= String.length (decimal h ++ ":" ++ pad2 m).
Proof.
  intros Hm. destruct (padded_digits m Hm) as (d3 & d4 & _ & _ & Em & _).
  rewrite !length_append, Em. simpl. lia.
Qed.

Lemma suffixed_not_a_time h m suffix :
  (0 <= m <= 99)%Z ->
  3 <= String.length suffix ->
  test false timeRegex (decimal h ++ ":" ++ pad2 m ++ suffix) = false.
Proof.
  intros Hm Hs.
  destruct (test false timeRegex (decimal h ++ ":" ++ pad2 m ++ suffix)) eqn:E;
    [|reflexivity].
  apply accepted_length in E.
  pose proof (clock_length h m Hm) as L.
  rewrite !length_append in E. rewrite !length_append in L. lia.
Qed.

Lemma suffixed_trimmed h m (suffix : string) (c' : ascii) :
  (0 <= h <= 99)%Z -> (0 <= m <= 99)%Z ->
  isWhite c' = false ->
  trim (decimal h ++ ":" ++ pad2 m ++ suffix ++ String c' "")
  = (decimal h ++ ":" ++ pad2 m ++ suffix ++ String c' "")%string.
Proof.
  intros Hh Hm Hc'.
  destruct (clock_text h m Hh Hm) as (c & r & d & E & Hc & _).
  replace (decimal h ++ ":" ++ pad2 m ++ suffix ++ String c' "")%string
    with (String c ((r ++ String d "" ++ suffix) ++ String c' ""))%string.
  - apply trim_kept; [now apply digit_not_white|assumption].
  - transitivity ((decimal h ++ ":" ++ pad2 m) ++ suffix ++ String c' "")%string.
    + rewrite E. simpl. now rewrite !append_assoc.
    + now rewrite !append_assoc.
Qed.

Lemma truthy_text c r : truthy (Str (String c r)) = true.
Proof. reflexivity. Qed.

Lemma truthy_suffixed h m suffix :
  (0 <= h <= 99)%Z -> (0 <= m <= 99)%Z ->
  truthy (Str (decimal h ++ ":" ++ pad2 m ++ suffix)) = true.
Proof.
  intros Hh Hm. destruct (clock_text h m Hh Hm) as (c & r & c' & E & _).
  replace (decimal h ++ ":" ++ pad2 m ++ suffix)%string
    with ((decimal h ++ ":" ++ pad2 m) ++ suffix)%string
    by now rewrite !append_assoc.
  now rewrite E.
Qed.

(** X19.  The scheduled time of a task extracted from a transcript: a time
    of day written [h:mm] (hour at most 23, minutes at most 59) is kept as
    it is written, without padding of the hour; and a text [h:mm pm] or
    [h:mm am], which the pattern of the times of day refuses, is converted
    by [parseTimeString] with no check of the range of the hour or of the
    minutes, so that the scheduled time of the task can be no time of day
    at all. *)
Theorem voice_scheduled_time :
  forall h m : Z,
    (0 <= h <= 99)%Z ->
    (0 <= m <= 99)%Z ->
    ((h <= 23)%Z -> (m <= 59)%Z ->
     cleanScheduledTime (Str (decimal h ++ ":" ++ pad2 m))
     = Some (decimal h ++ ":" ++ pad2 m)%string)
    /\ cleanScheduledTime (Str (decimal h ++ ":" ++ pad2 m ++ " pm"))
       = Some (pad2 (if (h =? 12)%Z then 12%Z else (h + 12)%Z) ++ ":" ++ pad2 m)%string
    /\ cleanScheduledTime (Str (decimal h ++ ":" ++ pad2 m ++ " am"))
       = Some (pad2 (if (h =? 12)%Z then 0%Z else h) ++ ":" ++ pad2 m)%string.
Proof.
  intros h m Hh Hm.
  destruct (clock_text h m Hh Hm) as (c & r & c' & E & Hc & Hc').
  destruct (twelve_hour_clock h m Hh Hm) as [Ppm Pam].
  split; [|split].
  - intros Hh' Hm'. unfold cleanScheduledTime. cbn [toString].
    rewrite E, truthy_text, trim_kept by now apply digit_not_white.
    rewrite <- E.
    now rewrite (proj1 (timeRegex_complete h m ltac:(lia) ltac:(lia))).
  - unfold cleanScheduledTime. cbn [toString].
    rewrite truthy_suffixed by assumption.
    pose proof (suffixed_trimmed h m " p" "m" Hh Hm eq_refl) as T.
    change (" p" ++ String "m" "")%string with " pm" in T. rewrite T.
    now rewrite suffixed_not_a_time by (assumption || (simpl; lia)).
  - unfold cleanScheduledTime. cbn [toString].
    rewrite truthy_suffixed by assumption.
    pose proof (suffixed_trimmed h m " a" "m" Hh Hm eq_refl) as T.
    change (" a" ++ String "m" "")%string with " am" in T. rewrite T.
    now rewrite suffixed_not_a_time by (assumption || (simpl; lia)).
Qed.

Lemma voice_scheduled_time_witness :
  cleanScheduledTime (Str "9:05") = Some "9:05"%string
  /\ cleanScheduledTime (Str "9:05 pm") = Some "21:05"%string
  /\ cleanScheduledTime (Str "9:05 am") = Some "09:05"%string.
Proof.
  destruct (voice_scheduled_time 9 5) as (A & B & C); [lia|lia|].
  split; [apply A; lia|]. split; [exact B|exact C].
Defined.

End ScheduledTimes.

(** ** The last replacement of [cleanAIResponse] *)

Section Edges.

Import Js Regex Ai.
Local Open Scope list_scope.

Local Abbreviation allWhite := (forallb isWhite).

Lemma dropWhite_app a b :
  dropWhite (a ++ b) = if allWhite a then dropWhite b else dropWhite a ++ b.
Proof.
  induction a as [|c a IH]; simpl; [reflexivity|].
  destruct (isWhite c); simpl; [exact IH|reflexivity].
Qed.

Lemma allWhite_rev l : allWhite (rev l) = allWhite l.
Proof.
  induction l as [|c l IH]; simpl; [reflexivity|].
  rewrite forallb_app, IH. simpl. rewrite andb_true_r. apply andb_comm.
Qed.

Lemma dropWhite_all l : allWhite l = true -> dropWhite l = [].
Proof.
  induction l as [|c l IH]; simpl; [reflexivity|].
  destruct (isWhite c); simpl; [exact IH|discriminate].
Qed.

(** What is left of a text whose white space at the end is dropped. *)
Local Abbreviation dropEnd l := (rev (dropWhite (rev l))).

Lemma dropEnd_cons c l :
  dropEnd (c :: l) = if allWhite (c :: l) then [] else c :: dropEnd l.
Proof.
  simpl rev. rewrite dropWhite_app, allWhite_rev. simpl forallb.
  destruct (allWhite l) eqn:El.
  - rewrite andb_true_r. simpl.
    rewrite (dropWhite_all (rev l)) by now rewrite allWhite_rev.
    destruct (isWhite c); reflexivity.
  - rewrite andb_false_r. rewrite rev_app_distr. reflexivity.
Qed.

(** [\s+$] where some white space has been read: the greedy repetition
    with the end of the text after it. *)
Lemma white_run_to_end fuel :
  forall rs sn,
    List.length rs < fuel ->
    starLoop true (run false space) (run false Eol (fun e => Some e)) fuel
             (mkPos sn rs [])
    = if allWhite rs then Some (mkPos (rev rs ++ sn) [] []) else None.
Proof.
  induction fuel as [|fuel IH]; intros rs sn Hlen; [lia|].
  destruct rs as [|c tl].
  - reflexivity.
  - cbn [starLoop run space rest seen caps orElse].
    simpl forallb.
    destruct (isWhite c) eqn:Ec; cbn [andb].
    + unfold advanced. cbn [rest].
      replace (List.length tl <? List.length (c :: tl))%nat with true
        by (symmetry; apply Nat.ltb_lt; simpl; lia).
      rewrite IH by (simpl in Hlen; lia).
      destruct (allWhite tl); cbn [orElse].
      * simpl rev. now rewrite <- app_assoc.
      * reflexivity.
    + reflexivity.
Qed.

(** [^\s+] where some white space has been read: the greedy repetition
    takes all the white space there is. *)
Lemma white_run fuel :
  forall rs sn,
    List.length rs < fuel ->
    exists l,
      starLoop true (run false space) (fun e => Some e) fuel (mkPos sn rs [])
      = Some (mkPos (l ++ sn) (dropWhite rs) []).
Proof.
  induction fuel as [|fuel IH]; intros rs sn Hlen; [lia|].
  destruct rs as [|c tl].
  - exists []. reflexivity.
  - cbn [starLoop run space rest seen caps orElse dropWhite].
    destruct (isWhite c) eqn:Ec.
    + unfold advanced. cbn [rest].
      replace (List.length tl <? List.length (c :: tl))%nat with true
        by (symmetry; apply Nat.ltb_lt; simpl; lia).
      destruct (IH tl (c :: sn) ltac:(simpl in Hlen; lia)) as [l E].
      exists (l ++ [c]). cbn [run space] in E. rewrite E. cbn [orElse]. now rewrite <- app_assoc.
    + exists []. reflexivity.
Qed.

Lemma edges_inside sn rs :
  sn <> [] ->
  matchHere false edgesRe (mkPos sn rs [])
  = match rs with
    | [] => None
    | _ :: _ => if allWhite rs then Some (mkPos (rev rs ++ sn) [] []) else None
    end.
Proof.
  intros Hsn. unfold matchHere, edgesRe, plus.
  cbn [run seen rest caps atBol].
  destruct sn as [|x sn]; [congruence|]. cbn [andb orElse].
  destruct rs as [|c tl]; [reflexivity|].
  cbn [run space rest seen caps].
  simpl forallb.
  destruct (isWhite c) eqn:Ec; [|reflexivity].
  rewrite white_run_to_end by (simpl; lia).
  cbn [andb]. destruct (allWhite tl); [|reflexivity].
  simpl rev. now rewrite <- app_assoc.
Qed.

Lemma edges_after_start fuel :
  forall rs sn,
    sn <> [] ->
    List.length rs < fuel ->
    replaceFrom false fuel edgesRe (fun _ => []) (mkPos sn rs []) = dropEnd rs.
Proof.
  induction fuel as [|fuel IH]; intros rs sn Hsn Hlen; [lia|].
  cbn [replaceFrom]. rewrite edges_inside by assumption.
  destruct rs as [|c tl]; [reflexivity|].
  rewrite dropEnd_cons.
  destruct (allWhite (c :: tl)).
  - unfold advanced. cbn [rest seen length].
    cbn [Nat.ltb Nat.leb app].
    destruct fuel as [|fuel']; [simpl in Hlen; lia|].
    cbn [replaceFrom]. rewrite edges_inside.
    + reflexivity.
    + simpl. destruct (rev tl); discriminate.
  - cbn [rest seen]. f_equal. apply IH; [discriminate|simpl in Hlen; lia].
Qed.

Lemma edges_chars l :
  replaceFrom false (S (List.length l)) edgesRe (fun _ => []) (mkPos [] l [])
  = trimChars l.
Proof.
  cbn [replaceFrom]. unfold matchHere, edgesRe, plus.
  cbn [run seen rest caps atBol].
  destruct l as [|c tl]; [reflexivity|].
  cbn [run space rest seen caps].
  unfold trimChars. cbn [dropWhite].
  destruct (isWhite c) eqn:Ec.
  - destruct (white_run (S (List.length tl)) tl [c] ltac:(lia)) as [l E].
    cbn [run space] in E. rewrite E. cbn [orElse]. unfold advanced. cbn [rest seen app].
    pose proof (length_dropWhite tl) as L.
    replace (List.length (dropWhite tl) <? List.length (c :: tl))%nat with true
      by (symmetry; apply Nat.ltb_lt; simpl; lia).
    rewrite edges_after_start.
    + reflexivity.
    + destruct l; discriminate.
    + simpl. lia.
  - cbn [orElse]. rewrite edges_after_start by (discriminate || (simpl; lia)).
    rewrite dropEnd_cons. simpl. now rewrite Ec.
Qed.

Lemma length_chars_text s : List.length (chars s) = String.length s.
Proof. induction s; simpl; congruence. Qed.

Lemma edges_trim s : remove false edgesRe s = trim s.
Proof.
  unfold remove, replaceAll, trim, text.
  rewrite <- length_chars_text. f_equal. apply edges_chars.
Qed.

Lemma strip_trimmed raw : trim (strip raw) = strip raw.
Proof. unfold strip. cbv zeta. rewrite edges_trim. apply trim_idempotent. Qed.

Lemma fallback_trimmed : trim fallback = fallback.
Proof. vm_compute. reflexivity. Qed.

(** X20.  The last replacement of [cleanAIResponse], of [/^\s+|\s+$/g] by
    the empty text, does what [trim] does, on every text; and what
    [cleanAIResponse] returns, for every argument, is a trimmed text: it
    neither begins nor ends with white space, so that the [trim] of its
    callers changes nothing. *)
Theorem cleanAIResponse_is_trimmed :
  (forall s : string, remove false edgesRe s = trim s)
  /\ (forall rawResponse : value,
        trim (cleanAIResponse rawResponse) = cleanAIResponse rawResponse).
Proof.
  split; [exact edges_trim|].
  intros [| |b|n|raw|shown]; try exact fallback_trimmed.
  unfold cleanAIResponse.
  destruct (negb (truthy (Str raw))); [exact fallback_trimmed|].
  cbv zeta.
  destruct (negb (truthy (Str (strip raw))) || (String.length (strip raw) <? 10)%nat);
    [exact fallback_trimmed|].
  unfold truncate.
  destruct (1000 <? String.length (strip raw))%nat.
  - apply trim_idempotent.
  - apply strip_trimmed.
Qed.

End Edges.
